(** * Veloura homepage script ([js/main.js]): a shallow embedding

    The script is one closure, [App], holding a small mutable [state] and ten
    initializers that wire DOM elements to event handlers and timers.  The
    embedding keeps that shape:

    - [JS]   the fragment of the language semantics the script relies on
             (Numbers as binary64 floats, strings as UTF-16 code units,
             JSON values, [ToBoolean], [ToString], [+], [JSON.parse]);
    - [DOM]  a flat node store with parent pointers, class lists, attributes,
             inline styles and the selector queries the script uses;
    - [App]  the script itself: a state-and-exception monad over the page
             ([World]), each function of [main.js] under its own name, the
             closures it registers as data ([Callback]) and the browser's
             event dispatch ([step]).

    The theorems about the script follow the definitions. *)

From Stdlib Require Import Ascii String ZArith QArith Qround Uint63.
From Stdlib Require Import DecimalString DecimalPos.
From Stdlib Require Import Floats.PrimFloat Floats.FloatOps Floats.SpecFloat.
From stdpp Require Import gmap strings list.

Local Open Scope Z_scope.
Set Warnings "-register-all".

(** ** Language-level values *)

Module JS.

(** A JavaScript string is a sequence of UTF-16 code units. *)
Abbreviation jsstring := (list N).

(** A source literal, one code unit per character. *)
Definition str (s : string) : jsstring :=
  map N_of_ascii (list_ascii_of_string s).

(** Decimal digits of an integer, as [String(z)] prints an integer Number. *)
Definition Z_toString (z : Z) : jsstring :=
  str (NilZero.string_of_int (Z.to_int z)).

(** *** Numbers

    A Number is a binary64 float.  The two conversions between decimal text
    and Numbers are computed exactly on integers and rounded once. *)

Abbreviation Number := float.

Definition pow10 (n : Z) : Z := 10 ^ n.

(** [num/den] rounded to the nearest integer, ties to even. *)
Definition round_half_even (num den : Z) : Z :=
  let q := num / den in
  match 2 * (num mod den) ?= den with
  | Lt => q
  | Gt => q + 1
  | Eq => if Z.even q then q else q + 1
  end.

(** The Number value of the positive rational [num/den]: the mantissa is cut
    at 53 bits, or at the subnormal exponent [-1074], and rounded to
    nearest-even; [Z.ldexp] overflows to infinity. *)
Definition Number_of_ratio (num den : Z) : Number :=
  if (num <=? 0) || (den <=? 0) then zero else
  let b0 := Z.log2 num - Z.log2 den in
  let b := if den * 2 ^ Z.max 0 b0 <=? num * 2 ^ Z.max 0 (- b0)
           then b0 else b0 - 1 in
  let u := Z.max (b - 52) (-1074) in
  let m := round_half_even (num * 2 ^ Z.max 0 (- u)) (den * 2 ^ Z.max 0 u) in
  Z.ldexp (PrimFloat.of_uint63 (Uint63.of_Z m)) u.

(** The Number value of [m * 10^e], for [m >= 0]. *)
Definition Number_of_decimal (m e : Z) : Number :=
  Number_of_ratio (m * pow10 (Z.max 0 e)) (pow10 (Z.max 0 (- e))).

Definition Number_of_Z (z : Z) : Number :=
  if z <? 0 then PrimFloat.opp (Number_of_decimal (- z) 0)
  else Number_of_decimal z 0.

Definition Number_of_nat (n : nat) : Number := Number_of_Z (Z.of_nat n).

(** Number of decimal digits of a positive integer. *)
Definition digits (z : Z) : Z :=
  Z.of_nat (List.length (Z_toString z)).

(** [Number::toString], radix 10.  For a finite positive [x = num/den] find
    the decimal exponent [n] with [10^(n-1) <= x < 10^n], then the least
    number [k] of digits and the [k]-digit integer [s] such that
    [s * 10^(n-k)] reads back as [x]; of the two neighbours of [x] the
    closer is taken, the even one on a tie. *)
Definition decimal_exponent (num den : Z) : Z :=
  let d := digits num - digits den in
  if den * pow10 (Z.max 0 d) <=? num * pow10 (Z.max 0 (- d)) then d + 1 else d.

Definition shortest_candidate (x : Number) (num den n k : Z)
  : option (Z * Z) :=
  let sc := n - k in
  let num' := num * pow10 (Z.max 0 (- sc)) in
  let den' := den * pow10 (Z.max 0 sc) in
  let lo := num' / den' in
  let hi := lo + 1 in
  let ok s := PrimFloat.eqb (Number_of_decimal s sc) x in
  let pick s := if s =? pow10 k then (pow10 (k - 1), n + 1) else (s, n) in
  match ok lo, ok hi with
  | true, true =>
      match 2 * (num' mod den') ?= den' with
      | Lt => Some (pick lo)
      | Gt => Some (pick hi)
      | Eq => Some (pick (if Z.even lo then lo else hi))
      end
  | true, false => Some (pick lo)
  | false, true => Some (pick hi)
  | false, false => None
  end.

Fixpoint shortest_digits (fuel : nat) (x : Number) (num den n k : Z)
  : Z * Z :=
  match fuel with
  | O => (num * pow10 (Z.max 0 (k - n)) / (den * pow10 (Z.max 0 (n - k))), n)
  | S fuel' =>
      match shortest_candidate x num den n k with
      | Some r => r
      | None => shortest_digits fuel' x num den n (k + 1)
      end
  end.

Definition zeros (n : Z) : jsstring := repeat 48%N (Z.to_nat n).

Definition format_digits (s n : Z) : jsstring :=
  let ds := Z_toString s in
  let k := Z.of_nat (List.length ds) in
  if (k <=? n) && (n <=? 21) then ds ++ zeros (n - k)
  else if (0 <? n) && (n <=? 21) then
    take (Z.to_nat n) ds ++ str "." ++ drop (Z.to_nat n) ds
  else if (-6 <? n) && (n <=? 0) then str "0." ++ zeros (- n) ++ ds
  else
    let e := n - 1 in
    let es := str (if e <? 0 then "-" else "+") ++ Z_toString (Z.abs e) in
    if k =? 1 then ds ++ str "e" ++ es
    else take 1 ds ++ str "." ++ drop 1 ds ++ str "e" ++ es.

Definition Number_toString (x : Number) : jsstring :=
  match Prim2SF x with
  | S754_nan => str "NaN"
  | S754_zero _ => str "0"
  | S754_infinity sign => str (if sign then "-Infinity" else "Infinity")
  | S754_finite sign m e =>
      let num := Z.pos m * 2 ^ Z.max 0 e in
      let den := 2 ^ Z.max 0 (- e) in
      let n := decimal_exponent num den in
      let '(s, n') := shortest_digits 17 (PrimFloat.abs x) num den n 1 in
      (if sign then str "-" else []) ++ format_digits s n'
  end.

(** *** Values

    The values [JSON.parse] can produce, and [undefined].  An object keeps
    its properties in source order; a repeated key is overwritten, so the
    last occurrence is the property's value. *)

Inductive JSValue :=
| VUndefined
| VNull
| VBool (b : bool)
| VNum (n : Number)
| VStr (s : jsstring)
| VArr (items : list JSValue)
| VObj (props : list (jsstring * JSValue)).

Inductive Error := TypeError | SyntaxError.

(** The outcome of evaluating an expression: a value or a thrown exception. *)
Inductive Result (A : Type) :=
| Ok (a : A)
| Throw (e : Error).
Arguments Ok {A} a.
Arguments Throw {A} e.

Definition rbind {A B} (r : Result A) (k : A -> Result B) : Result B :=
  match r with
  | Ok a => k a
  | Throw e => Throw e
  end.

Definition own_property (props : list (jsstring * JSValue)) (key : jsstring)
  : option JSValue :=
  snd <$> find (fun p => bool_decide (fst p = key)) (rev props).

Definition has_own_property (props : list (jsstring * JSValue))
    (key : jsstring) : bool :=
  match own_property props key with Some _ => true | None => false end.

Definition ToBoolean (v : JSValue) : bool :=
  match v with
  | VUndefined | VNull => false
  | VBool b => b
  | VNum n => negb (PrimFloat.eqb n zero || PrimFloat.is_nan n)
  | VStr s => negb (bool_decide (s = []))
  | VArr _ | VObj _ => true
  end.

(** [ToString].  An array is joined with commas ([undefined] and [null]
    elements print as nothing).  A parsed object has no callable property of
    its own, so it prints through [Object.prototype.toString] unless an own
    [toString] property shadows it, in which case no conversion is left and
    a [TypeError] is thrown. *)
Fixpoint ToString (v : JSValue) : Result jsstring :=
  match v with
  | VUndefined => Ok (str "undefined")
  | VNull => Ok (str "null")
  | VBool b => Ok (str (if b then "true" else "false"))
  | VNum n => Ok (Number_toString n)
  | VStr s => Ok s
  | VArr items =>
      let element x :=
        match x with
        | VUndefined | VNull => Ok []
        | _ => ToString x
        end in
      (fix join (l : list JSValue) : Result jsstring :=
         match l with
         | [] => Ok []
         | [x] => element x
         | x :: rest =>
             rbind (element x) (fun a =>
             rbind (join rest) (fun b => Ok (a ++ str "," ++ b)))
         end) items
  | VObj props =>
      if has_own_property props (str "toString") then Throw TypeError
      else Ok (str "[object Object]")
  end.

Definition ToPrimitive (v : JSValue) : Result JSValue :=
  match v with
  | VArr _ | VObj _ => rbind (ToString v) (fun s => Ok (VStr s))
  | _ => Ok v
  end.

(** [ToNumber] on the primitives that are not strings. *)
Definition ToNumber (v : JSValue) : Number :=
  match v with
  | VNum n => n
  | VBool true => one
  | VBool false | VNull => zero
  | _ => nan
  end.

(** The binary [+]. *)
Definition add (l r : JSValue) : Result JSValue :=
  rbind (ToPrimitive l) (fun lp =>
  rbind (ToPrimitive r) (fun rp =>
  match lp, rp with
  | VStr _, _ | _, VStr _ =>
      rbind (ToString lp) (fun ls =>
      rbind (ToString rp) (fun rs => Ok (VStr (ls ++ rs))))
  | _, _ => Ok (VNum (PrimFloat.add (ToNumber lp) (ToNumber rp)))
  end)).

(** Property read [v.key], for a [key] that is [length] or that no built-in
    prototype defines (the script reads [qty] and [length]). *)
Definition Get (v : JSValue) (key : jsstring) : Result JSValue :=
  match v with
  | VUndefined | VNull => Throw TypeError
  | VObj props => Ok (default VUndefined (own_property props key))
  | VArr items =>
      Ok (if bool_decide (key = str "length")
          then VNum (Number_of_nat (List.length items)) else VUndefined)
  | VStr s =>
      Ok (if bool_decide (key = str "length")
          then VNum (Number_of_nat (List.length s)) else VUndefined)
  | VBool _ | VNum _ => Ok VUndefined
  end.

(** [v.reduce(f, init)]: only an array has a callable [reduce]. *)
Definition reduce (v : JSValue)
    (f : JSValue -> JSValue -> Result JSValue) (init : JSValue)
  : Result JSValue :=
  match v with
  | VArr items =>
      fold_left (fun acc item => rbind acc (fun sum => f sum item))
                items (Ok init)
  | _ => Throw TypeError
  end.

(** *** [JSON.parse]

    The JSON grammar (ECMA-404) read in one pass over the code units: a
    lexer state [Lex] and a stack of open containers [Frame].  Recursion is
    on the text, so parsing is total; [None] is a thrown [SyntaxError]. *)

Inductive Token :=
| TLBracket | TRBracket | TLBrace | TRBrace | TComma | TColon
| TString (s : jsstring)
| TAtom (v : JSValue).

Inductive Frame :=
| InArray (acc : list JSValue)
| InObject (acc : list (jsstring * JSValue)) (key : option jsstring).

Inductive Expect :=
| EValue          (* a value must start *)
| EValueOrEnd     (* after an opening bracket: a value or the closing one *)
| EKeyOrEnd       (* after an opening brace: a key or the closing one *)
| EKey            (* after a comma in an object *)
| EColon
| ECommaOrEnd     (* after a member of the innermost container *)
| EEnd (v : JSValue).  (* the text's value is complete *)

Definition Parser := (Expect * list Frame)%type.

(** A value is complete: store it in the innermost container. *)
Definition complete (v : JSValue) (stack : list Frame) : option Parser :=
  match stack with
  | [] => Some (EEnd v, [])
  | InArray acc :: st => Some (ECommaOrEnd, InArray (v :: acc) :: st)
  | InObject acc (Some k) :: st =>
      Some (ECommaOrEnd, InObject ((k, v) :: acc) None :: st)
  | InObject _ None :: _ => None
  end.

Definition feed (t : Token) (p : Parser) : option Parser :=
  let '(e, stack) := p in
  match e, t with
  | (EValue | EValueOrEnd), TAtom v => complete v stack
  | (EValue | EValueOrEnd), TString s => complete (VStr s) stack
  | (EValue | EValueOrEnd), TLBracket => Some (EValueOrEnd, InArray [] :: stack)
  | (EValue | EValueOrEnd), TLBrace => Some (EKeyOrEnd, InObject [] None :: stack)
  | EValueOrEnd, TRBracket =>
      match stack with
      | InArray acc :: st => complete (VArr (rev acc)) st
      | _ => None
      end
  | (EKeyOrEnd | EKey), TString k =>
      match stack with
      | InObject acc None :: st => Some (EColon, InObject acc (Some k) :: st)
      | _ => None
      end
  | EKeyOrEnd, TRBrace =>
      match stack with
      | InObject acc None :: st => complete (VObj (rev acc)) st
      | _ => None
      end
  | EColon, TColon => Some (EValue, stack)
  | ECommaOrEnd, TComma =>
      match stack with
      | InArray _ :: _ => Some (EValue, stack)
      | InObject _ None :: _ => Some (EKey, stack)
      | _ => None
      end
  | ECommaOrEnd, TRBracket =>
      match stack with
      | InArray acc :: st => complete (VArr (rev acc)) st
      | _ => None
      end
  | ECommaOrEnd, TRBrace =>
      match stack with
      | InObject acc None :: st => complete (VObj (rev acc)) st
      | _ => None
      end
  | _, _ => None
  end.

Inductive NumPhase :=
| PMinus | PZero | PInt | PDot | PFrac | PE | PESign | PExp.

Inductive Lex :=
| LIdle
| LString (acc : jsstring)                       (* reversed *)
| LEscape (acc : jsstring)
| LHex (acc : jsstring) (todo : nat) (code : N)
| LLiteral (rest : jsstring) (v : JSValue)
| LNumber (ph : NumPhase) (neg : bool) (m scale : Z) (eneg : bool) (e : Z).

Definition is_digit (c : N) : bool := ((48 <=? c) && (c <=? 57))%N.
Definition digit_value (c : N) : Z := Z.of_N (c - 48).

Definition hex_value (c : N) : option N :=
  if ((48 <=? c) && (c <=? 57))%N then Some (c - 48)%N
  else if ((65 <=? c) && (c <=? 70))%N then Some (c - 55)%N
  else if ((97 <=? c) && (c <=? 102))%N then Some (c - 87)%N
  else None.

Definition number_value (neg : bool) (m scale : Z) (eneg : bool) (e : Z)
  : JSValue :=
  let x := Number_of_decimal m ((if eneg then - e else e) - scale) in
  VNum (if neg then PrimFloat.opp x else x).

(** The number being read, if its text so far is a complete number. *)
Definition number_token (l : Lex) : option Token :=
  match l with
  | LNumber (PZero | PInt | PFrac | PExp) neg m scale eneg e =>
      Some (TAtom (number_value neg m scale eneg e))
  | _ => None
  end.

(** A code unit read between tokens. *)
Definition idle (c : N) (p : Parser) : option (Lex * Parser) :=
  let punct t := option_map (pair LIdle) (feed t p) in
  match c with
  | 9 | 10 | 13 | 32 => Some (LIdle, p)
  | 91 => punct TLBracket
  | 93 => punct TRBracket
  | 123 => punct TLBrace
  | 125 => punct TRBrace
  | 44 => punct TComma
  | 58 => punct TColon
  | 34 => Some (LString [], p)
  | 45 => Some (LNumber PMinus true 0 0 false 0, p)
  | 48 => Some (LNumber PZero false 0 0 false 0, p)
  | 116 => Some (LLiteral (str "rue") (VBool true), p)
  | 102 => Some (LLiteral (str "alse") (VBool false), p)
  | 110 => Some (LLiteral (str "ull") VNull, p)
  | _ => if is_digit c
         then Some (LNumber PInt false (digit_value c) 0 false 0, p)
         else None
  end%N.

(** The next state of a number on [c], when [c] continues it. *)
Definition number_step (c : N) (ph : NumPhase) (neg : bool) (m scale : Z)
    (eneg : bool) (e : Z) : option Lex :=
  let d := digit_value c in
  let exponent := (c =? 101)%N || (c =? 69)%N in
  match ph with
  | PMinus =>
      if (c =? 48)%N then Some (LNumber PZero neg 0 0 false 0)
      else if is_digit c then Some (LNumber PInt neg d 0 false 0)
      else None
  | PZero =>
      if (c =? 46)%N then Some (LNumber PDot neg m scale eneg e)
      else if exponent then Some (LNumber PE neg m scale eneg e)
      else None
  | PInt =>
      if is_digit c then Some (LNumber PInt neg (10 * m + d) 0 false 0)
      else if (c =? 46)%N then Some (LNumber PDot neg m scale eneg e)
      else if exponent then Some (LNumber PE neg m scale eneg e)
      else None
  | PDot =>
      if is_digit c then Some (LNumber PFrac neg (10 * m + d) (scale + 1) false 0)
      else None
  | PFrac =>
      if is_digit c then Some (LNumber PFrac neg (10 * m + d) (scale + 1) false 0)
      else if exponent then Some (LNumber PE neg m scale eneg e)
      else None
  | PE =>
      if (c =? 43)%N then Some (LNumber PESign neg m scale false 0)
      else if (c =? 45)%N then Some (LNumber PESign neg m scale true 0)
      else if is_digit c then Some (LNumber PExp neg m scale false d)
      else None
  | PESign =>
      if is_digit c then Some (LNumber PExp neg m scale eneg d) else None
  | PExp =>
      if is_digit c then Some (LNumber PExp neg m scale eneg (10 * e + d))
      else None
  end.

Definition escape (c : N) : option N :=
  match c with
  | 34 => Some 34 | 92 => Some 92 | 47 => Some 47
  | 98 => Some 8 | 102 => Some 12 | 110 => Some 10
  | 114 => Some 13 | 116 => Some 9
  | _ => None
  end%N.

Definition lex_step (c : N) (l : Lex) (p : Parser) : option (Lex * Parser) :=
  match l with
  | LIdle => idle c p
  | LString acc =>
      if (c =? 34)%N then option_map (pair LIdle) (feed (TString (rev acc)) p)
      else if (c =? 92)%N then Some (LEscape acc, p)
      else if (c <? 32)%N then None
      else Some (LString (c :: acc), p)
  | LEscape acc =>
      if (c =? 117)%N then Some (LHex acc 4 0%N, p)
      else option_map (fun u => (LString (u :: acc), p)) (escape c)
  | LHex acc todo code =>
      match hex_value c with
      | Some h =>
          let code' := (16 * code + h)%N in
          match todo with
          | 1%nat => Some (LString (code' :: acc), p)
          | _ => Some (LHex acc (Nat.pred todo) code', p)
          end
      | None => None
      end
  | LLiteral rest v =>
      match rest with
      | [x] => if (c =? x)%N then option_map (pair LIdle) (feed (TAtom v) p)
               else None
      | x :: rest' => if (c =? x)%N then Some (LLiteral rest' v, p) else None
      | [] => None
      end
  | LNumber ph neg m scale eneg e =>
      match number_step c ph neg m scale eneg e with
      | Some l' => Some (l', p)
      | None =>
          match number_token l with
          | Some t => match feed t p with
                      | Some p' => idle c p'
                      | None => None
                      end
          | None => None
          end
      end
  end.

Fixpoint parse_from (text : jsstring) (l : Lex) (p : Parser)
  : option JSValue :=
  match text with
  | c :: rest =>
      match lex_step c l p with
      | Some (l', p') => parse_from rest l' p'
      | None => None
      end
  | [] =>
      let final :=
        match l with
        | LIdle => Some p
        | LNumber _ _ _ _ _ _ =>
            match number_token l with
            | Some t => feed t p
            | None => None
            end
        | _ => None
        end in
      match final with
      | Some (EEnd v, []) => Some v
      | _ => None
      end
  end.

Definition JSON_parse (text : jsstring) : Result JSValue :=
  match parse_from text LIdle (EValue, []) with
  | Some v => Ok v
  | None => Throw SyntaxError
  end.

(** *** Integer-valued Numbers

    Slide indexes, collection lengths and millisecond time stamps are
    integers far below [2^53], where Number arithmetic is exact; they are
    kept as [Z].  The one non-integer a slide index can become is [NaN],
    the remainder of a division by zero.  The operations below are those of
    the script as long as their arguments and results are safe integers
    (of absolute value at most [2^53 - 1]); statements about arbitrary
    arguments carry that bound. *)

Inductive IntNumber :=
| Int (z : Z)
| NaN.

Definition int_add (i : IntNumber) (n : Z) : IntNumber :=
  match i with
  | Int z => Int (z + n)
  | NaN => NaN
  end.

Definition int_mul (i : IntNumber) (n : Z) : IntNumber :=
  match i with
  | Int z => Int (z * n)
  | NaN => NaN
  end.

(** [i % n]: the remainder takes the sign of the dividend. *)
Definition int_rem (i : IntNumber) (n : Z) : IntNumber :=
  match i with
  | Int z => if n =? 0 then NaN else Int (Z.rem z n)
  | NaN => NaN
  end.

Definition int_toString (i : IntNumber) : jsstring :=
  match i with
  | Int z => Z_toString z
  | NaN => str "NaN"
  end.

(** [idx === i] for an array position [idx]. *)
Definition int_eqb (idx : nat) (i : IntNumber) : bool :=
  match i with
  | Int z => Z.of_nat idx =? z
  | NaN => false
  end.

(** *** String methods *)

(** The code units [String.prototype.trim] removes: white space and line
    terminators. *)
Definition is_space (c : N) : bool :=
  bool_decide (c ∈ [9; 10; 11; 12; 13; 32; 160; 5760; 8232; 8233; 8239;
                    8287; 12288; 65279]%N)
  || ((8192 <=? c) && (c <=? 8202))%N.

Fixpoint trimStart (s : jsstring) : jsstring :=
  match s with
  | c :: rest => if is_space c then trimStart rest else s
  | [] => []
  end.

Definition trim (s : jsstring) : jsstring :=
  rev (trimStart (rev (trimStart s))).

(** [s.split(sep)] for a separator of one code unit. *)
Fixpoint split_from (sep : N) (s : jsstring) (word : jsstring)
  : list jsstring :=
  match s with
  | [] => [rev word]
  | c :: rest =>
      if (c =? sep)%N then rev word :: split_from sep rest []
      else split_from sep rest (c :: word)
  end.

Definition split (sep : N) (s : jsstring) : list jsstring :=
  split_from sep s [].

(** [s.padStart(2, "0")]. *)
Definition padStart2 (s : jsstring) : jsstring :=
  repeat 48%N (2 - List.length s) ++ s.

(** *** Arithmetic of the countdown

    [remaining / d], [x % m] and [Math.floor] on exact rationals: the
    operands are integers of milliseconds and small constants. *)

Definition Qtrunc (x : Q) : Z := Z.quot (Qnum x) (Z.pos (Qden x)).

Definition Qrem (x m : Q) : Q :=
  (x - m * inject_Z (Qtrunc (x / m)))%Q.

End JS.

(** ** The document *)

Module DOM.
Import JS.

(** Nodes live in a flat store and are named by their position in it; the
    store lists the initial elements in document order, node [0] being the
    root ([document.documentElement]).  An element created by the script is
    appended to the store and is in the document once a connected node is
    its ancestor.  [textContent] holds the element's own rendered text. *)
Abbreviation NodeId := nat.

Record Element := mkElement {
  parentNode : option NodeId;
  attributes : gmap string jsstring;
  classList : list jsstring;
  textContent : jsstring;
  style : gmap string jsstring;
}.

Definition set_parentNode (p : option NodeId) (e : Element) : Element :=
  mkElement p (attributes e) (classList e) (textContent e) (style e).
Definition set_attributes (a : gmap string jsstring) (e : Element) : Element :=
  mkElement (parentNode e) a (classList e) (textContent e) (style e).
Definition set_classList (c : list jsstring) (e : Element) : Element :=
  mkElement (parentNode e) (attributes e) c (textContent e) (style e).
Definition set_textContent (t : jsstring) (e : Element) : Element :=
  mkElement (parentNode e) (attributes e) (classList e) t (style e).
Definition set_style (s : gmap string jsstring) (e : Element) : Element :=
  mkElement (parentNode e) (attributes e) (classList e) (textContent e) s.

Abbreviation Document := (list Element).

(** [document.createElement]: a fresh element, outside the tree. *)
Definition blank : Element := mkElement None ∅ [] [] ∅.

Definition createElement (doc : Document) : Document * NodeId :=
  (doc ++ [blank], List.length doc).

(** [n] is [anc] or has it among its ancestors.  A chain of parents without
    a cycle visits at most [length doc] nodes, which is the fuel given. *)
Fixpoint reaches (doc : Document) (fuel : nat) (n anc : NodeId) : bool :=
  if Nat.eqb n anc then true
  else match fuel with
       | O => false
       | S fuel' =>
           match doc !! n ≫= parentNode with
           | Some p => reaches doc fuel' p anc
           | None => false
           end
       end.

Definition isConnected (doc : Document) (n : NodeId) : bool :=
  reaches doc (List.length doc) n 0%nat.

Definition isDescendant (doc : Document) (root n : NodeId) : bool :=
  negb (Nat.eqb n root) && reaches doc (List.length doc) n root.

(** The selectors of the script: [#id], [.class] and [[name='value']]. *)
Inductive Selector :=
| ById (id : jsstring)
| ByClass (token : jsstring)
| ByAttribute (name : string) (value : jsstring).

Definition contains (token : jsstring) (e : Element) : bool :=
  bool_decide (token ∈ classList e).

Definition matches (sel : Selector) (e : Element) : bool :=
  match sel with
  | ById id => bool_decide (attributes e !! "id"%string = Some id)
  | ByClass token => contains token e
  | ByAttribute name value => bool_decide (attributes e !! name = Some value)
  end.

Definition selects (doc : Document) (sel : Selector) (n : NodeId) : bool :=
  match doc !! n with
  | Some e => matches sel e
  | None => false
  end.

Definition nodes (doc : Document) : list NodeId :=
  seq 0 (List.length doc).

Definition querySelectorAll (doc : Document) (sel : Selector) : list NodeId :=
  List.filter (fun n => isConnected doc n && selects doc sel n) (nodes doc).

Definition querySelector (doc : Document) (sel : Selector) : option NodeId :=
  head (querySelectorAll doc sel).

(** [root.querySelectorAll(sel)]: the matching descendants of [root]. *)
Definition querySelectorAllIn (doc : Document) (root : NodeId)
    (sel : Selector) : list NodeId :=
  List.filter (fun n => isDescendant doc root n && selects doc sel n)
              (nodes doc).

(** [n.children]. *)
Definition children (doc : Document) (n : NodeId) : list NodeId :=
  List.filter
    (fun c => bool_decide (doc !! c ≫= parentNode = Some n)) (nodes doc).

Definition modifyNode (n : NodeId) (f : Element -> Element) (doc : Document)
  : Document :=
  alter f n doc.

(** [DOMTokenList]: [add], [remove] and [toggle(token, force)]. *)
Definition classList_add (token : jsstring) (e : Element) : Element :=
  if contains token e then e else set_classList (classList e ++ [token]) e.

Definition classList_remove (token : jsstring) (e : Element) : Element :=
  set_classList
    (List.filter (fun t => negb (bool_decide (t = token))) (classList e)) e.

Definition classList_toggle (token : jsstring) (force : bool) (e : Element)
  : Element :=
  if force then classList_add token e else classList_remove token e.

Definition getAttribute (name : string) (e : Element) : option jsstring :=
  attributes e !! name.

Definition setAttribute (name : string) (value : jsstring) (e : Element)
  : Element :=
  set_attributes (<[name := value]> (attributes e)) e.

(** [e.style[property] = value], for a value that is valid CSS (the
    script writes translations by a number of pixels or percent). *)
Definition setStyle (property : string) (value : jsstring) (e : Element)
  : Element :=
  set_style (<[property := value]> (style e)) e.

(** Removing the children of [n] (the [textContent] and [innerHTML] setters
    do so before they install the new content). *)
Definition removeChildren (n : NodeId) (doc : Document) : Document :=
  map (fun e => if bool_decide (parentNode e = Some n)
                then set_parentNode None e else e) doc.

Definition setTextContent (n : NodeId) (text : jsstring) (doc : Document)
  : Document :=
  modifyNode n (set_textContent text) (removeChildren n doc).

Definition appendChild (parent child : NodeId) (doc : Document) : Document :=
  modifyNode child (set_parentNode (Some parent)) doc.

End DOM.

(** ** The script *)

Module App.
Import JS DOM.

(** [const state = { testimonialIndex: 0, testimonialTimer: null,
    countdownTarget: null }].  A date is its time value in milliseconds. *)
Record State := mkState {
  testimonialIndex : IntNumber;
  testimonialTimer : option nat;
  countdownTarget : option Z;
}.

(** What the closures of [initTestimonials] capture. *)
Record Carousel := mkCarousel {
  track : NodeId;
  dots : NodeId;
  slides : list NodeId;
}.

(** The function values the script hands to the browser, each with the
    variables it closes over. *)
Inductive Callback :=
| ThemeClick (toggle : NodeId)
| HeadlineFrame (span : NodeId)
| ParallaxScroll (heroBg : NodeId)
| RevealObserver
| TabClick (tabs panels : list NodeId) (tab : NodeId)
| Tick
| DotClick (c : Carousel) (index : nat)
| PrevClick (c : Carousel)
| Next (c : Carousel)
| BackToTopScroll (button : NodeId)
| BackToTopClick
| ArrivalTimeout (arrivals : NodeId).

(** The page: the document, [localStorage], the viewport and media state,
    the system clock (the [k]-th reading of a run is [clock k]), the
    script's [state], and the callbacks registered with the browser. *)
Record World := mkWorld {
  document : Document;
  localStorage : gmap string jsstring;
  prefersDark : bool;
  scrollY : Number;
  clock : nat -> Z;
  reads : nat;
  state : State;
  clickListeners : list (NodeId * Callback);
  scrollListeners : list Callback;
  observers : list (Callback * list NodeId);
  intervals : list (Callback * Z);
  timeouts : list (Callback * Z);
  animationFrames : list Callback;
}.

Definition set_document (d : Document) (w : World) : World :=
  mkWorld d (localStorage w) (prefersDark w) (scrollY w) (clock w) (reads w)
    (state w) (clickListeners w) (scrollListeners w) (observers w)
    (intervals w) (timeouts w) (animationFrames w).
Definition set_localStorage (s : gmap string jsstring) (w : World) : World :=
  mkWorld (document w) s (prefersDark w) (scrollY w) (clock w) (reads w)
    (state w) (clickListeners w) (scrollListeners w) (observers w)
    (intervals w) (timeouts w) (animationFrames w).
Definition set_scrollY (y : Number) (w : World) : World :=
  mkWorld (document w) (localStorage w) (prefersDark w) y (clock w) (reads w)
    (state w) (clickListeners w) (scrollListeners w) (observers w)
    (intervals w) (timeouts w) (animationFrames w).
Definition set_reads (r : nat) (w : World) : World :=
  mkWorld (document w) (localStorage w) (prefersDark w) (scrollY w) (clock w)
    r (state w) (clickListeners w) (scrollListeners w) (observers w)
    (intervals w) (timeouts w) (animationFrames w).
Definition set_state (s : State) (w : World) : World :=
  mkWorld (document w) (localStorage w) (prefersDark w) (scrollY w) (clock w)
    (reads w) s (clickListeners w) (scrollListeners w) (observers w)
    (intervals w) (timeouts w) (animationFrames w).
Definition set_clickListeners (l : list (NodeId * Callback)) (w : World)
  : World :=
  mkWorld (document w) (localStorage w) (prefersDark w) (scrollY w) (clock w)
    (reads w) (state w) l (scrollListeners w) (observers w)
    (intervals w) (timeouts w) (animationFrames w).
Definition set_scrollListeners (l : list Callback) (w : World) : World :=
  mkWorld (document w) (localStorage w) (prefersDark w) (scrollY w) (clock w)
    (reads w) (state w) (clickListeners w) l (observers w)
    (intervals w) (timeouts w) (animationFrames w).
Definition set_observers (l : list (Callback * list NodeId)) (w : World)
  : World :=
  mkWorld (document w) (localStorage w) (prefersDark w) (scrollY w) (clock w)
    (reads w) (state w) (clickListeners w) (scrollListeners w) l
    (intervals w) (timeouts w) (animationFrames w).
Definition set_intervals (l : list (Callback * Z)) (w : World) : World :=
  mkWorld (document w) (localStorage w) (prefersDark w) (scrollY w) (clock w)
    (reads w) (state w) (clickListeners w) (scrollListeners w) (observers w)
    l (timeouts w) (animationFrames w).
Definition set_timeouts (l : list (Callback * Z)) (w : World) : World :=
  mkWorld (document w) (localStorage w) (prefersDark w) (scrollY w) (clock w)
    (reads w) (state w) (clickListeners w) (scrollListeners w) (observers w)
    (intervals w) l (animationFrames w).
Definition set_animationFrames (l : list Callback) (w : World) : World :=
  mkWorld (document w) (localStorage w) (prefersDark w) (scrollY w) (clock w)
    (reads w) (state w) (clickListeners w) (scrollListeners w) (observers w)
    (intervals w) (timeouts w) l.

(** The page as the browser hands it to the script. *)
Definition load (doc : Document) (storage : gmap string jsstring)
    (dark : bool) (time : nat -> Z) : World :=
  mkWorld doc storage dark zero time 0 (mkState (Int 0) None None)
    [] [] [] [] [] [].

(** *** Statements: state passing with exceptions *)

Definition M (A : Type) := World -> World * Result A.

Definition ret {A} (a : A) : M A := fun w => (w, Ok a).

Definition throw {A} (e : Error) : M A := fun w => (w, Throw e).

Definition bind {A B} (m : M A) (k : A -> M B) : M B :=
  fun w =>
    match m w with
    | (w', Ok a) => k a w'
    | (w', Throw e) => (w', Throw e)
    end.

Notation "'let*' x ':=' m 'in' k" := (bind m (fun x => k))
  (at level 10, x name, m at level 100, k at level 200).
Notation "m ';;' k" := (bind m (fun _ => k))
  (at level 100, k at level 200, right associativity).

(** [try { m } catch (error) { handler }]. *)
Definition try_catch {A} (m : M A) (handler : Error -> M A) : M A :=
  fun w =>
    match m w with
    | (w', Throw e) => handler e w'
    | r => r
    end.

Definition lift {A} (r : Result A) : M A := fun w => (w, r).

Definition gets {A} (f : World -> A) : M A := fun w => (w, Ok (f w)).

Definition modify (f : World -> World) : M unit := fun w => (f w, Ok tt).

(** [if (x) ...] and [x?. ...] on an element that may be [null]. *)
Definition when_found (x : option NodeId) (k : NodeId -> M unit) : M unit :=
  match x with
  | Some n => k n
  | None => ret tt
  end.

(** [list.forEach((x, index) => ...)], [index] counting from [i]. *)
Fixpoint forEach_from {A} (i : nat) (l : list A) (f : A -> nat -> M unit)
  : M unit :=
  match l with
  | [] => ret tt
  | x :: rest => f x i ;; forEach_from (S i) rest f
  end.

Definition forEach {A} (l : list A) (f : A -> nat -> M unit) : M unit :=
  forEach_from 0 l f.

(** *** The browser interface *)

Definition document_querySelector (sel : Selector) : M (option NodeId) :=
  gets (fun w => querySelector (document w) sel).

Definition document_querySelectorAll (sel : Selector) : M (list NodeId) :=
  gets (fun w => querySelectorAll (document w) sel).

(** [document.documentElement]; using it throws when there is no root. *)
Definition documentElement : M NodeId :=
  let* doc := gets document in
  match doc with
  | [] => throw TypeError
  | _ => ret 0%nat
  end.

Definition element (n : NodeId) : M Element :=
  let* found := gets (fun w => document w !! n) in
  match found with
  | Some e => ret e
  | None => throw TypeError
  end.

Definition mutate (n : NodeId) (f : Element -> Element) : M unit :=
  modify (fun w => set_document (modifyNode n f (document w)) w).

Definition new_element : M NodeId :=
  fun w => (set_document (fst (createElement (document w))) w,
            Ok (snd (createElement (document w)))).

(** [n.textContent = text] for a string. *)
Definition write_text (n : NodeId) (text : jsstring) : M unit :=
  modify (fun w => set_document (setTextContent n text (document w)) w).

(** [n.textContent = v] for any value: [undefined] and [null] clear the
    text, every other value is converted with [ToString]. *)
Definition write_value (n : NodeId) (v : JSValue) : M unit :=
  match v with
  | VUndefined | VNull => write_text n []
  | _ => let* s := lift (ToString v) in write_text n s
  end.

(** [localStorage.getItem] and [setItem]; storage is taken to be available
    and not full, so neither throws. *)
Definition getItem (key : string) : M (option jsstring) :=
  gets (fun w => localStorage w !! key).

Definition setItem (key : string) (value : jsstring) : M unit :=
  modify (fun w => set_localStorage (<[key := value]> (localStorage w)) w).

(** [new Date()] and [Date.now()]: the next reading of the clock, in
    milliseconds.  Times are kept as integers; this is the script's Date
    arithmetic as long as every time computed is the time value of a Date
    (at most 8.64e15 ms from 1970 either way). *)
Definition now : M Z :=
  let* t := gets (fun w => clock w (reads w)) in
  modify (fun w => set_reads (S (reads w)) w) ;;
  ret t.

Definition addClickListener (n : NodeId) (cb : Callback) : M unit :=
  modify (fun w => set_clickListeners (clickListeners w ++ [(n, cb)]) w).

Definition addScrollListener (cb : Callback) : M unit :=
  modify (fun w => set_scrollListeners (scrollListeners w ++ [cb]) w).

Definition observe (cb : Callback) (targets : list NodeId) : M unit :=
  modify (fun w => set_observers (observers w ++ [(cb, targets)]) w).

(** [setInterval(cb, delay)]; the handle is the timer's place in the list. *)
Definition setInterval (cb : Callback) (delay : Z) : M nat :=
  let* handle := gets (fun w => List.length (intervals w)) in
  modify (fun w => set_intervals (intervals w ++ [(cb, delay)]) w) ;;
  ret handle.

Definition setTimeout (cb : Callback) (delay : Z) : M unit :=
  modify (fun w => set_timeouts (timeouts w ++ [(cb, delay)]) w).

Definition requestAnimationFrame (cb : Callback) : M unit :=
  modify (fun w => set_animationFrames (animationFrames w ++ [cb]) w).

(** *** [main.js] *)

(** [loadStorage(key, fallback)]: safely parse JSON from localStorage. *)
Definition loadStorage (key : string) (fallback : JSValue) : M JSValue :=
  try_catch
    (let* value := getItem key in
     match value with
     | Some (c :: text) => lift (JSON_parse (c :: text))
     | Some [] | None => ret fallback
     end)
    (fun error => ret fallback).

(** [pad(value)]: format a number with leading zero.  The values padded
    are integers; [String] prints a safe integer in plain decimal digits. *)
Definition pad (value : Z) : jsstring := padStart2 (Z_toString value).

(** The callback of [cart.reduce]: [(sum, item) => sum + (item.qty || 1)]. *)
Definition addQuantity (sum item : JSValue) : Result JSValue :=
  rbind (Get item (str "qty")) (fun qty =>
  add sum (if ToBoolean qty then qty else VNum one)).

(** [syncBadges()]: update cart and wishlist badges. *)
Definition syncBadges : M unit :=
  let* cart := loadStorage "veloura-cart" (VArr []) in
  let* wishlist := loadStorage "veloura-wishlist" (VArr []) in
  let* cartCount := lift (reduce cart addQuantity (VNum zero)) in
  let* wishlistCount := lift (Get wishlist (str "length")) in
  let* cartBadge := document_querySelector (ById (str "cart-count")) in
  let* wishlistBadge := document_querySelector (ById (str "wishlist-count")) in
  when_found cartBadge (fun badge => write_value badge cartCount) ;;
  when_found wishlistBadge (fun badge => write_value badge wishlistCount).

Definition themeLabel (theme : jsstring) : jsstring :=
  if bool_decide (theme = str "dark") then str "Light" else str "Dark".

(** The click listener of the theme toggle. *)
Definition themeClick (toggle : NodeId) : M unit :=
  let* root := documentElement in
  let* rootElement := element root in
  let current := getAttribute "data-theme" rootElement in
  let next := if bool_decide (current = Some (str "dark"))
              then str "light" else str "dark" in
  mutate root (setAttribute "data-theme" next) ;;
  setItem "veloura-theme" next ;;
  write_text toggle (themeLabel next).

(** [initTheme()]: apply the theme preference. *)
Definition initTheme : M unit :=
  let* toggle := document_querySelector (ById (str "theme-toggle")) in
  let* stored := getItem "veloura-theme" in
  let* dark := gets prefersDark in
  let system := if dark then str "dark" else str "light" in
  let theme := match stored with
               | Some (c :: text) => c :: text
               | Some [] | None => system
               end in
  let* root := documentElement in
  mutate root (setAttribute "data-theme" theme) ;;
  when_found toggle (fun t => write_text t (themeLabel theme)) ;;
  when_found toggle (fun t => addClickListener t (ThemeClick t)).

(** The animation-frame callback of one headline word. *)
Definition headlineFrame (span : NodeId) : M unit :=
  mutate span (setStyle "opacity" (str "1")) ;;
  mutate span (setStyle "transform" (str "translateY(0)")).

(** [initHeadlineSplit()]: animate hero headline words. *)
Definition initHeadlineSplit : M unit :=
  let* title := document_querySelector (ByAttribute "data-split" (str "words")) in
  match title with
  | None => ret tt
  | Some title =>
      let* titleElement := element title in
      let words := split 32 (trim (textContent titleElement)) in
      write_text title [] ;;
      forEach words (fun word index =>
        let* span := new_element in
        let delay := Z_toString (Z.of_nat index * 80) in
        write_text span (word ++ str " ") ;;
        mutate span (setStyle "display" (str "inline-block")) ;;
        mutate span (setStyle "opacity" (str "0")) ;;
        mutate span (setStyle "transform" (str "translateY(12px)")) ;;
        mutate span (setStyle "transition"
          (str "opacity 500ms ease " ++ delay ++ str "ms, transform 500ms ease "
           ++ delay ++ str "ms")) ;;
        modify (fun w => set_document (appendChild title span (document w)) w) ;;
        requestAnimationFrame (HeadlineFrame span))
  end.

(** The scroll listener of the parallax: [window.scrollY * 0.2]. *)
Definition parallaxScroll (heroBg : NodeId) : M unit :=
  let* y := gets scrollY in
  let offset := PrimFloat.mul y 0x1.999999999999ap-3%float in
  mutate heroBg (setStyle "transform"
    (str "translate3d(0, " ++ Number_toString offset ++ str "px, 0)")).

(** [initParallax()]: scroll-based parallax effect for hero background. *)
Definition initParallax : M unit :=
  let* heroBg := document_querySelector (ByClass (str "hero-bg")) in
  match heroBg with
  | None => ret tt
  | Some heroBg => addScrollListener (ParallaxScroll heroBg)
  end.

(** The callback of the intersection observer. *)
Definition revealEntries (entries : list (NodeId * bool)) : M unit :=
  forEach entries (fun entry _ =>
    let '(target, isIntersecting) := entry in
    if isIntersecting
    then mutate target (classList_add (str "is-visible"))
    else ret tt).

(** [initReveal()]: reveal elements on scroll. *)
Definition initReveal : M unit :=
  let* items := document_querySelectorAll (ByClass (str "reveal")) in
  match items with
  | [] => ret tt
  | _ => observe RevealObserver items
  end.

(** The click listener of one tab. *)
Definition tabClick (tabs panels : list NodeId) (tab : NodeId) : M unit :=
  let* tabElement := element tab in
  let target := getAttribute "data-tab" tabElement in
  forEach tabs (fun btn _ =>
    mutate btn (classList_toggle (str "is-active") (Nat.eqb btn tab))) ;;
  forEach panels (fun panel _ =>
    let* panelElement := element panel in
    mutate panel (classList_toggle (str "is-active")
      (bool_decide (getAttribute "data-panel" panelElement = target)))).

(** [initTabs()]: initialize tabs in trending section. *)
Definition initTabs : M unit :=
  let* tabs := document_querySelectorAll (ByClass (str "tab")) in
  let* panels := document_querySelectorAll (ByClass (str "tab-panel")) in
  match tabs with
  | [] => ret tt
  | _ => forEach tabs (fun tab _ =>
           addClickListener tab (TabClick tabs panels tab))
  end.

Definition threeDays : Z := 3 * 24 * 60 * 60 * 1000.

(** [document.querySelector(sel).textContent = text]. *)
Definition write_selected (sel : Selector) (text : jsstring) : M unit :=
  let* found := document_querySelector sel in
  match found with
  | Some n => write_text n text
  | None => throw TypeError
  end.

(** The four displayed components of [remaining] milliseconds. *)
Definition daysOf (remaining : Z) : Z :=
  Qfloor (inject_Z remaining / inject_Z (1000 * 60 * 60 * 24)).
Definition hoursOf (remaining : Z) : Z :=
  Qfloor (Qrem (inject_Z remaining / inject_Z (1000 * 60 * 60)) (inject_Z 24)).
Definition minutesOf (remaining : Z) : Z :=
  Qfloor (Qrem (inject_Z remaining / inject_Z (1000 * 60)) (inject_Z 60)).
Definition secondsOf (remaining : Z) : Z :=
  Qfloor (Qrem (inject_Z remaining / inject_Z 1000) (inject_Z 60)).

(** [tick()], the countdown's interval callback.  A [null] target counts as
    time [0] in the subtraction. *)
Definition tick : M unit :=
  let* target := gets (fun w => countdownTarget (state w)) in
  let* t := now in
  let diff := default 0 target - t in
  (if diff <=? 0
   then let* t := now in
        modify (fun w => set_state
          (mkState (testimonialIndex (state w)) (testimonialTimer (state w))
                   (Some (t + threeDays))) w)
   else ret tt) ;;
  let* target := gets (fun w => countdownTarget (state w)) in
  let* t := now in
  let remaining := default 0 target - t in
  let days := daysOf remaining in
  let hours := hoursOf remaining in
  let minutes := minutesOf remaining in
  let seconds := secondsOf remaining in
  write_selected (ById (str "days")) (pad days) ;;
  write_selected (ById (str "hours")) (pad hours) ;;
  write_selected (ById (str "minutes")) (pad minutes) ;;
  write_selected (ById (str "seconds")) (pad seconds).

(** [initCountdown()]: initialize promo countdown. *)
Definition initCountdown : M unit :=
  let* daysEl := document_querySelector (ById (str "days")) in
  match daysEl with
  | None => ret tt
  | Some _ =>
      let* t := now in
      modify (fun w => set_state
        (mkState (testimonialIndex (state w)) (testimonialTimer (state w))
                 (Some (t + threeDays))) w) ;;
      tick ;;
      let* _ := setInterval Tick 1000 in
      ret tt
  end.

(** [update()] of the carousel. *)
Definition update (c : Carousel) : M unit :=
  let* index := gets (fun w => testimonialIndex (state w)) in
  mutate (track c) (setStyle "transform"
    (str "translateX(-" ++ int_toString (int_mul index 100) ++ str "%)")) ;;
  let* buttons := gets (fun w =>
    querySelectorAllIn (document w) (dots c) (ByClass (str "dot"))) in
  forEach buttons (fun dot idx =>
    let* index := gets (fun w => testimonialIndex (state w)) in
    mutate dot (classList_toggle (str "is-active") (int_eqb idx index))).

(** [goToSlide(index)]. *)
Definition goToSlide (c : Carousel) (index : IntNumber) : M unit :=
  let n := Z.of_nat (List.length (slides c)) in
  modify (fun w => set_state
    (mkState (int_rem (int_add index n) n) (testimonialTimer (state w))
             (countdownTarget (state w))) w) ;;
  update c.

(** [next()]: also the autoplay interval's callback. *)
Definition next (c : Carousel) : M unit :=
  let* index := gets (fun w => testimonialIndex (state w)) in
  goToSlide c (int_add index 1).

(** The click listener of the previous-slide control. *)
Definition prevClick (c : Carousel) : M unit :=
  let* index := gets (fun w => testimonialIndex (state w)) in
  goToSlide c (int_add index (-1)).

(** [initTestimonials()]: initialize testimonial slider with autoplay. *)
Definition initTestimonials : M unit :=
  let* track := document_querySelector (ById (str "testimonial-track")) in
  let* dots := document_querySelector (ById (str "testimonial-dots")) in
  match track, dots with
  | Some track, Some dots =>
      let* slides := gets (fun w => children (document w) track) in
      let c := mkCarousel track dots slides in
      write_text dots [] ;;
      forEach slides (fun _ index =>
        let* dot := new_element in
        mutate dot (set_classList [str "dot"]) ;;
        mutate dot (setAttribute "aria-label"
          (str "Go to testimonial " ++ Z_toString (Z.of_nat index + 1))) ;;
        addClickListener dot (DotClick c index) ;;
        modify (fun w => set_document (appendChild dots dot (document w)) w)) ;;
      let* prev := document_querySelector (ById (str "prev-testimonial")) in
      when_found prev (fun b => addClickListener b (PrevClick c)) ;;
      let* nextButton := document_querySelector (ById (str "next-testimonial")) in
      when_found nextButton (fun b => addClickListener b (Next c)) ;;
      let* timer := setInterval (Next c) 5000 in
      modify (fun w => set_state
        (mkState (testimonialIndex (state w)) (Some timer)
                 (countdownTarget (state w))) w) ;;
      update c
  | _, _ => ret tt
  end.

(** The scroll listener of the back-to-top button. *)
Definition backToTopScroll (button : NodeId) : M unit :=
  let* y := gets scrollY in
  mutate button (classList_toggle (str "is-visible")
                   (PrimFloat.ltb 400%float y)).

(** The click listener of the back-to-top button: [window.scrollTo] asks the
    browser to scroll; the scrolling arrives as later scroll events. *)
Definition backToTopClick : M unit := ret tt.

(** [initBackToTop()]: back to top button. *)
Definition initBackToTop : M unit :=
  let* button := document_querySelector (ById (str "back-to-top")) in
  match button with
  | None => ret tt
  | Some button =>
      addScrollListener (BackToTopScroll button) ;;
      addClickListener button BackToTopClick
  end.

(** The timeout callback of the arrivals skeleton. *)
Definition arrivalTimeout (arrivals : NodeId) : M unit :=
  mutate arrivals (classList_remove (str "is-loading")).

(** [initArrivalSkeleton()]: fake loading skeleton for arrivals. *)
Definition initArrivalSkeleton : M unit :=
  let* arrivals := document_querySelector (ById (str "arrival-track")) in
  match arrivals with
  | None => ret tt
  | Some arrivals => setTimeout (ArrivalTimeout arrivals) 1200
  end.

(** [init()], run on [DOMContentLoaded]. *)
Definition init : M unit :=
  syncBadges ;;
  initTheme ;;
  initHeadlineSplit ;;
  initParallax ;;
  initReveal ;;
  initTabs ;;
  initCountdown ;;
  initTestimonials ;;
  initBackToTop ;;
  initArrivalSkeleton.

(** *** The browser calling back *)

(** Calling a registered function; only the observer takes arguments. *)
Definition call (cb : Callback) (entries : list (NodeId * bool)) : M unit :=
  match cb with
  | ThemeClick toggle => themeClick toggle
  | HeadlineFrame span => headlineFrame span
  | ParallaxScroll heroBg => parallaxScroll heroBg
  | RevealObserver => revealEntries entries
  | TabClick tabs panels tab => tabClick tabs panels tab
  | Tick => tick
  | DotClick c index => goToSlide c (Int (Z.of_nat index))
  | PrevClick c => prevClick c
  | Next c => next c
  | BackToTopScroll button => backToTopScroll button
  | BackToTopClick => backToTopClick
  | ArrivalTimeout arrivals => arrivalTimeout arrivals
  end.

(** The browser runs each callback to its end; an exception that escapes
    one is reported and the next callback still runs. *)
Definition run (cb : Callback) (w : World) : World := fst (call cb [] w).

Definition dispatch (cbs : list Callback) (w : World) : World :=
  fold_left (fun w cb => run cb w) cbs w.

(** What the browser does to the page after it has loaded.  [Click target]
    is a click arriving at the listeners of [target]; a click that bubbles
    is one such event per element on its way up.  The observer reports
    entries of the targets it observes.  When and how often a timer fires
    is left to the sequence of events. *)
Inductive Event :=
| Click (target : NodeId)
| Scroll (y : Number)
| Intersect (observer : nat) (entries : list (NodeId * bool))
| IntervalFires (timer : nat)
| TimeoutFires (timer : nat)
| AnimationFrame.

Definition step (w : World) (ev : Event) : World :=
  match ev with
  | Click target =>
      dispatch
        (map snd (List.filter (fun l => Nat.eqb (fst l) target)
                              (clickListeners w))) w
  | Scroll y => dispatch (scrollListeners w) (set_scrollY y w)
  | Intersect observer entries =>
      match observers w !! observer with
      | Some (cb, targets) =>
          fst (call cb (List.filter (fun e => bool_decide (fst e ∈ targets))
                                    entries) w)
      | None => w
      end
  | IntervalFires timer =>
      match intervals w !! timer with
      | Some (cb, _) => run cb w
      | None => w
      end
  | TimeoutFires timer =>
      match timeouts w !! timer with
      | Some (cb, _) => run cb (set_timeouts (delete timer (timeouts w)) w)
      | None => w
      end
  | AnimationFrame =>
      dispatch (animationFrames w) (set_animationFrames [] w)
  end.

(** The page after [DOMContentLoaded] and then a sequence of events. *)
Definition started (w : World) : World := fst (init w).

Definition after (w : World) (events : list Event) : World :=
  fold_left step events w.

End App.

(** ** Observations and specification vocabulary *)

Module Spec.
Import JS DOM App.

(** *** What the page shows and stores *)

Definition textOf (w : World) (n : NodeId) : option jsstring :=
  textContent <$> document w !! n.

Definition hasClass (w : World) (n : NodeId) (token : jsstring) : Prop :=
  exists e, document w !! n = Some e /\ token ∈ classList e.

Definition attributeOf (w : World) (n : NodeId) (name : string)
  : option jsstring :=
  document w !! n ≫= getAttribute name.

(** The theme attribute of the document root and the stored preference. *)
Definition theme (w : World) : option jsstring :=
  attributeOf w 0%nat "data-theme".

Definition preference (w : World) : option jsstring :=
  localStorage w !! "veloura-theme"%string.

Definition index (w : World) : IntNumber := testimonialIndex (state w).

(** The reading the clock gave last. *)
Definition lastReading (w : World) : Z := clock w (Nat.pred (reads w)).

(** Every callback the browser holds for the page. *)
Definition registered (w : World) : list Callback :=
  map snd (clickListeners w) ++ scrollListeners w ++ map fst (observers w)
  ++ map fst (intervals w) ++ map fst (timeouts w) ++ animationFrames w.

Definition active : jsstring := str "is-active".

Definition visible : jsstring := str "is-visible".

(** A style property of a node, as the script set it. *)
Definition styleOf (w : World) (n : NodeId) (property : string)
  : option jsstring :=
  document w !! n ≫= fun e => style e !! property.

(** The node does not carry the class (or does not exist). *)
Definition lacksClass (n : NodeId) (token : jsstring) (w : World) : Prop :=
  ~ hasClass w n token.

(** *** The stored collections *)

(** A stored value the badge sync cannot use: the key is absent, or its
    text is not JSON. *)
Definition unusable (w : World) (key : string) : Prop :=
  match localStorage w !! key with
  | None => True
  | Some text => JSON_parse text = Throw SyntaxError
  end.

(** A stored collection: the key holds the JSON text of an array. *)
Definition stores (w : World) (key : string) (items : list JSValue) : Prop :=
  exists text, localStorage w !! key = Some text
               /\ JSON_parse text = Ok (VArr items).

(** What [loadStorage] returns; it never throws and never changes the page. *)
Definition loaded (w : World) (key : string) (fallback : JSValue) : JSValue :=
  match localStorage w !! key with
  | Some (c :: text) =>
      match JSON_parse (c :: text) with
      | Ok v => v
      | Throw _ => fallback
      end
  | Some [] | None => fallback
  end.

(** The [qty] property of an item that is an object and has one. *)
Definition quantity (item : JSValue) : option JSValue :=
  match item with
  | VObj props => own_property props (str "qty")
  | _ => None
  end.

(** A cart item of the storage layout: an object whose [qty], when present,
    is a number. *)
Definition validItem (item : JSValue) : Prop :=
  match item with
  | VObj props =>
      match own_property props (str "qty") with
      | None | Some (VNum _) => True
      | Some _ => False
      end
  | _ => False
  end.

(** The contribution of an item as the specification words it: its
    quantity, or 1 when the quantity is missing. *)
Definition statedContribution (item : JSValue) : Number :=
  match quantity item with
  | Some (VNum q) => q
  | _ => one
  end.

(** The contribution of an item as the script counts it: its quantity, or
    1 when the quantity is missing or zero (or not a number). *)
Definition contribution (item : JSValue) : Number :=
  match quantity item with
  | Some (VNum q) => if PrimFloat.eqb q zero || PrimFloat.is_nan q
                     then one else q
  | _ => one
  end.

Definition total (f : JSValue -> Number) (items : list JSValue) : Number :=
  fold_left (fun sum item => PrimFloat.add sum (f item)) items zero.

(** An item whose [qty] reads as a falsy value: 0, -0, NaN, [null],
    [false], the empty string, or nothing at all (no [qty], or an item that
    is not an object). *)
Definition falsyQuantity (item : JSValue) : Prop :=
  exists qty, Get item (str "qty") = Ok qty /\ ToBoolean qty = false.

(** An item the reducer adds as a number: its [qty] reads as a falsy value
    or as a number. *)
Definition countedItem (item : JSValue) : Prop :=
  falsyQuantity item \/ exists q, Get item (str "qty") = Ok (VNum q).

(** The badge writes, for two counts that are Numbers. *)
Definition writeBadge (badge : option NodeId) (count : Number)
    (doc : Document) : Document :=
  match badge with
  | Some n => setTextContent n (Number_toString count) doc
  | None => doc
  end.

(** A parsed cart the reducer cannot walk: a value that is not an array, or
    an array that holds [null]. *)
Definition unusableCart (v : JSValue) : Prop :=
  match v with
  | VArr items => VNull ∈ items
  | _ => True
  end.

(** *** Parts of the handlers *)

(** The theme a click moves to from the attribute value [current]. *)
Definition flipTheme (current : option jsstring) : jsstring :=
  if bool_decide (current = Some (str "dark")) then str "light" else str "dark".

(** The parts of a tick: whether it re-bases, the target it leaves, the
    time it then finds remaining, and the writes of the four fields. *)
Definition rebases (w : World) : bool :=
  default 0 (countdownTarget (state w)) - clock w (reads w) <=? 0.

Definition targetAfterTick (w : World) : option Z :=
  if rebases w then Some (clock w (S (reads w)) + threeDays)
  else countdownTarget (state w).

Definition remainingAtTick (w : World) : Z :=
  default 0 (targetAfterTick w)
  - clock w (if rebases w then S (S (reads w)) else S (reads w)).

Definition showRemaining (remaining : Z) : M unit :=
  write_selected (ById (str "days")) (pad (daysOf remaining)) ;;
  write_selected (ById (str "hours")) (pad (hoursOf remaining)) ;;
  write_selected (ById (str "minutes")) (pad (minutesOf remaining)) ;;
  write_selected (ById (str "seconds")) (pad (secondsOf remaining)).


(** The theme [initTheme] applies: the stored preference unless it is
    absent or empty, otherwise the system scheme. *)
Definition initialTheme (w : World) : jsstring :=
  match preference w with
  | Some (c :: text) => c :: text
  | Some [] | None => if prefersDark w then str "dark" else str "light"
  end.

(** The span [initHeadlineSplit] builds for the word at position [index]:
    hidden, shifted down, and set to fade in after [index * 80] ms. *)
Definition headlineSpan (title : NodeId) (word : jsstring) (index : nat)
  : Element :=
  let delay := Z_toString (Z.of_nat index * 80) in
  mkElement (Some title) ∅ [] (word ++ str " ")
    (<["transition"%string :=
         str "opacity 500ms ease " ++ delay ++ str "ms, transform 500ms ease "
         ++ delay ++ str "ms"]>
       (<["transform"%string := str "translateY(12px)"]>
          (<["opacity"%string := str "0"]>
             (<["display"%string := str "inline-block"]> ∅)))).

(** The loop body of [initHeadlineSplit]. *)
Definition splitWord (title : NodeId) (word : jsstring) (index : nat)
  : M unit :=
  let* span := new_element in
  let delay := Z_toString (Z.of_nat index * 80) in
  write_text span (word ++ str " ") ;;
  mutate span (setStyle "display" (str "inline-block")) ;;
  mutate span (setStyle "opacity" (str "0")) ;;
  mutate span (setStyle "transform" (str "translateY(12px)")) ;;
  mutate span (setStyle "transition"
    (str "opacity 500ms ease " ++ delay ++ str "ms, transform 500ms ease "
     ++ delay ++ str "ms")) ;;
  modify (fun w => set_document (appendChild title span (document w)) w) ;;
  requestAnimationFrame (HeadlineFrame span).

(** The dot [initTestimonials] builds for the slide at position [index]. *)
Definition dotFor (dots : NodeId) (index : nat) : Element :=
  mkElement (Some dots)
    {[ "aria-label"%string :=
         str "Go to testimonial " ++ Z_toString (Z.of_nat index + 1) ]}
    [str "dot"] [] ∅.

(** The loop body of [initTestimonials]. *)
Definition addDot (c : Carousel) (slide : NodeId) (index : nat) : M unit :=
  let* dot := new_element in
  mutate dot (set_classList [str "dot"]) ;;
  mutate dot (setAttribute "aria-label"
    (str "Go to testimonial " ++ Z_toString (Z.of_nat index + 1))) ;;
  addClickListener dot (DotClick c index) ;;
  modify (fun w => set_document (appendChild (dots c) dot (document w)) w).

(** *** Triples

    [hoare P m Q]: from a page satisfying [P], [m] ends, normally or by an
    exception, in a page and outcome satisfying [Q].  [keeps I m] is the
    special case of an invariant. *)

Definition hoare {A} (P : World -> Prop) (m : M A)
    (Q : Result A -> World -> Prop) : Prop :=
  forall w, P w -> Q (snd (m w)) (fst (m w)).

Definition keeps {A} (I : World -> Prop) (m : M A) : Prop :=
  hoare I m (fun _ => I).

(** *** Invariants of the page *)

(** The value stored under [key]. *)
Definition storedAt (key : string) (v : option jsstring) (w : World) : Prop :=
  localStorage w !! key = v.

(** What a statement leaves alone: the script's state and the registry. *)
Definition framed (s : State) (r : list Callback) (w : World) : Prop :=
  state w = s /\ registered w = r.

(** Callbacks register nothing: the registry stays within [r]. *)
Definition registeredIn (r : list Callback) (w : World) : Prop :=
  registered w ⊆ r.

(** Ids are never rewritten: what [w0] gives as the id of a node, [w]
    gives too. *)
Definition idsKept (w0 w : World) : Prop :=
  forall n v, attributeOf w0 n "id" = Some v -> attributeOf w n "id" = Some v.

(** The carousel: all registered carousel callbacks belong to a carousel of
    [n] slides, dot listeners are numbered below [n], and the index is a
    slide number.  Until [initTestimonials] runs none is registered and the
    index is 0. *)
Definition carouselCallback (n : nat) (cb : Callback) : Prop :=
  match cb with
  | DotClick c i => List.length (slides c) = n /\ (i < n)%nat
  | PrevClick c | Next c => List.length (slides c) = n
  | _ => True
  end.

Definition noCarousel (cb : Callback) : Prop :=
  match cb with
  | DotClick _ _ | PrevClick _ | Next _ => False
  | _ => True
  end.

Definition inRange (n : nat) (i : IntNumber) : Prop :=
  exists z, i = Int z /\ 0 <= z < Z.of_nat n.

Definition carouselInv (n : nat) (w : World) : Prop :=
  Forall (carouselCallback n) (registered w)
  /\ ((1 <= n)%nat -> inRange n (index w)).

Definition beforeCarousel (w : World) : Prop :=
  Forall noCarousel (registered w) /\ index w = Int 0.




(** The back-to-top listener: until [initBackToTop] runs none is
    registered. *)
Definition noBackToTop (cb : Callback) : Prop :=
  match cb with
  | BackToTopScroll _ => False
  | _ => True
  end.

(** It is registered for an element whose id is [back-to-top]. *)
Definition backToTopCallback (w : World) (cb : Callback) : Prop :=
  match cb with
  | BackToTopScroll button =>
      attributeOf w button "id" = Some (str "back-to-top")
  | _ => True
  end.

Definition backToTopInv (w : World) : Prop :=
  Forall (backToTopCallback w) (registered w).

(** The theme listener is a click listener only: the other registries hold
    none. *)
Definition noThemeClick (cb : Callback) : Prop :=
  match cb with
  | ThemeClick _ => False
  | _ => True
  end.

Definition unclicked (w : World) : list Callback :=
  scrollListeners w ++ map fst (observers w) ++ map fst (intervals w)
  ++ map fst (timeouts w) ++ animationFrames w.

(** The scroll listeners of the script: the parallax, for an existing
    node, and the back-to-top listener. *)
Definition scrollNode (size : nat) (cb : Callback) : Prop :=
  match cb with
  | ParallaxScroll heroBg => (heroBg < size)%nat
  | BackToTopScroll _ => True
  | _ => False
  end.

Definition scrollInv (w : World) : Prop :=
  Forall (scrollNode (List.length (document w))) (scrollListeners w).

(** Animation frames are requested for headline words only, each an
    existing node. *)
Definition frameCallback (size : nat) (cb : Callback) : Prop :=
  match cb with
  | HeadlineFrame span => (span < size)%nat
  | _ => False
  end.

Definition framesInv (w : World) : Prop :=
  Forall (frameCallback (List.length (document w))) (animationFrames w).

(** *** Ranges

    The integers and times on which the script's Number and Date arithmetic
    is the exact arithmetic of the model. *)

(** [Number.MAX_SAFE_INTEGER], [2^53 - 1]: sums of integers up to it are
    exact. *)
Definition MAX_SAFE_INTEGER : Z := 9007199254740991.

(** The largest length of an array, [2^32 - 1]. *)
Definition maxArrayLength : Z := 4294967295.

(** The largest time value of a Date, in milliseconds; a Date made from a
    larger number is invalid and its time value is NaN. *)
Definition maxTime : Z := 8640000000000000.

(** The four countdown fields of the page; the first three hold no element
    (writing a field's text removes the elements inside it). *)
Definition countdownFields (w : World) (d h m s : NodeId) : Prop :=
  querySelector (document w) (ById (str "days")) = Some d
  /\ querySelector (document w) (ById (str "hours")) = Some h
  /\ querySelector (document w) (ById (str "minutes")) = Some m
  /\ querySelector (document w) (ById (str "seconds")) = Some s
  /\ Forall (fun n => children (document w) n = []) [d; h; m].

(** A clock that reads [t] from the next reading on. *)
Definition steadyClock (w : World) (t : Z) : Prop :=
  forall k, (reads w <= k)%nat -> clock w k = t.

(** Every parent named in the document is a node of it. *)
Definition wellParented (doc : Document) : bool :=
  forallb (fun e => match parentNode e with
                    | Some p => p <? List.length doc
                    | None => true
                    end)%nat doc.

(** *** Sample pages

    Small documents, stores and clocks on which the statements are run. *)

(** The double quote of JSON text. *)
Definition quote : jsstring := [34%N].

(** An element under the root with an id, classes and data attributes. *)
Definition tagged (id : string) (classes : list string)
    (data : list (string * string)) : Element :=
  mkElement (Some 0%nat)
    (list_to_map (("id"%string, str id)
                  :: map (fun a => (fst a, str (snd a))) data))
    (map str classes) [] ∅.

Definition constantClock (t : Z) : nat -> Z := fun _ => t.

(** A page with the two badges. *)
Definition badgePage : Document :=
  [blank; tagged "cart-count" [] []; tagged "wishlist-count" [] []].

(** [{"qty":2},{},{"qty":0}] *)
Definition sampleCart : jsstring :=
  str "[{" ++ quote ++ str "qty" ++ quote ++ str ":2},{},{"
  ++ quote ++ str "qty" ++ quote ++ str ":0}]".

Definition sampleCartItems : list JSValue :=
  [VObj [(str "qty", VNum 2%float)]; VObj [];
   VObj [(str "qty", VNum 0%float)]].

(** [[{"qty":0}]] *)
Definition zeroCart : jsstring :=
  str "[{" ++ quote ++ str "qty" ++ quote ++ str ":0}]".

Definition brokenStore : gmap string jsstring :=
  {[ "veloura-cart"%string := str "{oops" ]}.

Definition sampleStore : gmap string jsstring :=
  {[ "veloura-cart"%string := sampleCart;
     "veloura-wishlist"%string := str "[1,2,3,4]" ]}.

Definition zeroStore : gmap string jsstring :=
  {[ "veloura-cart"%string := zeroCart;
     "veloura-wishlist"%string := str "[]" ]}.

(** [[{"qty":null},{"qty":false},{"qty":<empty string>},{"qty":0},{},
    {"qty":2}]] *)
Definition falsyCart : jsstring :=
  str "[{" ++ quote ++ str "qty" ++ quote ++ str ":null},{"
  ++ quote ++ str "qty" ++ quote ++ str ":false},{"
  ++ quote ++ str "qty" ++ quote ++ str ":" ++ quote ++ quote ++ str "},{"
  ++ quote ++ str "qty" ++ quote ++ str ":0},{},{"
  ++ quote ++ str "qty" ++ quote ++ str ":2}]".

Definition falsyCartItems : list JSValue :=
  [VObj [(str "qty", VNull)]; VObj [(str "qty", VBool false)];
   VObj [(str "qty", VStr [])]; VObj [(str "qty", VNum 0%float)];
   VObj []; VObj [(str "qty", VNum 2%float)]].

Definition falsyStore : gmap string jsstring :=
  {[ "veloura-cart"%string := falsyCart ]}.

(** A page with the theme toggle. *)
Definition themePage : Document :=
  [blank; tagged "theme-toggle" [] []].

(** A carousel of three slides, as [initTestimonials] builds it on a page
    whose track is node 1 and whose dots container is node 5. *)
Definition slide : Element := mkElement (Some 1%nat) ∅ [] [] ∅.

Definition carouselPage : Document :=
  [blank; tagged "testimonial-track" [] []; slide; slide; slide;
   tagged "testimonial-dots" [] []; tagged "prev-testimonial" [] [];
   tagged "next-testimonial" [] []].

Definition threeSlides : Carousel := mkCarousel 1%nat 5%nat [2; 3; 4]%nat.

(** A page with the four countdown fields (nodes 1 to 4). *)
Definition countdownPage : Document :=
  [blank; tagged "days" [] []; tagged "hours" [] []; tagged "minutes" [] [];
   tagged "seconds" [] []].

(** A clock that stands at 0 while the page starts, and whose next two
    readings, taken inside one tick three days later, are 1 ms before and
    1 ms after the countdown target. *)
Definition lateClock (k : nat) : Z :=
  match k with
  | 0%nat | 1%nat | 2%nat => 0
  | 3%nat => threeDays - 1
  | _ => threeDays + 1
  end.

(** A clock that stands at 0 for the three readings taken while the page
    starts, and at [t] from then on. *)
Definition clockAfterStart (t : Z) (k : nat) : Z :=
  if (k <? 3)%nat then 0 else t.



(** A page with one reveal element (node 1) and the back-to-top button
    (node 2). *)
Definition revealPage : Document :=
  [blank; tagged "hero" ["reveal"] []; tagged "back-to-top" [] []].

(** A page whose back-to-top button (node 1) also carries the reveal
    class. *)
Definition revealedButtonPage : Document :=
  [blank; tagged "back-to-top" ["reveal"] []].

(** A page with a parallax background (node 1) and the back-to-top button
    (node 2). *)
Definition parallaxPage : Document :=
  [blank; tagged "hero" ["hero-bg"] []; tagged "back-to-top" [] []].

(** A page whose arrivals track (node 1) shows its loading skeleton. *)
Definition skeletonPage : Document :=
  [blank; tagged "arrival-track" ["is-loading"] []].

(** A carousel whose track (node 1) holds no slide; the dots container is
    node 2. *)
Definition emptyCarouselPage : Document :=
  [blank; tagged "testimonial-track" [] []; tagged "testimonial-dots" [] []].

(** A page with the days field of the countdown but none of the other
    three, and a carousel after it. *)
Definition daysOnlyPage : Document :=
  [blank; tagged "days" [] []; tagged "testimonial-track" [] [];
   tagged "testimonial-dots" [] []].

(** A page whose headline (node 1) reads [  New season  styles ]. *)
Definition headlinePage : Document :=
  [blank;
   mkElement (Some 0%nat) {[ "data-split"%string := str "words" ]} []
     (str "  New season  styles ") ∅].

End Spec.

(** ** Theorems *)

Import JS DOM App Spec.

(** *** Rules for triples *)

Section Rules.
Context {A B : Type}.
Implicit Types (P I : World -> Prop).

Lemma hoare_bind P (m : M A) (k : A -> M B) R Q :
  hoare P m R ->
  (forall a, hoare (R (Ok a)) (k a) Q) ->
  (forall e w, R (Throw e) w -> Q (Throw e) w) ->
  hoare P (bind m k) Q.
Proof.
  intros Hm Hk He w HP. specialize (Hm w HP). unfold bind.
  destruct (m w) as [w' [a | e]]; simpl in *.
  - exact (Hk a w' Hm).
  - exact (He e w' Hm).
Qed.

Lemma hoare_weaken P P' (m : M A) Q Q' :
  hoare P' m Q' ->
  (forall w, P w -> P' w) ->
  (forall r w, Q' r w -> Q r w) ->
  hoare P m Q.
Proof. intros Hm HP HQ w Hw. apply HQ, Hm, HP, Hw. Qed.

Lemma keeps_bind I (m : M A) (k : A -> M B) :
  keeps I m -> (forall a, keeps I (k a)) -> keeps I (bind m k).
Proof. intros Hm Hk. eapply hoare_bind; eauto. Qed.

Lemma keeps_ret I (a : A) : keeps I (ret a).
Proof. intros w H. exact H. Qed.

Lemma keeps_throw I e : keeps I (throw (A := A) e).
Proof. intros w H. exact H. Qed.

Lemma keeps_lift I (r : Result A) : keeps I (lift r).
Proof. intros w H. exact H. Qed.

Lemma keeps_gets I (f : World -> A) : keeps I (gets f).
Proof. intros w H. exact H. Qed.

Lemma keeps_try_catch I (m : M A) handler :
  keeps I m -> (forall e, keeps I (handler e)) -> keeps I (try_catch m handler).
Proof.
  intros Hm Hh w HI. specialize (Hm w HI). unfold try_catch.
  destruct (m w) as [w' [a | e]]; simpl in *; [exact Hm |].
  exact (Hh e w' Hm).
Qed.

End Rules.

Lemma keeps_forEach_from {A} (I : World -> Prop) (l : list A)
    (f : A -> nat -> M unit) i :
  (forall x j, x ∈ l -> (i <= j < i + List.length l)%nat -> keeps I (f x j)) ->
  keeps I (forEach_from i l f).
Proof.
  revert i. induction l as [| x l IH]; intros i Hf; simpl.
  - apply keeps_ret.
  - eapply hoare_bind.
    + apply Hf; [left | simpl; lia].
    + intros []. apply IH. intros y j Hy Hj. apply Hf; [by right | simpl; lia].
    + auto.
Qed.

Lemma keeps_forEach {A} (I : World -> Prop) (l : list A)
    (f : A -> nat -> M unit) :
  (forall x j, x ∈ l -> (j < List.length l)%nat -> keeps I (f x j)) ->
  keeps I (forEach l f).
Proof. intros Hf. apply keeps_forEach_from. intros x j Hx Hj. apply Hf; [done | lia]. Qed.

Lemma keeps_modify (I : World -> Prop) f :
  (forall w, I w -> I (f w)) -> keeps I (modify f).
Proof. intros Hf w H. apply Hf, H. Qed.

Lemma keeps_new_element (I : World -> Prop) :
  (forall w, I w -> I (set_document (fst (createElement (document w))) w)) ->
  keeps I new_element.
Proof. intros Hf w H. apply Hf, H. Qed.

Lemma keeps_when_found (I : World -> Prop) x k :
  (forall n, x = Some n -> keeps I (k n)) -> keeps I (when_found x k).
Proof. intros Hk. destruct x; simpl; [by apply Hk | apply keeps_ret]. Qed.

(** Breaking a statement of the script down to its reads and writes. *)
Create HintDb script.
#[local] Hint Unfold
  loadStorage syncBadges themeClick initTheme headlineFrame initHeadlineSplit
  parallaxScroll initParallax revealEntries initReveal tabClick initTabs
  write_selected tick initCountdown update goToSlide next prevClick
  initTestimonials backToTopScroll backToTopClick initBackToTop
  arrivalTimeout initArrivalSkeleton init call
  document_querySelector document_querySelectorAll documentElement element
  mutate write_text write_value getItem setItem now
  addClickListener addScrollListener observe setInterval setTimeout
  requestAnimationFrame : script.

Ltac keeps_step leaf :=
  lazymatch goal with
  | |- keeps _ (bind _ _) => apply keeps_bind; [| intros ?]
  | |- keeps _ (ret _) => apply keeps_ret
  | |- keeps _ (throw _) => apply keeps_throw
  | |- keeps _ (lift _) => apply keeps_lift
  | |- keeps _ (gets _) => apply keeps_gets
  | |- keeps _ (try_catch _ _) => apply keeps_try_catch; [| intros ?]
  | |- keeps _ (when_found _ _) => apply keeps_when_found; intros ? ?
  | |- keeps _ (forEach _ _) => apply keeps_forEach; intros ? ? ? ?
  | |- keeps _ (modify _) => apply keeps_modify; leaf
  | |- keeps _ new_element => apply keeps_new_element; leaf
  | |- keeps _ (match ?x with _ => _ end) => destruct x
  | |- keeps _ _ => progress autounfold with script
  end.

Ltac keeps_all leaf :=
  try match goal with
      | |- hoare ?I ?m (fun _ => ?I) => change (keeps I m)
      end;
  repeat keeps_step leaf.

(** *** The registry and the events *)

Lemma registered_elem w cb :
  cb ∈ registered w <->
  cb ∈ map snd (clickListeners w) \/ cb ∈ scrollListeners w
  \/ cb ∈ map fst (observers w) \/ cb ∈ map fst (intervals w)
  \/ cb ∈ map fst (timeouts w) \/ cb ∈ animationFrames w.
Proof. unfold registered. rewrite !elem_of_app. tauto. Qed.

Lemma registered_lookup {X} (l : list (Callback * X)) i cb x :
  l !! i = Some (cb, x) -> cb ∈ map fst l.
Proof.
  intros E. apply list_elem_of_lookup_2 in E.
  exact (list_elem_of_fmap_2 fst _ _ E).
Qed.

Lemma registered_click w target :
  map snd (List.filter (fun l => Nat.eqb (fst l) target) (clickListeners w))
  ⊆ registered w.
Proof.
  intros cb Hcb. apply registered_elem. left.
  apply list_elem_of_In, in_map_iff in Hcb as ([t cb'] & <- & Hin).
  apply filter_In in Hin as [Hin _].
  apply list_elem_of_In, in_map_iff. by exists (t, cb').
Qed.

Lemma Forall_subseteq {A} (P : A -> Prop) (l k : list A) :
  l ⊆ k -> Forall P k -> Forall P l.
Proof.
  rewrite !Forall_forall. intros Hs H x Hx. apply H, Hs, Hx.
Qed.

(** An invariant of every registered callback, untouched by the browser's
    own bookkeeping, is an invariant of every event. *)
Lemma step_keeps (I : World -> Prop) w ev :
  (forall cb entries w', cb ∈ registered w -> I w' -> I (fst (call cb entries w'))) ->
  (forall y, I w -> I (set_scrollY y w)) ->
  (forall i, I w -> I (set_timeouts (delete i (timeouts w)) w)) ->
  (I w -> I (set_animationFrames [] w)) ->
  I w -> I (step w ev).
Proof.
  intros Hcall Hscroll Htimeouts Hframes H.
  assert (Hdispatch : forall cbs w', cbs ⊆ registered w -> I w' ->
                                     I (dispatch cbs w')).
  { induction cbs as [| cb cbs IH]; intros w' Hsub Hw'; [exact Hw' |].
    simpl. apply IH.
    - intros x Hx. apply Hsub. by right.
    - apply Hcall; [apply Hsub; by left | exact Hw']. }
  destruct ev; simpl.
  - apply Hdispatch; [apply registered_click | exact H].
  - apply Hdispatch; [| by apply Hscroll].
    intros cb Hcb. apply registered_elem. tauto.
  - destruct (observers w !! observer) as [[cb targets] |] eqn:E; [| exact H].
    apply Hcall; [| exact H].
    apply registered_elem. apply registered_lookup in E. tauto.
  - destruct (intervals w !! timer) as [[cb d] |] eqn:E; [| exact H].
    apply Hcall; [| exact H].
    apply registered_elem. apply registered_lookup in E. tauto.
  - destruct (timeouts w !! timer) as [[cb d] |] eqn:E; [| exact H].
    apply Hcall; [| by apply Htimeouts].
    apply registered_elem. apply registered_lookup in E. tauto.
  - apply Hdispatch; [| by apply Hframes].
    intros cb Hcb. apply registered_elem. tauto.
Qed.

(** Leaves for invariants of the registry: one that is [Forall P] over the
    registry [reg], kept by a statement whose callbacks satisfy [P], and one
    that pairs it with a fact about a part [part] of the state. *)
Ltac registry_leaf reg :=
  intros ? ?; unfold reg in *; simpl;
  rewrite ?map_app, ?Forall_app in *; simpl;
  intuition (repeat constructor; simpl; auto).

Ltac registry_state_leaf reg part :=
  intros ? [? ?]; split;
  [ unfold reg in *; simpl;
    rewrite ?map_app, ?Forall_app in *; simpl;
    intuition (repeat constructor; simpl; auto)
  | unfold part in *; simpl; assumption ].

(** The leaf for a conjunction of two facts about parts no write touches. *)
Ltac framed_leaf :=
  intros ? [? ?]; split; simpl; assumption.

(** *** The cart and the wishlist are never written *)

Lemma script_keeps_storage key v :
  key <> "veloura-theme"%string ->
  (forall cb entries, keeps (storedAt key v) (call cb entries))
  /\ keeps (storedAt key v) init.
Proof.
  intros Hk. split; [intros cb entries; destruct cb |];
    keeps_all ltac:(intros ? ?; unfold storedAt in *; simpl;
                    first [ assumption
                          | rewrite lookup_insert_ne; [assumption | done] ]).
Qed.

Lemma step_keeps_storage key v w ev :
  key <> "veloura-theme"%string -> storedAt key v w -> storedAt key v (step w ev).
Proof.
  intros Hk. apply step_keeps; try (intros ? H; exact H); [| intros H; exact H].
  intros cb entries w' _. by apply script_keeps_storage.
Qed.

Lemma after_keeps_storage key v w events :
  key <> "veloura-theme"%string ->
  storedAt key v w -> storedAt key v (after w events).
Proof.
  intros Hk. revert w. induction events as [| ev events IH]; intros w H.
  - exact H.
  - apply IH. by apply step_keeps_storage.
Qed.

(** C9.  Whatever the page and whatever events follow its start, the values
    stored under [veloura-cart] and [veloura-wishlist] are the ones the page
    was loaded with: no operation of the script writes either key. *)
Theorem cart_and_wishlist_are_read_only (w : World) (events : list Event) :
  localStorage (after (started w) events) !! "veloura-cart"%string
    = localStorage w !! "veloura-cart"%string
  /\ localStorage (after (started w) events) !! "veloura-wishlist"%string
    = localStorage w !! "veloura-wishlist"%string.
Proof.
  split.
  - apply (after_keeps_storage "veloura-cart"); [done |].
    apply (script_keeps_storage "veloura-cart" _ ltac:(done)). reflexivity.
  - apply (after_keeps_storage "veloura-wishlist"); [done |].
    apply (script_keeps_storage "veloura-wishlist" _ ltac:(done)). reflexivity.
Qed.

(** *** Queries and writes on the document *)

Lemma querySelectorAll_spec doc sel n :
  n ∈ querySelectorAll doc sel ->
  (n < List.length doc)%nat /\ isConnected doc n = true /\ selects doc sel n = true.
Proof.
  unfold querySelectorAll, nodes. rewrite list_elem_of_In, filter_In, in_seq.
  intros [Hn H]. apply andb_prop in H. split; [lia | exact H].
Qed.

Lemma querySelector_spec doc sel n :
  querySelector doc sel = Some n ->
  (n < List.length doc)%nat /\ selects doc sel n = true.
Proof.
  unfold querySelector. intros H.
  assert (Hin : n ∈ querySelectorAll doc sel).
  { destruct (querySelectorAll doc sel); simplify_eq/=. left. }
  apply querySelectorAll_spec in Hin. tauto.
Qed.

Lemma selects_id doc a b n :
  selects doc (ById a) n = true -> selects doc (ById b) n = true -> a = b.
Proof.
  unfold selects. destruct (doc !! n) as [e |]; [| done]. simpl.
  intros Ha%bool_decide_eq_true Hb%bool_decide_eq_true. congruence.
Qed.

Lemma removeChildren_lookup n doc m :
  removeChildren n doc !! m
  = (fun e => if bool_decide (parentNode e = Some n)
              then set_parentNode None e else e) <$> doc !! m.
Proof. unfold removeChildren. apply list_lookup_fmap. Qed.

Lemma removeChildren_length n doc :
  List.length (removeChildren n doc) = List.length doc.
Proof. unfold removeChildren. apply length_map. Qed.

Lemma setTextContent_text_eq n text doc :
  (n < List.length doc)%nat ->
  textContent <$> setTextContent n text doc !! n = Some text.
Proof.
  intros Hn. unfold setTextContent, modifyNode.
  rewrite list_lookup_alter_eq, removeChildren_lookup.
  destruct (lookup_lt_is_Some_2 doc n Hn) as [e ->]. simpl.
  by repeat case_bool_decide.
Qed.

Lemma setTextContent_text_ne n m text doc :
  n <> m ->
  textContent <$> setTextContent n text doc !! m = textContent <$> doc !! m.
Proof.
  intros Hne. unfold setTextContent, modifyNode.
  rewrite list_lookup_alter_ne by done. rewrite removeChildren_lookup.
  destruct (doc !! m) as [e |]; [| done]. simpl.
  by repeat case_bool_decide.
Qed.

Lemma setTextContent_length n text doc :
  List.length (setTextContent n text doc) = List.length doc.
Proof.
  unfold setTextContent, modifyNode. by rewrite length_alter, removeChildren_length.
Qed.

(** *** The badge sync *)

Lemma loadStorage_run key fallback w :
  loadStorage key fallback w = (w, Ok (loaded w key fallback)).
Proof.
  unfold loadStorage, loaded, try_catch, bind, getItem, gets, lift, ret.
  destruct (localStorage w !! key) as [[| c text] |]; try reflexivity.
  by destruct (JSON_parse (c :: text)).
Qed.

Lemma loaded_unusable w key fallback :
  unusable w key -> loaded w key fallback = fallback.
Proof.
  unfold unusable, loaded.
  destruct (localStorage w !! key) as [[| c text] |]; try done.
  by intros ->.
Qed.

Lemma loaded_stores w key fallback items :
  stores w key items -> loaded w key fallback = VArr items.
Proof.
  intros (text & Hl & Hp). unfold loaded. rewrite Hl.
  destruct text as [| c text]; [by vm_compute in Hp |]. by rewrite Hp.
Qed.

Lemma syncBadges_numbers w a b :
  reduce (loaded w "veloura-cart" (VArr [])) addQuantity (VNum zero)
    = Ok (VNum a) ->
  Get (loaded w "veloura-wishlist" (VArr [])) (str "length") = Ok (VNum b) ->
  syncBadges w =
    (set_document
       (writeBadge (querySelector (document w) (ById (str "wishlist-count"))) b
          (writeBadge (querySelector (document w) (ById (str "cart-count"))) a
             (document w))) w,
     Ok tt).
Proof.
  intros Ha Hb. unfold syncBadges.
  unfold bind at 1. rewrite loadStorage_run.
  unfold bind at 1. rewrite loadStorage_run.
  unfold bind at 1, lift at 1. rewrite Ha.
  unfold bind at 1, lift at 1. rewrite Hb.
  unfold bind, document_querySelector, gets, when_found, write_value,
    write_text, modify, lift, ret. simpl.
  destruct (querySelector (document w) (ById (str "cart-count")));
    destruct (querySelector (document w) (ById (str "wishlist-count")));
    simpl; try reflexivity.
  by destruct w.
Qed.

Lemma badge_texts w a b :
  let doc' :=
    writeBadge (querySelector (document w) (ById (str "wishlist-count"))) b
      (writeBadge (querySelector (document w) (ById (str "cart-count"))) a
         (document w)) in
  (forall n, querySelector (document w) (ById (str "cart-count")) = Some n ->
             textContent <$> doc' !! n = Some (Number_toString a))
  /\ (forall n, querySelector (document w) (ById (str "wishlist-count")) = Some n ->
                textContent <$> doc' !! n = Some (Number_toString b)).
Proof.
  simpl. split; intros n Hq.
  - rewrite Hq. simpl. apply querySelector_spec in Hq as Hn. destruct Hn as [Hn Hs].
    destruct (querySelector (document w) (ById (str "wishlist-count"))) as [m |] eqn:Hm;
      simpl; [| by apply setTextContent_text_eq].
    apply querySelector_spec in Hm as [_ Hm].
    rewrite setTextContent_text_ne; [by apply setTextContent_text_eq |].
    intros ->. by pose proof (selects_id _ _ _ _ Hs Hm).
  - rewrite Hq. simpl. apply querySelector_spec in Hq as [Hn _].
    apply setTextContent_text_eq.
    destruct (querySelector (document w) (ById (str "cart-count"))); simpl;
      by rewrite ?setTextContent_length.
Qed.

(** C1.  When the values stored under [veloura-cart] and [veloura-wishlist]
    are absent or are not JSON, the badge sync returns normally and each
    badge present in the page shows 0. *)
Theorem badges_show_zero_without_usable_storage (w : World) :
  unusable w "veloura-cart" ->
  unusable w "veloura-wishlist" ->
  snd (syncBadges w) = Ok tt
  /\ (forall n, querySelector (document w) (ById (str "cart-count")) = Some n ->
                textOf (fst (syncBadges w)) n = Some (str "0"))
  /\ (forall n, querySelector (document w) (ById (str "wishlist-count")) = Some n ->
                textOf (fst (syncBadges w)) n = Some (str "0")).
Proof.
  intros Hc Hw.
  rewrite (syncBadges_numbers w zero (Number_of_nat 0)).
  - split; [reflexivity |]. apply (badge_texts w zero (Number_of_nat 0)).
  - by rewrite loaded_unusable.
  - by rewrite loaded_unusable.
Qed.

Lemma addQuantity_valid sum item :
  validItem item ->
  addQuantity (VNum sum) item
  = Ok (VNum (PrimFloat.add sum (contribution item))).
Proof.
  destruct item as [| | | | | | props]; try done.
  unfold validItem, addQuantity, contribution, quantity, Get.
  destruct (own_property props (str "qty")) as [[| | | q | | |] |]; try done.
  simpl. by destruct (PrimFloat.eqb q zero || PrimFloat.is_nan q).
Qed.

Lemma reduce_valid items sum :
  Forall validItem items ->
  fold_left (fun acc item => rbind acc (fun s => addQuantity s item))
            items (Ok (VNum sum))
  = Ok (VNum (fold_left
                (fun s item => PrimFloat.add s (contribution item)) items sum)).
Proof.
  intros Hv. revert sum. induction Hv as [| item items Hi _ IH]; intros sum.
  - reflexivity.
  - simpl. rewrite (addQuantity_valid sum item Hi). apply IH.
Qed.

(** C6, as the script counts.  For a stored cart array whose items are
    objects with an optional numeric [qty], and a stored wishlist array, the
    badge sync returns normally, the cart badge shows the sum over the items
    of the quantity, an item whose quantity is missing or zero counting 1,
    and the wishlist badge shows the length of the wishlist array. *)
Theorem badges_show_cart_total_and_wishlist_length
    (w : World) (items wishes : list JSValue) :
  stores w "veloura-cart" items ->
  Forall validItem items ->
  stores w "veloura-wishlist" wishes ->
  snd (syncBadges w) = Ok tt
  /\ (forall n, querySelector (document w) (ById (str "cart-count")) = Some n ->
                textOf (fst (syncBadges w)) n
                = Some (Number_toString (total contribution items)))
  /\ (forall n, querySelector (document w) (ById (str "wishlist-count")) = Some n ->
                textOf (fst (syncBadges w)) n
                = Some (Number_toString (Number_of_nat (List.length wishes)))).
Proof.
  intros Hc Hv Hw.
  rewrite (syncBadges_numbers w (total contribution items)
             (Number_of_nat (List.length wishes))).
  - split; [reflexivity |]. apply badge_texts.
  - rewrite (loaded_stores _ _ _ _ Hc). apply reduce_valid, Hv.
  - by rewrite (loaded_stores _ _ _ _ Hw).
Qed.

(** An item whose [qty] is falsy counts 1, and the reducer adds 1 for it. *)
Lemma falsyQuantity_contribution item :
  falsyQuantity item -> contribution item = one.
Proof.
  intros (qty & Hg & Hf). unfold contribution, quantity.
  destruct item as [| | | | | | props]; try reflexivity.
  simpl in Hg. injection Hg as <-.
  destruct (own_property props (str "qty")) as [[| | | q | | |] |];
    try reflexivity.
  simpl in Hf. by destruct (PrimFloat.eqb q zero || PrimFloat.is_nan q).
Qed.

Lemma addQuantity_falsy sum item :
  falsyQuantity item ->
  addQuantity (VNum sum) item = Ok (VNum (PrimFloat.add sum one)).
Proof.
  intros (qty & Hg & Hf). unfold addQuantity. rewrite Hg. simpl. by rewrite Hf.
Qed.

Lemma addQuantity_counted sum item :
  countedItem item ->
  addQuantity (VNum sum) item
  = Ok (VNum (PrimFloat.add sum (contribution item))).
Proof.
  intros [Hf | (q & Hq)].
  - by rewrite (falsyQuantity_contribution item Hf),
         (addQuantity_falsy sum item Hf).
  - unfold addQuantity, contribution, quantity. rewrite Hq.
    destruct item as [| | | | | | props]; try done.
    simpl in Hq.
    destruct (own_property props (str "qty")) as [v |]; [| done].
    simpl in Hq. injection Hq as ->. simpl.
    by destruct (PrimFloat.eqb q zero || PrimFloat.is_nan q).
Qed.

Lemma reduce_counted items sum :
  Forall countedItem items ->
  fold_left (fun acc item => rbind acc (fun s => addQuantity s item))
            items (Ok (VNum sum))
  = Ok (VNum (fold_left
                (fun s item => PrimFloat.add s (contribution item)) items sum)).
Proof.
  intros Hv. revert sum. induction Hv as [| item items Hi _ IH]; intros sum.
  - reflexivity.
  - simpl. rewrite (addQuantity_counted sum item Hi). apply IH.
Qed.

(** C10.  For a stored cart array whose items each have a [qty] that reads
    as a falsy value or as a number, and a wishlist that is stored as an
    array or is unusable, the badge sync returns normally and the cart
    badge shows the sum of the items' contributions, where every item whose
    [qty] is falsy (0, -0, NaN, [null], [false], the empty string, or no
    [qty] at all) contributes exactly 1. *)
Theorem falsy_quantity_counts_as_one (w : World) (items : list JSValue) :
  stores w "veloura-cart" items ->
  Forall countedItem items ->
  unusable w "veloura-wishlist"
  \/ (exists wishes, stores w "veloura-wishlist" wishes) ->
  snd (syncBadges w) = Ok tt
  /\ (forall n, querySelector (document w) (ById (str "cart-count")) = Some n ->
                textOf (fst (syncBadges w)) n
                = Some (Number_toString (total contribution items)))
  /\ (forall item, item ∈ items -> falsyQuantity item ->
                   contribution item = one).
Proof.
  intros Hc Hv Hw.
  assert (Hb : exists b,
             Get (loaded w "veloura-wishlist" (VArr [])) (str "length")
             = Ok (VNum b)).
  { destruct Hw as [Hw | (wishes & Hw)].
    - rewrite (loaded_unusable _ _ _ Hw). by eexists.
    - rewrite (loaded_stores _ _ _ _ Hw). by eexists. }
  destruct Hb as (b & Hb).
  rewrite (syncBadges_numbers w (total contribution items) b).
  - split; [reflexivity |]. split; [apply (badge_texts w) |].
    intros item _. apply falsyQuantity_contribution.
  - rewrite (loaded_stores _ _ _ _ Hc). apply reduce_counted, Hv.
  - exact Hb.
Qed.

Lemma badges_show_zero_witness :
  let w := load badgePage brokenStore false (constantClock 0) in
  snd (syncBadges w) = Ok tt
  /\ textOf (fst (syncBadges w)) 1%nat = Some (str "0")
  /\ textOf (fst (syncBadges w)) 2%nat = Some (str "0").
Proof.
  intros w.
  destruct (badges_show_zero_without_usable_storage w) as (Hr & Hc & Hw).
  - vm_compute. reflexivity.
  - vm_compute. exact I.
  - split; [exact Hr |]. split; [apply Hc | apply Hw]; vm_compute; reflexivity.
Defined.

(** Outside the case above: stored text that is JSON but not an array is
    returned by [loadStorage] as it is.  With [null] under the cart key
    [cart.reduce] throws, the exception leaves [init], and nothing is
    registered. *)
Lemma badges_throw_on_stored_null :
  let w := load badgePage {[ "veloura-cart"%string := str "null" ]} false
                (constantClock 0) in
  unusable w "veloura-wishlist"
  /\ JSON_parse (str "null") = Ok VNull
  /\ snd (syncBadges w) = Throw TypeError
  /\ snd (init w) = Throw TypeError
  /\ registered (started w) = [].
Proof. vm_compute. repeat split; reflexivity. Qed.

Lemma badges_show_cart_total_witness :
  let w := load badgePage sampleStore false (constantClock 0) in
  snd (syncBadges w) = Ok tt
  /\ textOf (fst (syncBadges w)) 1%nat = Some (str "4")
  /\ textOf (fst (syncBadges w)) 2%nat = Some (str "4").
Proof.
  intros w.
  destruct (badges_show_cart_total_and_wishlist_length w sampleCartItems
              [VNum 1%float; VNum 2%float; VNum 3%float; VNum 4%float])
    as (Hr & Hc & Hw).
  - exists sampleCart. split; vm_compute; reflexivity.
  - repeat constructor.
  - exists (str "[1,2,3,4]"). split; vm_compute; reflexivity.
  - split; [exact Hr |]. split.
    + rewrite (Hc 1%nat); [vm_compute; reflexivity | vm_compute; reflexivity].
    + rewrite (Hw 2%nat); [vm_compute; reflexivity | vm_compute; reflexivity].
Defined.

(** C6, as the specification words it, fails: the stored cart [[{"qty":0}]]
    is a valid cart whose quantities sum to 0, and the badge shows 1. *)
Lemma cart_badge_counts_zero_quantity_as_one :
  let w := load badgePage zeroStore false (constantClock 0) in
  let items := [VObj [(str "qty", VNum 0%float)]] in
  stores w "veloura-cart" items
  /\ Forall validItem items
  /\ querySelector (document w) (ById (str "cart-count")) = Some 1%nat
  /\ Number_toString (total statedContribution items) = str "0"
  /\ textOf (fst (syncBadges w)) 1%nat = Some (str "1").
Proof.
  intros w items. split; [| split; [| split; [| split]]].
  - exists zeroCart. split; vm_compute; reflexivity.
  - repeat constructor.
  - vm_compute. reflexivity.
  - vm_compute. reflexivity.
  - vm_compute. reflexivity.
Qed.

Lemma falsy_quantity_witness :
  let w := load badgePage falsyStore false (constantClock 0) in
  snd (syncBadges w) = Ok tt
  /\ textOf (fst (syncBadges w)) 1%nat = Some (str "7")
  /\ contribution (VObj [(str "qty", VNull)]) = one.
Proof.
  intros w.
  destruct (falsy_quantity_counts_as_one w falsyCartItems) as (Hr & Hc & Hf).
  - exists falsyCart. split; vm_compute; reflexivity.
  - unfold falsyCartItems.
    repeat (apply Forall_cons_2;
              [first [ left; eexists; split; vm_compute; reflexivity
                     | right; eexists; vm_compute; reflexivity ] |]).
    apply Forall_nil_2.
  - left. vm_compute. exact I.
  - split; [exact Hr |]. split.
    + rewrite (Hc 1%nat); vm_compute; reflexivity.
    + apply Hf.
      * apply list_elem_of_In. vm_compute. tauto.
      * eexists. split; vm_compute; reflexivity.
Defined.

(** *** The theme toggle *)

Lemma setTextContent_attributes n text doc m :
  attributes <$> setTextContent n text doc !! m = attributes <$> doc !! m.
Proof.
  unfold setTextContent, modifyNode.
  destruct (decide (n = m)) as [-> | Hne].
  - rewrite list_lookup_alter_eq, removeChildren_lookup.
    destruct (doc !! m) as [e |]; [| done]. simpl. by repeat case_bool_decide.
  - rewrite list_lookup_alter_ne by done. rewrite removeChildren_lookup.
    destruct (doc !! m) as [e |]; [| done]. simpl. by repeat case_bool_decide.
Qed.

Lemma getAttribute_setTextContent n text doc m name :
  setTextContent n text doc !! m ≫= getAttribute name
  = doc !! m ≫= getAttribute name.
Proof.
  pose proof (setTextContent_attributes n text doc m) as H.
  unfold getAttribute.
  destruct (setTextContent n text doc !! m) as [e' |], (doc !! m) as [e |];
    simplify_eq/=; congruence.
Qed.

Lemma themeClick_run w toggle :
  document w <> [] ->
  themeClick toggle w =
    (set_document
       (setTextContent toggle (themeLabel (flipTheme (theme w)))
          (modifyNode 0%nat (setAttribute "data-theme" (flipTheme (theme w)))
             (document w)))
       (set_localStorage
          (<["veloura-theme"%string := flipTheme (theme w)]> (localStorage w))
          w),
     Ok tt).
Proof.
  intros Hdoc. destruct w as [doc ? ? ? ? ? ? ? ? ? ? ? ?]. simpl in Hdoc.
  destruct doc as [| e0 rest]; [done |]. reflexivity.
Qed.

Lemma themeClick_effect w toggle :
  document w <> [] ->
  let w' := run (ThemeClick toggle) w in
  theme w' = Some (flipTheme (theme w))
  /\ preference w' = Some (flipTheme (theme w))
  /\ document w' <> [].
Proof.
  intros Hdoc. unfold run, call. rewrite (themeClick_run w toggle Hdoc).
  simpl. repeat split.
  - unfold theme at 1, attributeOf. simpl.
    rewrite getAttribute_setTextContent. unfold modifyNode.
    rewrite list_lookup_alter_eq.
    destruct (document w) as [| e0 rest]; [done |]. simpl.
    unfold getAttribute, setAttribute. simpl. by rewrite lookup_insert_eq.
  - unfold preference. simpl. by rewrite lookup_insert_eq.
  - intros H%(f_equal List.length).
    unfold modifyNode in H. rewrite setTextContent_length, length_alter in H.
    destruct (document w); [done | simpl in H; lia].
Qed.

Lemma flipTheme_twice t :
  t = Some (str "dark") \/ t = Some (str "light") ->
  Some (flipTheme (Some (flipTheme t))) = t.
Proof. intros [-> | ->]; reflexivity. Qed.

(** C2, as the script behaves.  When the root's theme attribute is [dark] or
    [light], two clicks on the toggle return the attribute to its value and
    leave the stored preference equal to that value; the stored preference
    is therefore back at its own original value when it agreed with the
    attribute before the clicks. *)
Theorem theme_toggle_twice (w : World) (toggle : NodeId) :
  theme w = Some (str "dark") \/ theme w = Some (str "light") ->
  let w2 := run (ThemeClick toggle) (run (ThemeClick toggle) w) in
  theme w2 = theme w
  /\ preference w2 = theme w
  /\ (preference w = theme w -> preference w2 = preference w).
Proof.
  intros Ht w2.
  assert (Hdoc : document w <> []).
  { intros Hd. unfold theme, attributeOf in Ht. rewrite Hd in Ht.
    by destruct Ht. }
  destruct (themeClick_effect w toggle Hdoc) as (H1 & _ & Hdoc1).
  destruct (themeClick_effect _ toggle Hdoc1) as (H2 & H3 & _).
  fold w2 in H2, H3. rewrite H1 in H2, H3.
  rewrite (flipTheme_twice _ Ht) in H2, H3.
  split; [exact H2 |]. split; [exact H3 |]. intros ->. exact H3.
Qed.

Lemma theme_toggle_twice_witness :
  let w := started (load themePage {[ "veloura-theme"%string := str "dark" ]}
                      false (constantClock 0)) in
  let w2 := run (ThemeClick 1%nat) (run (ThemeClick 1%nat) w) in
  theme w2 = Some (str "dark") /\ preference w2 = Some (str "dark").
Proof.
  intros w w2.
  destruct (theme_toggle_twice w 1%nat) as (H1 & H2 & _).
  - left. vm_compute. reflexivity.
  - split; [exact H1 | exact H2].
Defined.

(** C2 as stated fails: on a page loaded with no stored preference (and a
    light system scheme) two clicks on the toggle leave the root's theme at
    [light], where it was, but the preference, absent before, is [light]. *)
Lemma theme_toggle_twice_stores_a_preference :
  let w := started (load themePage ∅ false (constantClock 0)) in
  let w2 := after w [Click 1%nat; Click 1%nat] in
  theme w = Some (str "light") /\ preference w = None
  /\ theme w2 = Some (str "light") /\ preference w2 = Some (str "light").
Proof. vm_compute. repeat split; reflexivity. Qed.

(** *** The carousel *)

Lemma update_framed s r c : keeps (framed s r) (update c).
Proof. keeps_all framed_leaf. Qed.

Lemma goToSlide_effect c i w :
  let w' := fst (goToSlide c i w) in
  let n := Z.of_nat (List.length (slides c)) in
  index w' = int_rem (int_add i n) n /\ registered w' = registered w.
Proof.
  unfold goToSlide, bind, modify. simpl.
  match goal with |- context [update c ?w1] => set (w1' := w1) end.
  destruct (update_framed (state w1') (registered w1') c w1') as [Hs Hr];
    [by split |].
  destruct (update c w1') as [w2 [[] | e]]; simpl in *;
    unfold index; rewrite Hs; split; auto.
Qed.

(** C4, as the script behaves.  On a track of [n >= 1] slides,
    [goToSlide(k)] for an integer [k] with [-n <= k] and with [k + n] a safe
    integer (at most [2^53 - 1], so that the sum [index + slides.length] is
    exact) sets the testimonial index to [k] modulo [n], a number in
    [[0, n)]; so on three slides [goToSlide(-1)] gives 2 and [goToSlide(3)]
    gives 0. *)
Theorem goToSlide_wraps (c : Carousel) (k : Z) (w : World) :
  let n := Z.of_nat (List.length (slides c)) in
  1 <= n ->
  - n <= k ->
  k + n <= MAX_SAFE_INTEGER ->
  index (fst (goToSlide c (Int k) w)) = Int (k mod n)
  /\ 0 <= k mod n < n.
Proof.
  intros n Hn Hk _. destruct (goToSlide_effect c (Int k) w) as [Hi _].
  rewrite Hi. fold n. simpl.
  destruct (n =? 0) eqn:E; [lia |].
  split; [| apply Z.mod_pos_bound; lia].
  f_equal. rewrite Z.rem_mod_nonneg by lia.
  rewrite <- (Z.mul_1_l n) at 1. apply Z.mod_add. lia.
Qed.

Lemma goToSlide_wraps_witness :
  let w := started (load carouselPage ∅ false (constantClock 0)) in
  index (fst (goToSlide threeSlides (Int (-1)) w)) = Int 2
  /\ index (fst (goToSlide threeSlides (Int 3) w)) = Int 0.
Proof.
  intros w. split.
  - apply (goToSlide_wraps threeSlides (-1) w);
      unfold MAX_SAFE_INTEGER; simpl; lia.
  - apply (goToSlide_wraps threeSlides 3 w);
      unfold MAX_SAFE_INTEGER; simpl; lia.
Defined.

(** C4 as stated fails below [-n]: on three slides [goToSlide(-4)] leaves
    the index at -1, outside [[0, 3)], where the wrap of -4 is 2. *)
Lemma goToSlide_below_minus_n :
  let w := started (load carouselPage ∅ false (constantClock 0)) in
  Next threeSlides ∈ registered w
  /\ index (fst (goToSlide threeSlides (Int (-4)) w)) = Int (-1)
  /\ (-4) mod 3 = 2.
Proof. vm_compute. repeat split. apply list_elem_of_In. vm_compute. tauto. Qed.

(** The registry only ever holds non-carousel callbacks until
    [initTestimonials] runs, and afterwards the callbacks of one carousel. *)

Lemma beforeCarousel_inv n w : beforeCarousel w -> carouselInv n w.
Proof.
  intros [Hr Hi]. split.
  - eapply Forall_impl; [exact Hr |]. by intros [].
  - intros Hn. exists 0. split; [exact Hi | lia].
Qed.

Lemma syncBadges_before : keeps beforeCarousel syncBadges.
Proof. keeps_all ltac:(registry_state_leaf registered index). Qed.

Lemma initTheme_before : keeps beforeCarousel initTheme.
Proof. keeps_all ltac:(registry_state_leaf registered index). Qed.

Lemma initHeadlineSplit_before : keeps beforeCarousel initHeadlineSplit.
Proof. keeps_all ltac:(registry_state_leaf registered index). Qed.

Lemma initParallax_before : keeps beforeCarousel initParallax.
Proof. keeps_all ltac:(registry_state_leaf registered index). Qed.

Lemma initReveal_before : keeps beforeCarousel initReveal.
Proof. keeps_all ltac:(registry_state_leaf registered index). Qed.

Lemma initTabs_before : keeps beforeCarousel initTabs.
Proof. keeps_all ltac:(registry_state_leaf registered index). Qed.

Lemma initCountdown_before : keeps beforeCarousel initCountdown.
Proof. keeps_all ltac:(registry_state_leaf registered index). Qed.

Lemma initTestimonials_establishes :
  hoare beforeCarousel initTestimonials (fun _ w => exists n, carouselInv n w).
Proof.
  unfold initTestimonials, document_querySelector.
  eapply hoare_bind with (R := fun _ => beforeCarousel);
    [apply keeps_gets | | intros e w H; exists 1%nat; by apply beforeCarousel_inv].
  intros track.
  eapply hoare_bind with (R := fun _ => beforeCarousel);
    [apply keeps_gets | | intros e w H; exists 1%nat; by apply beforeCarousel_inv].
  intros dots.
  destruct track as [track |], dots as [dots |];
    try (intros w H; exists 1%nat; by apply beforeCarousel_inv).
  eapply hoare_bind with (R := fun _ => beforeCarousel);
    [apply keeps_gets | | intros e w H; exists 1%nat; by apply beforeCarousel_inv].
  intros slides.
  eapply hoare_weaken with (P' := carouselInv (List.length slides))
                           (Q' := fun _ => carouselInv (List.length slides)).
  - keeps_all ltac:(registry_state_leaf registered index).
  - intros w. apply beforeCarousel_inv.
  - intros _ w H. by exists (List.length slides).
Qed.

Lemma initBackToTop_carousel n : keeps (carouselInv n) initBackToTop.
Proof. keeps_all ltac:(registry_state_leaf registered index). Qed.

Lemma initArrivalSkeleton_carousel n : keeps (carouselInv n) initArrivalSkeleton.
Proof. keeps_all ltac:(registry_state_leaf registered index). Qed.

Lemma keeps_exists {A X} (I : X -> World -> Prop) (m : M A) :
  (forall x, keeps (I x) m) -> keeps (fun w => exists x, I x w) m.
Proof. intros H w [x Hx]. exists x. by apply H. Qed.

Lemma init_establishes :
  hoare beforeCarousel init (fun _ w => exists n, carouselInv n w).
Proof.
  assert (Hex : forall (e : Error) w,
             beforeCarousel w -> exists n, carouselInv n w).
  { intros _ w H. exists 1%nat. by apply beforeCarousel_inv. }
  unfold init.
  eapply hoare_bind with (R := fun _ => beforeCarousel);
    [apply syncBadges_before | intros [] | exact Hex].
  eapply hoare_bind with (R := fun _ => beforeCarousel);
    [apply initTheme_before | intros [] | exact Hex].
  eapply hoare_bind with (R := fun _ => beforeCarousel);
    [apply initHeadlineSplit_before | intros [] | exact Hex].
  eapply hoare_bind with (R := fun _ => beforeCarousel);
    [apply initParallax_before | intros [] | exact Hex].
  eapply hoare_bind with (R := fun _ => beforeCarousel);
    [apply initReveal_before | intros [] | exact Hex].
  eapply hoare_bind with (R := fun _ => beforeCarousel);
    [apply initTabs_before | intros [] | exact Hex].
  eapply hoare_bind with (R := fun _ => beforeCarousel);
    [apply initCountdown_before | intros [] | exact Hex].
  eapply hoare_bind with (R := fun _ w => exists n, carouselInv n w);
    [apply initTestimonials_establishes | intros [] | auto].
  apply keeps_bind.
  - apply keeps_exists. apply initBackToTop_carousel.
  - intros []. apply keeps_exists. apply initArrivalSkeleton_carousel.
Qed.

Lemma started_carousel doc storage dark time :
  exists n, carouselInv n (started (load doc storage dark time)).
Proof.
  apply (init_establishes (load doc storage dark time)).
  split; [constructor | reflexivity].
Qed.

(** Every registered callback keeps the carousel invariant. *)

Lemma wrap_inRange (n : nat) (k : Z) :
  (1 <= n)%nat -> - Z.of_nat n <= k ->
  int_rem (int_add (Int k) (Z.of_nat n)) (Z.of_nat n) = Int (k mod Z.of_nat n)
  /\ inRange n (Int (k mod Z.of_nat n)).
Proof.
  intros Hn Hk. simpl. destruct (Z.of_nat n =? 0) eqn:E; [lia |].
  split.
  - f_equal. rewrite Z.rem_mod_nonneg by lia.
    rewrite <- (Z.mul_1_l (Z.of_nat n)) at 1. apply Z.mod_add. lia.
  - eexists. split; [reflexivity |]. apply Z.mod_pos_bound. lia.
Qed.

Lemma goToSlide_carousel n c k w :
  List.length (slides c) = n ->
  ((1 <= n)%nat -> - Z.of_nat n <= k) ->
  carouselInv n w ->
  carouselInv n (fst (goToSlide c (Int k) w)).
Proof.
  intros Hc Hk [Hr Hi]. destruct (goToSlide_effect c (Int k) w) as [Hi' Hr'].
  split; [by rewrite Hr' |].
  intros Hn. rewrite Hi', Hc.
  destruct (wrap_inRange n k Hn (Hk Hn)) as [-> H]. exact H.
Qed.

Lemma call_carousel n cb entries :
  carouselCallback n cb -> keeps (carouselInv n) (call cb entries).
Proof.
  intros Hcb. destruct cb; try solve [keeps_all ltac:(registry_state_leaf registered index)].
  - (* a dot *)
    destruct Hcb as [Hc Hi]. intros w H. simpl.
    apply goToSlide_carousel; [done | lia | done].
  - (* previous *)
    intros w H. simpl. unfold prevClick, bind, gets. simpl.
    destruct (decide (1 <= n)%nat) as [Hn |].
    + destruct H as [Hr Hi]. destruct (Hi Hn) as (z & Hz & Hz').
      unfold index in Hz. rewrite Hz. simpl.
      apply goToSlide_carousel; [done | lia | by split].
    + destruct (testimonialIndex (state w)) as [z |] eqn:Hz.
      * apply goToSlide_carousel; [done | lia | done].
      * destruct (goToSlide_effect c (int_add NaN (-1)) w) as [_ Hr'].
        split; [rewrite Hr'; apply H | lia].
  - (* next *)
    intros w H. simpl. unfold next, bind, gets. simpl.
    destruct (decide (1 <= n)%nat) as [Hn |].
    + destruct H as [Hr Hi]. destruct (Hi Hn) as (z & Hz & Hz').
      unfold index in Hz. rewrite Hz. simpl.
      apply goToSlide_carousel; [done | lia | by split].
    + destruct (testimonialIndex (state w)) as [z |] eqn:Hz.
      * apply goToSlide_carousel; [done | lia | done].
      * destruct (goToSlide_effect c (int_add NaN 1) w) as [_ Hr'].
        split; [rewrite Hr'; apply H | lia].
Qed.

Lemma step_carousel n w ev :
  carouselInv n w -> carouselInv n (step w ev).
Proof.
  intros H. pose proof H as [Hr Hi]. rewrite Forall_forall in Hr.
  apply step_keeps; [| | | | exact H].
  - intros cb entries w' Hcb. apply call_carousel, Hr, Hcb.
  - intros y _. split; [apply Forall_forall, Hr | exact Hi].
  - intros i _. split; [| exact Hi].
    apply Forall_forall. intros cb Hcb. apply registered_elem in Hcb.
    simpl in Hcb. rewrite list_fmap_delete in Hcb.
    apply Hr, registered_elem.
    destruct Hcb as [? | [? | [? | [? | [Hcb | ?]]]]]; auto 10.
    apply list_elem_of_delete_inv in Hcb. tauto.
  - intros _. split; [| exact Hi].
    apply Forall_forall. intros cb Hcb. apply registered_elem in Hcb.
    simpl in Hcb. apply Hr, registered_elem.
    destruct Hcb as [? | [? | [? | [? | [? | Hcb]]]]]; auto 10.
    by apply elem_of_nil in Hcb.
Qed.

Lemma after_carousel n w events :
  carouselInv n w -> carouselInv n (after w events).
Proof.
  revert w. induction events as [| ev events IH]; intros w H.
  - exact H.
  - apply IH. by apply step_carousel.
Qed.

(** C7.  On a loaded page, after its start and any events (clicks on dots
    and on the previous and next controls among them), a firing of the
    autoplay timer of a carousel of [n >= 1] slides finds the index at a
    slide [i] and leaves it at [(i + 1) mod n]. *)
Theorem autoplay_advances_by_one
    (doc : Document) (storage : gmap string jsstring) (dark : bool)
    (time : nat -> Z) (events : list Event)
    (timer : nat) (c : Carousel) (delay : Z) :
  let w := after (started (load doc storage dark time)) events in
  let n := Z.of_nat (List.length (slides c)) in
  intervals w !! timer = Some (Next c, delay) ->
  1 <= n ->
  exists i, index w = Int i /\ 0 <= i < n
            /\ index (step w (IntervalFires timer)) = Int ((i + 1) mod n).
Proof.
  intros w n Htimer Hn.
  destruct (started_carousel doc storage dark time) as [m Hm].
  apply (after_carousel m _ events) in Hm. fold w in Hm.
  destruct Hm as [Hr Hi].
  assert (Hc : List.length (slides c) = m).
  { rewrite Forall_forall in Hr. apply (Hr (Next c)), registered_elem.
    apply registered_lookup in Htimer. tauto. }
  destruct (Hi ltac:(lia)) as (i & Hidx & Hrange).
  exists i. split; [exact Hidx |]. split; [lia |].
  simpl. rewrite Htimer. unfold run. simpl. unfold next, bind, gets. simpl.
  destruct (goToSlide_effect c (int_add (testimonialIndex (state w)) 1) w)
    as [Hi' _].
  rewrite Hi'. fold (index w). rewrite Hidx. simpl. fold n.
  destruct (n =? 0) eqn:E; [lia |]. f_equal.
  rewrite Z.rem_mod_nonneg by lia.
  rewrite <- (Z.mul_1_l n) at 1. apply Z.mod_add. lia.
Qed.

Lemma autoplay_advances_witness :
  let w := after (started (load carouselPage ∅ false (constantClock 0)))
                 [Click 6%nat; Click 9%nat] in
  exists i, index w = Int i /\ 0 <= i < 3
            /\ index (step w (IntervalFires 0)) = Int ((i + 1) mod 3).
Proof.
  apply (autoplay_advances_by_one carouselPage ∅ false (constantClock 0)
           [Click 6%nat; Click 9%nat] 0%nat threeSlides 5000).
  - vm_compute. reflexivity.
  - simpl. lia.
Defined.

(** *** The countdown *)

(** The displayed components, in integer arithmetic. *)

Lemma floor_rem_eq (r d m : Z) :
  0 < d -> 0 < m ->
  (r + - (m * Z.quot r (d * m)) * d) / d = r / d - m * Z.quot r (d * m).
Proof. intros Hd Hm. rewrite Z.div_add by lia. lia. Qed.

Lemma daysOf_div r : daysOf r = r / 86400000.
Proof.
  unfold daysOf, Qfloor. simpl. rewrite Z.mul_1_r. reflexivity.
Qed.

Lemma hoursOf_eq r : hoursOf r = r / 3600000 - 24 * Z.quot r (3600000 * 24).
Proof.
  unfold hoursOf, Qrem, Qtrunc, Qfloor. simpl. rewrite !Z.mul_1_r.
  exact (floor_rem_eq r 3600000 24 ltac:(lia) ltac:(lia)).
Qed.

Lemma minutesOf_eq r : minutesOf r = r / 60000 - 60 * Z.quot r (60000 * 60).
Proof.
  unfold minutesOf, Qrem, Qtrunc, Qfloor. simpl. rewrite !Z.mul_1_r.
  exact (floor_rem_eq r 60000 60 ltac:(lia) ltac:(lia)).
Qed.

Lemma secondsOf_eq r : secondsOf r = r / 1000 - 60 * Z.quot r (1000 * 60).
Proof.
  unfold secondsOf, Qrem, Qtrunc, Qfloor. simpl. rewrite !Z.mul_1_r.
  exact (floor_rem_eq r 1000 60 ltac:(lia) ltac:(lia)).
Qed.

Lemma wrapped_component (r d m : Z) :
  0 <= r -> 0 < d -> 0 < m ->
  r / d - m * Z.quot r (d * m) = (r / d) mod m.
Proof.
  intros Hr Hd Hm. rewrite Z.quot_div_nonneg by lia.
  rewrite <- Z.div_div by lia. rewrite (Z.mod_eq (r / d) m) by lia. lia.
Qed.

(** While time remains, no component is negative and the wrapped ones stay
    below their modulus. *)
Lemma components_of_remaining_time r :
  0 <= r ->
  0 <= daysOf r
  /\ 0 <= hoursOf r < 24
  /\ 0 <= minutesOf r < 60
  /\ 0 <= secondsOf r < 60.
Proof.
  intros Hr. rewrite daysOf_div, hoursOf_eq, minutesOf_eq, secondsOf_eq.
  rewrite !wrapped_component by lia.
  split; [apply Z.div_pos; lia |].
  repeat split; apply Z.mod_pos_bound; lia.
Qed.

(** A fresh window of three days shows 03, 00, 00, 00. *)
Lemma components_of_three_days :
  pad (daysOf threeDays) = str "03" /\ pad (hoursOf threeDays) = str "00"
  /\ pad (minutesOf threeDays) = str "00"
  /\ pad (secondsOf threeDays) = str "00".
Proof. vm_compute. repeat split; reflexivity. Qed.

(** A tick first settles the target, then reads the clock once more and
    writes the four fields. *)
Lemma tick_decomposed w :
  exists w1,
    tick w = showRemaining (remainingAtTick w) w1
    /\ countdownTarget (state w1) = targetAfterTick w
    /\ testimonialIndex (state w1) = testimonialIndex (state w)
    /\ document w1 = document w.
Proof.
  unfold tick, remainingAtTick, targetAfterTick, rebases.
  cbv [bind gets now modify ret]. simpl.
  destruct (default 0 (countdownTarget (state w)) - clock w (reads w) <=? 0);
    simpl; eexists; (split; [reflexivity |]); simpl; auto.
Qed.

Lemma showRemaining_framed s r remaining :
  keeps (framed s r) (showRemaining remaining).
Proof. unfold showRemaining. keeps_all framed_leaf. Qed.

(** The part of C3 that holds at every tick: when the time remaining at the
    start of the tick is at most 0, the tick sets the target to exactly
    three days after the clock's next reading; otherwise it keeps it. *)
Lemma tick_target w :
  countdownTarget (state (fst (tick w))) = targetAfterTick w.
Proof.
  destruct (tick_decomposed w) as (w1 & -> & Ht & _).
  destruct (showRemaining_framed (state w1) (registered w1)
              (remainingAtTick w) w1) as [-> _]; [by split | exact Ht].
Qed.

(** With a clock that stands still during the tick, the time remaining is
    positive, so no field is negative, and the target the tick leaves is
    ahead of the clock. *)
Lemma tick_with_steady_clock w t target :
  countdownTarget (state w) = Some target ->
  (forall k, (reads w <= k)%nat -> clock w k = t) ->
  exists target',
    countdownTarget (state (fst (tick w))) = Some target'
    /\ t < target'
    /\ remainingAtTick w = target' - t
    /\ (target - t <= 0 -> target' = t + threeDays).
Proof.
  intros Ht Hc. rewrite tick_target.
  unfold remainingAtTick, targetAfterTick, rebases.
  rewrite Ht, !Hc by lia. simpl.
  destruct (target - t <=? 0) eqn:E.
  - exists (t + threeDays). rewrite !Hc by lia. simpl.
    unfold threeDays. repeat split; lia.
  - exists target. rewrite !Hc by lia. simpl. repeat split; lia.
Qed.

(** C3 at a tick the clock runs through.  The page starts at time 0 with a
    target three days ahead.  The tick three days later reads the clock
    1 ms before the target, so it keeps the target, and reads it again 1 ms
    after the target to compute what is left: every field then shows -1,
    and the target is behind the clock when the tick ends. *)
Theorem countdown_tick_shows_negative_fields :
  let w := started (load countdownPage ∅ false lateClock) in
  let w' := step w (IntervalFires 0) in
  countdownTarget (state w) = Some threeDays
  /\ textOf w' 1%nat = Some (str "-1")
  /\ textOf w' 2%nat = Some (str "-1")
  /\ textOf w' 3%nat = Some (str "-1")
  /\ textOf w' 4%nat = Some (str "-1")
  /\ countdownTarget (state w') = Some threeDays
  /\ lastReading w' = threeDays + 1.
Proof. vm_compute. repeat split; reflexivity. Qed.

(** *** Tabs *)

Lemma contains_toggle token force e :
  contains token (classList_toggle token force e) = force.
Proof.
  unfold classList_toggle, classList_add, classList_remove.
  destruct force.
  - destruct (contains token e) eqn:E; [exact E |].
    unfold contains. simpl. apply bool_decide_eq_true. set_solver.
  - unfold contains. simpl. apply bool_decide_eq_false.
    rewrite list_elem_of_In, filter_In. intros [_ H].
    by case_bool_decide.
Qed.

Lemma attributes_toggle token force e :
  attributes (classList_toggle token force e) = attributes e.
Proof.
  unfold classList_toggle, classList_add, classList_remove.
  destruct force; [destruct (contains token e) |]; reflexivity.
Qed.




Lemma set_document_same w : set_document (document w) w = w.
Proof. by destruct w. Qed.


Lemma hasClass_contains w n token :
  hasClass w n token <-> contains token <$> document w !! n = Some true.
Proof.
  unfold hasClass, contains. split.
  - intros (e & -> & H). simpl. by rewrite bool_decide_eq_true_2.
  - destruct (document w !! n) as [e |]; [| done]. simpl.
    intros [= H%bool_decide_eq_true]. by exists e.
Qed.





(** The lists a registered tab listener closes over. *)




Lemma forEach_addClick (tabs panels : list NodeId) l i w :
  forEach_from i l
    (fun tab _ => addClickListener tab (TabClick tabs panels tab)) w
  = (set_clickListeners
       (clickListeners w ++ map (fun t => (t, TabClick tabs panels t)) l) w,
     Ok tt).
Proof.
  revert i w. induction l as [| x l IH]; intros i w.
  - simpl. rewrite app_nil_r. by destruct w.
  - simpl. unfold bind at 1, addClickListener at 1, modify at 1.
    rewrite IH. simpl. by rewrite <- app_assoc.
Qed.









(** *** Reveal *)

Lemma hasClass_modifyNode w n m token (g : Element -> Element) :
  (forall e, token ∈ classList e -> token ∈ classList (g e)) ->
  hasClass w n token ->
  hasClass (set_document (modifyNode m g (document w)) w) n token.
Proof.
  intros Hg (e & He & Hin). unfold hasClass, modifyNode. simpl.
  destruct (decide (m = n)) as [-> | Hne].
  - exists (g e). rewrite list_lookup_alter_eq, He. split; [done | by apply Hg].
  - exists e. by rewrite list_lookup_alter_ne.
Qed.

Lemma hasClass_modifyNode_ne w n m token (g : Element -> Element) :
  m <> n ->
  hasClass w n token ->
  hasClass (set_document (modifyNode m g (document w)) w) n token.
Proof.
  intros Hne (e & He & Hin). exists e. unfold modifyNode. simpl.
  by rewrite list_lookup_alter_ne.
Qed.

Lemma hasClass_setTextContent w n m token text :
  hasClass w n token ->
  hasClass (set_document (setTextContent m text (document w)) w) n token.
Proof.
  intros (e & He & Hin). unfold hasClass, setTextContent, modifyNode. simpl.
  destruct (decide (m = n)) as [-> | Hne].
  - rewrite list_lookup_alter_eq, removeChildren_lookup, He. simpl.
    eexists. split; [reflexivity |]. by repeat case_bool_decide.
  - rewrite list_lookup_alter_ne by done. rewrite removeChildren_lookup, He.
    simpl. eexists. split; [reflexivity |]. by repeat case_bool_decide.
Qed.

Lemma classList_add_keeps token token' e :
  token ∈ classList e -> token ∈ classList (classList_add token' e).
Proof.
  unfold classList_add. destruct (contains token' e); [done |].
  simpl. intros H. apply elem_of_app. by left.
Qed.

Lemma classList_remove_keeps token token' e :
  token <> token' ->
  token ∈ classList e -> token ∈ classList (classList_remove token' e).
Proof.
  intros Hne H. unfold classList_remove. simpl.
  rewrite list_elem_of_In, filter_In. split; [by apply list_elem_of_In |].
  by rewrite bool_decide_eq_false_2.
Qed.

Lemma classList_toggle_keeps token token' force e :
  token <> token' ->
  token ∈ classList e -> token ∈ classList (classList_toggle token' force e).
Proof.
  intros Hne H. destruct force; simpl.
  - by apply classList_add_keeps.
  - by apply classList_remove_keeps.
Qed.

Lemma call_keeps_visible n cb entries :
  cb <> BackToTopScroll n ->
  keeps (fun w => hasClass w n visible) (call cb entries).
Proof.
  intros Hcb. destruct cb;
    keeps_all ltac:(
      intros ? ?;
      first
        [ assumption
        | apply hasClass_setTextContent; assumption
        | apply hasClass_modifyNode;
          [ intros ? ?;
            first [ assumption
                  | apply classList_add_keeps; assumption
                  | apply classList_remove_keeps; [done | assumption]
                  | apply classList_toggle_keeps; [done | assumption] ]
          | assumption ]
        | apply hasClass_modifyNode_ne; [congruence | assumption] ]).
Qed.

(** Callbacks register nothing. *)
Lemma call_registeredIn r cb entries :
  keeps (registeredIn r) (call cb entries).
Proof.
  destruct cb;
    keeps_all ltac:(intros ? ?; unfold registeredIn, registered in *; simpl;
                    assumption).
Qed.

Lemma step_registered w ev : registered (step w ev) ⊆ registered w.
Proof.
  change (registeredIn (registered w) (step w ev)).
  apply step_keeps.
  - intros cb entries w' _. apply call_registeredIn.
  - intros y H. exact H.
  - intros i _ cb Hcb. apply registered_elem in Hcb. apply registered_elem.
    simpl in Hcb. rewrite list_fmap_delete in Hcb.
    destruct Hcb as [? | [? | [? | [? | [Hcb | ?]]]]]; auto 10.
    apply list_elem_of_delete_inv in Hcb. tauto.
  - intros _ cb Hcb. apply registered_elem in Hcb. apply registered_elem.
    simpl in Hcb.
    destruct Hcb as [? | [? | [? | [? | [? | Hcb]]]]]; auto 10.
    by apply elem_of_nil in Hcb.
  - intros cb Hcb. exact Hcb.
Qed.

Lemma step_keeps_visible n w ev :
  BackToTopScroll n ∉ registered w ->
  hasClass w n visible -> hasClass (step w ev) n visible.
Proof.
  intros Hn.
  apply (step_keeps (fun w => hasClass w n visible));
    try (intros ? H; exact H); [| intros H; exact H].
  intros cb entries w' Hcb. apply call_keeps_visible. by intros ->.
Qed.

Lemma after_keeps_visible n w events :
  BackToTopScroll n ∉ registered w ->
  hasClass w n visible -> hasClass (after w events) n visible.
Proof.
  revert w. induction events as [| ev events IH]; intros w Hn H; [exact H |].
  simpl. apply IH.
  - intros Hin. apply Hn. exact (step_registered w ev _ Hin).
  - by apply step_keeps_visible.
Qed.

(** Ids are never rewritten. *)

Lemma id_modifyNode w n m v (g : Element -> Element) :
  (forall e, attributes (g e) !! "id"%string = attributes e !! "id"%string) ->
  attributeOf w n "id" = Some v ->
  attributeOf (set_document (modifyNode m g (document w)) w) n "id" = Some v.
Proof.
  intros Hg. unfold attributeOf, modifyNode, getAttribute. simpl.
  destruct (decide (m = n)) as [-> | Hne].
  - rewrite list_lookup_alter_eq. destruct (document w !! n); [| done].
    simpl. by rewrite Hg.
  - by rewrite list_lookup_alter_ne.
Qed.

Lemma id_setTextContent w n m v text :
  attributeOf w n "id" = Some v ->
  attributeOf (set_document (setTextContent m text (document w)) w) n "id"
  = Some v.
Proof.
  unfold attributeOf. simpl. by rewrite getAttribute_setTextContent.
Qed.

Lemma id_appendChild w n v parent child :
  attributeOf w n "id" = Some v ->
  attributeOf (set_document (appendChild parent child (document w)) w) n "id"
  = Some v.
Proof. by apply id_modifyNode. Qed.

Lemma attributes_classList_add token e :
  attributes (classList_add token e) = attributes e.
Proof. unfold classList_add. by destruct (contains token e). Qed.

Lemma call_keeps_ids w0 cb entries : keeps (idsKept w0) (call cb entries).
Proof.
  destruct cb;
    keeps_all ltac:(
      intros ? ?; unfold idsKept in *; intros ? ? ?;
      first
        [ by eauto
        | apply id_setTextContent; by eauto
        | apply id_appendChild; by eauto
        | apply id_modifyNode;
          [ intros ?;
            first [ reflexivity
                  | by rewrite attributes_toggle
                  | by rewrite attributes_classList_add
                  | simpl; by rewrite lookup_insert_ne ]
          | by eauto ] ]).
Qed.

Lemma step_keeps_ids w0 w ev : idsKept w0 w -> idsKept w0 (step w ev).
Proof.
  apply step_keeps.
  - intros cb entries w' _. apply call_keeps_ids.
  - intros y H. exact H.
  - intros i H. exact H.
  - intros H. exact H.
Qed.

(** Until [initBackToTop] runs no back-to-top listener is registered; it
    registers one for the element it found by its id. *)

Lemma noBackToTop_inv w :
  Forall noBackToTop (registered w) -> backToTopInv w.
Proof. intros H. eapply Forall_impl; [exact H |]. by intros []. Qed.

Lemma initBackToTop_establishes :
  hoare (fun w => Forall noBackToTop (registered w)) initBackToTop
        (fun _ => backToTopInv).
Proof.
  intros w H. unfold initBackToTop, document_querySelector, bind, gets.
  simpl.
  destruct (querySelector (document w) (ById (str "back-to-top")))
    as [button |] eqn:E; simpl; [| by apply noBackToTop_inv].
  apply querySelector_spec in E as [_ Hsel].
  unfold backToTopInv, registered in *. simpl.
  rewrite ?map_app, ?Forall_app in *. simpl.
  destruct H as (H1 & H2 & H3 & H4 & H5 & H6).
  repeat split; try (eapply Forall_impl; [eassumption | by intros []]).
  - repeat constructor.
  - repeat constructor. simpl. unfold attributeOf, getAttribute. simpl.
    unfold selects in Hsel. destruct (document w !! button) as [e |]; [| done].
    simpl in *. by apply bool_decide_eq_true in Hsel.
Qed.

Lemma initArrivalSkeleton_backToTop : keeps backToTopInv initArrivalSkeleton.
Proof.
  intros w H. unfold initArrivalSkeleton, document_querySelector, bind, gets.
  simpl.
  destruct (querySelector (document w) (ById (str "arrival-track")));
    simpl; [| exact H].
  unfold backToTopInv, registered in *. simpl.
  rewrite ?map_app, ?Forall_app in *. simpl.
  intuition (repeat constructor; simpl; auto).
Qed.

Lemma started_backToTop doc storage dark time :
  backToTopInv (started (load doc storage dark time)).
Proof.
  assert (H : hoare (fun w => Forall noBackToTop (registered w)) init
                    (fun _ => backToTopInv)).
  { unfold init.
    do 8 (eapply hoare_bind
            with (R := fun _ w => Forall noBackToTop (registered w));
          [ keeps_all ltac:(registry_leaf registered)
          | intros []
          | intros e w; apply noBackToTop_inv ]).
    eapply hoare_bind with (R := fun _ => backToTopInv);
      [apply initBackToTop_establishes | intros [] | auto].
    apply initArrivalSkeleton_backToTop. }
  apply H. constructor.
Qed.

Lemma step_backToTop w ev : backToTopInv w -> backToTopInv (step w ev).
Proof.
  unfold backToTopInv. rewrite !Forall_forall. intros H cb Hcb.
  apply step_registered in Hcb. specialize (H cb Hcb).
  destruct cb; try exact I. simpl in *.
  apply (step_keeps_ids w w ev); [by intros ? ? ? | exact H].
Qed.

Lemma after_backToTop w events : backToTopInv w -> backToTopInv (after w events).
Proof.
  revert w. induction events as [| ev events IH]; intros w H; [exact H |].
  simpl. by apply IH, step_backToTop.
Qed.

(** C8, as the script behaves.  On a loaded page, after its start and any
    events, an element that carries the visibility class and whose id is
    not [back-to-top] still carries the class after any further events:
    nothing but the scroll listener of the back-to-top button removes it. *)
Theorem revealed_stays_revealed
    (doc : Document) (storage : gmap string jsstring) (dark : bool)
    (time : nat -> Z) (before later : list Event) (n : NodeId) :
  let w := after (started (load doc storage dark time)) before in
  hasClass w n visible ->
  attributeOf w n "id" <> Some (str "back-to-top") ->
  hasClass (after w later) n visible.
Proof.
  intros w Hvisible Hid. apply after_keeps_visible; [| exact Hvisible].
  intros Hin.
  pose proof (after_backToTop _ before
                (started_backToTop doc storage dark time)) as Hinv.
  fold w in Hinv. unfold backToTopInv in Hinv. rewrite Forall_forall in Hinv.
  exact (Hid (Hinv _ Hin)).
Qed.

Lemma revealed_stays_revealed_witness :
  let w := after (started (load revealPage ∅ false (constantClock 0)))
                 [Intersect 0 [(1%nat, true)]] in
  hasClass (after w [Scroll 0%float; Intersect 0 [(1%nat, false)];
                     Scroll 900%float; Click 2%nat]) 1%nat visible.
Proof.
  apply (revealed_stays_revealed revealPage ∅ false (constantClock 0)).
  - apply hasClass_contains. vm_compute. reflexivity.
  - vm_compute. congruence.
Defined.

(** C8 as stated fails for an element that is also the back-to-top button:
    observed as a reveal element, it is given the visibility class by the
    intersection callback, and the next scroll event at the top of the page
    takes the class away. *)
Lemma revealed_button_is_hidden_again :
  let w := started (load revealedButtonPage ∅ false (constantClock 0)) in
  let w1 := step w (Intersect 0 [(1%nat, true)]) in
  let w2 := step w1 (Scroll 0%float) in
  observers w = [(RevealObserver, [1%nat])]
  /\ hasClass w1 1%nat visible
  /\ ~ hasClass w2 1%nat visible.
Proof.
  intros w w1 w2. rewrite !hasClass_contains.
  split; [vm_compute; reflexivity |].
  split; vm_compute; congruence.
Qed.

(** *** Reading the storage *)

(** X1.  [loadStorage] never throws and changes nothing.  It returns the
    fallback or the value parsed from the stored text, and it returns the
    fallback whenever the key is absent or its text is not JSON. *)
Theorem loadStorage_never_throws
    (key : string) (fallback : JSValue) (w : World) :
  fst (loadStorage key fallback w) = w
  /\ (exists v, snd (loadStorage key fallback w) = Ok v
        /\ (v = fallback
            \/ exists text, localStorage w !! key = Some text
                            /\ JSON_parse text = Ok v))
  /\ (unusable w key -> snd (loadStorage key fallback w) = Ok fallback).
Proof.
  rewrite loadStorage_run. simpl. split; [reflexivity |]. split.
  - exists (loaded w key fallback). split; [reflexivity |]. unfold loaded.
    destruct (localStorage w !! key) as [[| c text] |]; auto.
    destruct (JSON_parse (c :: text)) eqn:E; eauto.
  - intros H. by rewrite loaded_unusable.
Qed.

Lemma reduce_thrown {A} (f : JSValue -> A -> Result JSValue) items e :
  fold_left (fun acc item => rbind acc (fun sum => f sum item)) items (Throw e)
  = Throw e.
Proof. induction items as [| x items IH]; [reflexivity | exact IH]. Qed.

Lemma reduce_unusable v :
  unusableCart v -> exists e, reduce v addQuantity (VNum zero) = Throw e.
Proof.
  destruct v as [| | | | | items |]; try (by exists TypeError).
  simpl. generalize (Ok (A := JSValue) (VNum zero)).
  induction items as [| x items IH]; intros acc Hin.
  - by apply elem_of_nil in Hin.
  - apply elem_of_cons in Hin as [<- | Hin]; [| by apply IH].
    simpl. destruct acc as [sum | e]; simpl.
    + exists TypeError. apply reduce_thrown.
    + exists e. apply reduce_thrown.
Qed.

(** X2.  When the text stored under [veloura-cart] is JSON but not an
    array, or is an array that holds [null], [cart.reduce] throws outside
    the [try] of [loadStorage]: [init] ends with that exception and the
    page is as it was loaded, nothing applied and nothing registered. *)
Theorem init_aborts_on_unusable_cart
    (w : World) (text : jsstring) (v : JSValue) :
  localStorage w !! "veloura-cart"%string = Some text ->
  JSON_parse text = Ok v ->
  unusableCart v ->
  exists e, init w = (w, Throw e).
Proof.
  intros Hs Hp Hv. destruct (reduce_unusable v Hv) as [e He]. exists e.
  assert (Hl : loaded w "veloura-cart" (VArr []) = v).
  { unfold loaded. rewrite Hs. destruct text; [by vm_compute in Hp |].
    by rewrite Hp. }
  unfold init, syncBadges.
  unfold bind at 1. unfold bind at 1. rewrite loadStorage_run.
  unfold bind at 1. rewrite loadStorage_run.
  unfold bind at 1, lift at 1. by rewrite Hl, He.
Qed.

Lemma init_aborts_witness :
  let w := load badgePage {[ "veloura-cart"%string := str "[null]" ]} true
                (constantClock 0) in
  exists e, init w = (w, Throw e).
Proof.
  intros w.
  apply (init_aborts_on_unusable_cart w (str "[null]") (VArr [VNull])).
  - vm_compute. reflexivity.
  - vm_compute. reflexivity.
  - simpl. left.
Defined.

Lemma dispatch_keeps (I : World -> Prop) cbs w :
  (forall cb w', cb ∈ cbs -> I w' -> I (run cb w')) ->
  I w -> I (dispatch cbs w).
Proof.
  revert w. induction cbs as [| cb cbs IH]; intros w Hcb Hw; [exact Hw |].
  simpl. apply IH.
  - intros cb' w' Hin. apply Hcb. by right.
  - apply Hcb; [by left | exact Hw].
Qed.

Lemma init_keeps_unclicked s :
  keeps (fun w => Forall noThemeClick (unclicked w) /\ localStorage w = s)
        init.
Proof.
  keeps_all ltac:(
    intros ? [? ?]; split;
    [ unfold unclicked in *; simpl;
      rewrite ?map_app, ?Forall_app in *; simpl;
      intuition (repeat constructor; simpl; auto)
    | simpl; assumption ]).
Qed.

Lemma call_keeps_unclicked r cb entries :
  keeps (fun w => unclicked w = r) (call cb entries).
Proof.
  destruct cb;
    keeps_all ltac:(intros ? ?; unfold unclicked in *; simpl; assumption).
Qed.

Lemma call_keeps_localStorage s cb entries :
  noThemeClick cb ->
  keeps (fun w => localStorage w = s) (call cb entries).
Proof.
  intros Hcb. destruct cb; try done;
    keeps_all ltac:(intros ? ?; simpl; assumption).
Qed.

Lemma step_keeps_unclicked w ev :
  Forall noThemeClick (unclicked w) ->
  Forall noThemeClick (unclicked (step w ev)).
Proof.
  apply (step_keeps (fun w' => Forall noThemeClick (unclicked w'))).
  - intros cb entries w' _ H.
    by rewrite (call_keeps_unclicked (unclicked w') cb entries w').
  - intros y H. exact H.
  - intros i. unfold unclicked. simpl.
    rewrite !Forall_app, list_fmap_delete. intuition. by apply Forall_delete.
  - unfold unclicked. simpl. rewrite !Forall_app. intuition.
Qed.

Lemma after_keeps_unclicked w events :
  Forall noThemeClick (unclicked w) ->
  Forall noThemeClick (unclicked (after w events)).
Proof.
  revert w. induction events as [| ev events IH]; intros w H; [exact H |].
  simpl. by apply IH, step_keeps_unclicked.
Qed.

Lemma step_keeps_localStorage w ev :
  Forall noThemeClick (unclicked w) ->
  (forall target, ev <> Click target) ->
  localStorage (step w ev) = localStorage w.
Proof.
  unfold unclicked. rewrite !Forall_app, !Forall_forall.
  intros (Hs & Ho & Hi & Ht & Hf) Hev.
  destruct ev as [target | y | observer entries | timer | timer |]; simpl.
  - by destruct (Hev target).
  - apply (dispatch_keeps (fun w' => localStorage w' = localStorage w));
      [| reflexivity].
    intros cb w' Hcb. apply call_keeps_localStorage, Hs, Hcb.
  - destruct (observers w !! observer) as [[cb targets] |] eqn:E; [| done].
    apply (call_keeps_localStorage (localStorage w)); [| reflexivity].
    apply Ho. by apply registered_lookup in E.
  - destruct (intervals w !! timer) as [[cb d] |] eqn:E; [| done].
    apply (call_keeps_localStorage (localStorage w)); [| reflexivity].
    apply Hi. by apply registered_lookup in E.
  - destruct (timeouts w !! timer) as [[cb d] |] eqn:E; [| done].
    apply (call_keeps_localStorage (localStorage w)); [| reflexivity].
    apply Ht. by apply registered_lookup in E.
  - apply (dispatch_keeps (fun w' => localStorage w' = localStorage w));
      [| reflexivity].
    intros cb w' Hcb. apply call_keeps_localStorage, Hf, Hcb.
Qed.

(** X3.  [init] writes nothing to [localStorage], the theme
    preference included, and after the start no scroll, intersection,
    timer or animation-frame event changes [localStorage]: only a click
    can. *)
Theorem storage_is_written_only_by_clicks
    (doc : Document) (storage : gmap string jsstring) (dark : bool)
    (time : nat -> Z) :
  let w0 := started (load doc storage dark time) in
  localStorage w0 = storage
  /\ forall (events : list Event) (ev : Event),
       (forall target, ev <> Click target) ->
       localStorage (step (after w0 events) ev)
       = localStorage (after w0 events).
Proof.
  intros w0.
  destruct (init_keeps_unclicked storage (load doc storage dark time))
    as [Hr Hs]; [split; [constructor | reflexivity] |].
  split; [exact Hs |].
  intros events ev Hev. apply step_keeps_localStorage; [| exact Hev].
  by apply after_keeps_unclicked.
Qed.

(** *** The theme at load and after a click *)

Lemma initTheme_run w :
  document w <> [] ->
  let doc1 := modifyNode 0%nat (setAttribute "data-theme" (initialTheme w))
                (document w) in
  initTheme w =
    match querySelector (document w) (ById (str "theme-toggle")) with
    | Some t =>
        (set_clickListeners (clickListeners w ++ [(t, ThemeClick t)])
           (set_document
              (setTextContent t (themeLabel (initialTheme w)) doc1) w),
         Ok tt)
    | None => (set_document doc1 w, Ok tt)
    end.
Proof.
  intros Hdoc. unfold initTheme, initialTheme, preference.
  cbv [bind document_querySelector getItem gets documentElement ret mutate
       modify when_found write_text addClickListener].
  destruct (document w) as [| e0 rest] eqn:Ed; [done |].
  destruct (querySelector (e0 :: rest) (ById (str "theme-toggle")));
    destruct (localStorage w !! "veloura-theme"%string) as [[| c text] |];
    simpl; rewrite ?Ed; reflexivity.
Qed.

(** X4.  On a page with a root, [initTheme] sets the root's theme to
    the stored preference when there is a non-empty one and to the system
    scheme otherwise, writes nothing to storage, and, when the page has the
    toggle, labels it with the other theme and registers one click listener
    on it. *)
Theorem initTheme_applies_preference (w : World) :
  document w <> [] ->
  let w' := fst (initTheme w) in
  snd (initTheme w) = Ok tt
  /\ theme w' = Some (initialTheme w)
  /\ localStorage w' = localStorage w
  /\ match querySelector (document w) (ById (str "theme-toggle")) with
     | Some t =>
         textOf w' t = Some (themeLabel (initialTheme w))
         /\ clickListeners w' = clickListeners w ++ [(t, ThemeClick t)]
     | None => clickListeners w' = clickListeners w
     end.
Proof.
  intros Hdoc w'. unfold w'. rewrite (initTheme_run w Hdoc).
  assert (Hroot :
            modifyNode 0%nat (setAttribute "data-theme" (initialTheme w))
              (document w) !! 0%nat ≫= getAttribute "data-theme"
            = Some (initialTheme w)).
  { unfold modifyNode. rewrite list_lookup_alter_eq.
    destruct (document w) as [| e0 rest]; [done |]. simpl.
    unfold getAttribute, setAttribute. simpl. by rewrite lookup_insert_eq. }
  destruct (querySelector (document w) (ById (str "theme-toggle")))
    as [t |] eqn:E; simpl.
  - split; [reflexivity |]. split; [| split; [reflexivity |]].
    + unfold theme, attributeOf. simpl.
      rewrite getAttribute_setTextContent. exact Hroot.
    + split; [| reflexivity]. unfold textOf. simpl.
      apply setTextContent_text_eq. apply querySelector_spec in E as [Hlt _].
      unfold modifyNode. by rewrite length_alter.
  - split; [reflexivity |]. split; [| split; reflexivity].
    unfold theme, attributeOf. simpl. exact Hroot.
Qed.

Lemma initTheme_applies_witness :
  let w := load themePage {[ "veloura-theme"%string := str "dark" ]} false
                (constantClock 0) in
  let w' := fst (initTheme w) in
  theme w' = Some (str "dark")
  /\ textOf w' 1%nat = Some (str "Light")
  /\ clickListeners w' = [(1%nat, ThemeClick 1%nat)].
Proof.
  intros w w'.
  destruct (initTheme_applies_preference w) as (_ & Ht & _ & Hq); [done |].
  change (querySelector (document w) (ById (str "theme-toggle")))
    with (Some 1%nat) in Hq.
  destruct Hq as [Hl Hc]. split; [exact Ht |]. split; [exact Hl | exact Hc].
Defined.

(** X5.  After a click on the theme toggle the root's theme is [dark]
    or [light], it is [light] exactly when it was [dark] before, the stored
    preference equals it, and the toggle (when it is a node of the page) is
    labelled with the other theme. *)
Theorem theme_click_stores_what_it_shows (w : World) (toggle : NodeId) :
  document w <> [] ->
  let w' := run (ThemeClick toggle) w in
  (theme w' = Some (str "dark") \/ theme w' = Some (str "light"))
  /\ (theme w' = Some (str "light") <-> theme w = Some (str "dark"))
  /\ preference w' = theme w'
  /\ ((toggle < List.length (document w))%nat ->
      textOf w' toggle
      = Some (if bool_decide (theme w' = Some (str "dark"))
              then str "Light" else str "Dark")).
Proof.
  intros Hdoc w'.
  destruct (themeClick_effect w toggle Hdoc) as (Ht & Hp & _).
  fold w' in Ht, Hp. rewrite Hp, Ht. unfold flipTheme.
  split; [case_bool_decide; auto |].
  split; [case_bool_decide; split; (done || congruence) |].
  split; [reflexivity |].
  intros Hlt. unfold w', run, call. rewrite (themeClick_run w toggle Hdoc).
  unfold textOf. simpl. rewrite setTextContent_text_eq.
  - unfold themeLabel, flipTheme. by repeat case_bool_decide.
  - unfold modifyNode. by rewrite length_alter.
Qed.

Lemma theme_click_witness :
  let w := started (load themePage ∅ true (constantClock 0)) in
  let w' := run (ThemeClick 1%nat) w in
  theme w = Some (str "dark")
  /\ theme w' = Some (str "light")
  /\ preference w' = Some (str "light")
  /\ textOf w' 1%nat = Some (str "Dark").
Proof.
  intros w w'.
  destruct (theme_click_stores_what_it_shows w 1%nat) as (_ & H2 & H3 & H4);
    [done |].
  assert (Hw : theme w = Some (str "dark")) by (vm_compute; reflexivity).
  apply H2 in Hw as Hw'. fold w' in Hw'.
  split; [exact Hw |]. split; [exact Hw' |].
  split; [exact (eq_trans H3 Hw') |].
  etransitivity; [apply H4; vm_compute; lia |].
  change (run (ThemeClick 1%nat) w) with w'. by rewrite Hw'.
Defined.

(** *** Class tokens *)

Lemma classList_add_elem token token' e :
  token ∈ classList (classList_add token' e)
  <-> token ∈ classList e \/ token = token'.
Proof.
  unfold classList_add, contains. case_bool_decide as H; simpl.
  - split; [by left |]. by intros [? | ->].
  - rewrite elem_of_app, list_elem_of_singleton. tauto.
Qed.

Lemma classList_remove_inv token token' e :
  token ∈ classList (classList_remove token' e) -> token ∈ classList e.
Proof.
  unfold classList_remove. simpl. rewrite !list_elem_of_In, filter_In. tauto.
Qed.

Lemma classList_toggle_inv token token' force e :
  token <> token' ->
  token ∈ classList (classList_toggle token' force e) -> token ∈ classList e.
Proof.
  intros Hne. destruct force; simpl.
  - rewrite classList_add_elem. by intros [H | H].
  - apply classList_remove_inv.
Qed.

Lemma classes_toggle token token' force e :
  token <> token' ->
  contains token (classList_toggle token' force e) = contains token e.
Proof.
  intros Hne. unfold contains. apply bool_decide_ext. split.
  - by apply classList_toggle_inv.
  - by apply classList_toggle_keeps.
Qed.

Lemma style_toggle token force e :
  style (classList_toggle token force e) = style e.
Proof.
  unfold classList_toggle, classList_add, classList_remove.
  destruct force; [destruct (contains token e) |]; reflexivity.
Qed.

Lemma hasClass_add w n m token token' :
  hasClass (set_document (modifyNode m (classList_add token') (document w)) w)
           n token
  <-> hasClass w n token
      \/ (n = m /\ token = token' /\ (n < List.length (document w))%nat).
Proof.
  unfold hasClass, modifyNode. simpl.
  destruct (decide (m = n)) as [-> | Hne].
  - rewrite list_lookup_alter_eq. split.
    + intros (e' & He' & Hin).
      destruct (document w !! n) as [e |] eqn:E; [| done].
      simpl in He'. injection He' as <-.
      apply classList_add_elem in Hin as [Hin | ->]; [left; by exists e |].
      right. split; [done |]. split; [done |].
      by apply lookup_lt_Some in E.
    + intros [(e & He & Hin) | (_ & -> & Hlt)].
      * exists (classList_add token' e). rewrite He. split; [done |].
        apply classList_add_elem. by left.
      * destruct (lookup_lt_is_Some_2 _ _ Hlt) as [e He].
        exists (classList_add token' e). rewrite He. split; [done |].
        apply classList_add_elem. by right.
  - rewrite list_lookup_alter_ne by done. split; [by left |].
    intros [H | (-> & _)]; [exact H | done].
Qed.

Lemma revealEntries_from i (entries : list (NodeId * bool)) w n :
  exists w',
    forEach_from i entries (fun (entry : NodeId * bool) _ =>
      let '(target, isIntersecting) := entry in
      if isIntersecting
      then mutate target (classList_add (str "is-visible"))
      else ret tt) w = (w', Ok tt)
    /\ List.length (document w') = List.length (document w)
    /\ (hasClass w' n visible <->
        hasClass w n visible
        \/ ((n, true) ∈ entries /\ (n < List.length (document w))%nat))
    /\ (forall token, token <> visible ->
          (hasClass w' n token <-> hasClass w n token)).
Proof.
  revert i w. induction entries as [| [t b] entries IH]; intros i w; simpl.
  - exists w. split; [done |]. split; [done |]. split; [| done].
    split; [by left |]. intros [H | [H _]]; [exact H |].
    by apply elem_of_nil in H.
  - destruct b.
    + unfold bind at 1, mutate at 1, modify at 1.
      match goal with |- context [forEach_from _ _ ?f ?w1] =>
        destruct (IH (S i) w1) as (w' & -> & Hl & Hv & Ht) end.
      simpl in Hl, Hv. unfold modifyNode in Hl, Hv at 2.
      rewrite length_alter in Hl, Hv.
      exists w'. split; [done |]. split; [exact Hl |]. split.
      * rewrite Hv, hasClass_add, elem_of_cons.
        split.
        -- intros [[H | (-> & _ & Hlt)] | [Hin Hlt]]; auto.
        -- intros [H | [[[= ->] | Hin] Hlt]]; auto.
      * intros token Hne. rewrite (Ht token Hne), hasClass_add.
        split; [| by left]. by intros [H | (_ & -> & _)].
    + unfold bind at 1, ret at 1.
      destruct (IH (S i) w) as (w' & -> & Hl & Hv & Ht).
      exists w'. split; [done |]. split; [exact Hl |]. split; [| exact Ht].
      rewrite Hv, elem_of_cons. split.
      * intros [H | [Hin Hlt]]; auto.
      * intros [H | [[[=] | Hin] Hlt]]; auto.
Qed.

(** X6.  The intersection callback returns normally; afterwards a node
    carries the visibility class exactly when it carried it before or is an
    existing node reported as intersecting, and every other class of every
    node is as before. *)
Theorem reveal_marks_intersecting_targets
    (entries : list (NodeId * bool)) (w : World) (n : NodeId) :
  let w' := fst (revealEntries entries w) in
  snd (revealEntries entries w) = Ok tt
  /\ (hasClass w' n visible <->
      hasClass w n visible
      \/ ((n, true) ∈ entries /\ (n < List.length (document w))%nat))
  /\ (forall token, token <> visible ->
        (hasClass w' n token <-> hasClass w n token)).
Proof.
  unfold revealEntries, forEach.
  destruct (revealEntries_from 0 entries w n) as (w' & -> & _ & Hv & Ht).
  split; [reflexivity |]. split; [exact Hv | exact Ht].
Qed.

Lemma lacksClass_modifyNode w n m token (g : Element -> Element) :
  (forall e, token ∈ classList (g e) -> token ∈ classList e) ->
  lacksClass n token w ->
  lacksClass n token (set_document (modifyNode m g (document w)) w).
Proof.
  intros Hg H (e' & He' & Hin). apply H. unfold modifyNode in He'.
  simpl in He'. destruct (decide (m = n)) as [-> | Hne].
  - rewrite list_lookup_alter_eq in He'.
    destruct (document w !! n) as [e |] eqn:E; [| done].
    injection He' as <-. exists e. split; [done | by apply Hg].
  - rewrite list_lookup_alter_ne in He' by done. by exists e'.
Qed.

Lemma lacksClass_appendChild w n token parent child :
  lacksClass n token w ->
  lacksClass n token (set_document (appendChild parent child (document w)) w).
Proof. by apply lacksClass_modifyNode. Qed.

Lemma lacksClass_setTextContent w n m token text :
  lacksClass n token w ->
  lacksClass n token (set_document (setTextContent m text (document w)) w).
Proof.
  intros H (e' & He' & Hin). apply H.
  unfold setTextContent, modifyNode in He'. simpl in He'.
  destruct (decide (m = n)) as [-> | Hne].
  - rewrite list_lookup_alter_eq, removeChildren_lookup in He'.
    destruct (document w !! n) as [e |] eqn:E; [| done].
    exists e. split; [done |]. simpl in He'. injection He' as <-.
    revert Hin. by case_bool_decide.
  - rewrite list_lookup_alter_ne, removeChildren_lookup in He' by done.
    destruct (document w !! n) as [e |] eqn:E; [| done].
    exists e. split; [done |]. simpl in He'. injection He' as <-.
    revert Hin. by case_bool_decide.
Qed.

Lemma lacksClass_createElement w n token :
  lacksClass n token w ->
  lacksClass n token (set_document (fst (createElement (document w))) w).
Proof.
  intros H (e' & He' & Hin). apply H. simpl in He'.
  destruct (decide (n < List.length (document w))%nat) as [Hlt | Hge].
  - rewrite lookup_app_l in He' by done. by exists e'.
  - rewrite lookup_app_r in He' by lia.
    destruct (n - List.length (document w))%nat; simpl in He'; [| done].
    injection He' as <-. by apply elem_of_nil in Hin.
Qed.

Lemma script_adds_three_tokens n token :
  token <> str "is-visible" -> token <> str "is-active" ->
  token <> str "dot" ->
  (forall cb entries, keeps (lacksClass n token) (call cb entries))
  /\ keeps (lacksClass n token) init.
Proof.
  intros Hv Ha Hd. split; [intros cb entries; destruct cb |];
    keeps_all ltac:(
      intros ? ?;
      first
        [ assumption
        | apply lacksClass_setTextContent; assumption
        | apply lacksClass_appendChild; assumption
        | apply lacksClass_createElement; assumption
        | apply lacksClass_modifyNode;
          [ intros ?;
            first [ by intros ?
                  | rewrite classList_add_elem; by intros [? | ?]
                  | apply classList_remove_inv
                  | by apply classList_toggle_inv
                  | simpl; rewrite list_elem_of_singleton; by intros ? ]
          | assumption ] ]).
Qed.

Lemma step_keeps_lacksClass n token w ev :
  token <> str "is-visible" -> token <> str "is-active" ->
  token <> str "dot" ->
  lacksClass n token w -> lacksClass n token (step w ev).
Proof.
  intros Hv Ha Hd.
  apply (step_keeps (lacksClass n token));
    try (intros ? H; exact H); [| intros H; exact H].
  intros cb entries w' _. by apply script_adds_three_tokens.
Qed.

Lemma after_keeps_lacksClass n token w events :
  token <> str "is-visible" -> token <> str "is-active" ->
  token <> str "dot" ->
  lacksClass n token w -> lacksClass n token (after w events).
Proof.
  intros Hv Ha Hd. revert w.
  induction events as [| ev events IH]; intros w H; [exact H |].
  simpl. by apply IH, step_keeps_lacksClass.
Qed.

(** X7.  The script adds no class token besides [is-visible],
    [is-active] and [dot]: a node that lacks any other token when the page
    is loaded lacks it after [init] and after every sequence of events. *)
Theorem script_adds_no_other_class
    (w : World) (events : list Event) (n : NodeId) (token : jsstring) :
  token <> str "is-visible" -> token <> str "is-active" ->
  token <> str "dot" ->
  ~ hasClass w n token ->
  ~ hasClass (after (started w) events) n token.
Proof.
  intros Hv Ha Hd H.
  apply (after_keeps_lacksClass n token); try done.
  by apply (script_adds_three_tokens n token Hv Ha Hd).
Qed.

Lemma script_adds_no_other_class_witness :
  ~ hasClass
      (after (started (load revealPage ∅ false (constantClock 0)))
             [Intersect 0 [(1%nat, true)]; Scroll 900%float])
      2%nat (str "reveal").
Proof.
  apply (script_adds_no_other_class
           (load revealPage ∅ false (constantClock 0))); try done.
  rewrite hasClass_contains. vm_compute. congruence.
Defined.

Lemma arrivalTimeout_removes arrivals w :
  lacksClass arrivals (str "is-loading") (fst (arrivalTimeout arrivals w)).
Proof.
  unfold arrivalTimeout, mutate, modify, lacksClass, hasClass, modifyNode.
  cbn [fst document set_document]. intros (e' & He' & Hin).
  rewrite list_lookup_alter_eq in He'.
  destruct (document w !! arrivals) as [e |]; [| done].
  injection He' as <-. unfold classList_remove in Hin. simpl in Hin.
  apply list_elem_of_In, filter_In in Hin as [_ Hin].
  by rewrite bool_decide_eq_true_2 in Hin.
Qed.

(** X8.  When the timeout of the arrivals skeleton fires, the track
    loses [is-loading], and no later event gives it back. *)
Theorem skeleton_is_removed_for_good
    (w : World) (timer : nat) (arrivals : NodeId) (delay : Z)
    (later : list Event) :
  timeouts w !! timer = Some (ArrivalTimeout arrivals, delay) ->
  ~ hasClass (after (step w (TimeoutFires timer)) later) arrivals
             (str "is-loading").
Proof.
  intros Ht. apply (after_keeps_lacksClass arrivals); try done.
  unfold step. rewrite Ht. apply arrivalTimeout_removes.
Qed.

Lemma skeleton_is_removed_witness :
  let w := started (load skeletonPage ∅ false (constantClock 0)) in
  hasClass w 1%nat (str "is-loading")
  /\ ~ hasClass
         (after (step w (TimeoutFires 0))
                [Scroll 10%float; Click 1%nat; AnimationFrame])
         1%nat (str "is-loading").
Proof.
  intros w. split.
  - apply hasClass_contains. vm_compute. reflexivity.
  - apply (skeleton_is_removed_for_good w 0%nat 1%nat 1200).
    vm_compute. reflexivity.
Defined.

(** *** Queries on a changed document *)

(** Queries read the parents, the attributes and the classes only. *)

Lemma reaches_ext doc doc' fuel n anc :
  (forall m, doc' !! m ≫= parentNode = doc !! m ≫= parentNode) ->
  reaches doc' fuel n anc = reaches doc fuel n anc.
Proof.
  intros H. revert n. induction fuel as [| fuel IH]; intros n; simpl.
  - reflexivity.
  - rewrite H. destruct (doc !! n ≫= parentNode); [| reflexivity].
    by rewrite IH.
Qed.

Lemma reaches_refl doc fuel n : reaches doc fuel n n = true.
Proof. destruct fuel; simpl; by rewrite Nat.eqb_refl. Qed.

(** A query by id finds nothing new after a text is written. *)
Lemma reaches_removeChildren n doc fuel m anc :
  reaches (removeChildren n doc) fuel m anc = true ->
  reaches doc fuel m anc = true.
Proof.
  revert m. induction fuel as [| fuel IH]; intros m; simpl; [done |].
  destruct (Nat.eqb m anc); [done |].
  rewrite removeChildren_lookup.
  destruct (doc !! m) as [e |]; simpl; [| done].
  case_bool_decide; simpl; [done |].
  destruct (parentNode e); [apply IH | done].
Qed.

Lemma querySelectorAll_ext doc doc' sel :
  List.length doc' = List.length doc ->
  (forall m, doc' !! m ≫= parentNode = doc !! m ≫= parentNode) ->
  (forall m, selects doc' sel m = selects doc sel m) ->
  querySelectorAll doc' sel = querySelectorAll doc sel.
Proof.
  intros Hl Hp Hs. unfold querySelectorAll, nodes, isConnected.
  rewrite Hl. apply filter_ext. intros m.
  by rewrite Hs, (reaches_ext doc doc' _ _ _ Hp).
Qed.

Lemma querySelectorAllIn_ext doc doc' root sel :
  List.length doc' = List.length doc ->
  (forall m, doc' !! m ≫= parentNode = doc !! m ≫= parentNode) ->
  (forall m, selects doc' sel m = selects doc sel m) ->
  querySelectorAllIn doc' root sel = querySelectorAllIn doc root sel.
Proof.
  intros Hl Hp Hs. unfold querySelectorAllIn, nodes, isDescendant.
  rewrite Hl. apply filter_ext. intros m.
  by rewrite Hs, (reaches_ext doc doc' _ _ _ Hp).
Qed.

Lemma children_ext doc doc' n :
  List.length doc' = List.length doc ->
  (forall m, doc' !! m ≫= parentNode = doc !! m ≫= parentNode) ->
  children doc' n = children doc n.
Proof.
  intros Hl Hp. unfold children, nodes. rewrite Hl. apply filter_ext.
  intros m. by rewrite Hp.
Qed.

Lemma removeChildren_leaf n doc :
  children doc n = [] -> removeChildren n doc = doc.
Proof.
  intros H. apply list_eq. intros i. rewrite removeChildren_lookup.
  destruct (doc !! i) as [e |] eqn:E; [| done]. simpl.
  case_bool_decide as Hp; [| done]. exfalso.
  assert (Hin : i ∈ children doc n).
  { unfold children, nodes. rewrite list_elem_of_In, filter_In, in_seq.
    split; [apply lookup_lt_Some in E; lia |].
    apply bool_decide_eq_true. by rewrite E. }
  rewrite H in Hin. by apply elem_of_nil in Hin.
Qed.

(** Writing the text of an element that holds no element changes no query
    and no child list. *)
Lemma setTextContent_leaf n text doc :
  children doc n = [] ->
  (forall sel, querySelector (setTextContent n text doc) sel
               = querySelector doc sel)
  /\ (forall m, children (setTextContent n text doc) m = children doc m).
Proof.
  intros H. unfold setTextContent, modifyNode.
  rewrite (removeChildren_leaf n doc H).
  assert (Hp : forall m, alter (set_textContent text) n doc !! m ≫= parentNode
                         = doc !! m ≫= parentNode).
  { intros m. destruct (decide (n = m)) as [-> | Hne].
    - rewrite list_lookup_alter_eq. by destruct (doc !! m).
    - by rewrite list_lookup_alter_ne. }
  split.
  - intros sel. unfold querySelector. f_equal.
    apply querySelectorAll_ext; [apply length_alter | exact Hp |].
    intros m. unfold selects. destruct (decide (n = m)) as [-> | Hne].
    + rewrite list_lookup_alter_eq. destruct (doc !! m); [| done].
      by destruct sel.
    + by rewrite list_lookup_alter_ne.
  - intros m. apply children_ext; [apply length_alter | exact Hp].
Qed.

Lemma setTextContent_detaches n text doc m e :
  setTextContent n text doc !! m = Some e -> parentNode e <> Some n.
Proof.
  unfold setTextContent, modifyNode. intros H Hp.
  destruct (decide (n = m)) as [-> | Hne].
  - rewrite list_lookup_alter_eq, removeChildren_lookup in H.
    destruct (doc !! m) as [e0 |]; [| done]. simpl in H.
    injection H as <-. simpl in Hp. by case_bool_decide.
  - rewrite list_lookup_alter_ne, removeChildren_lookup in H by done.
    destruct (doc !! m) as [e0 |]; [| done]. simpl in H.
    injection H as <-. by case_bool_decide.
Qed.

Lemma setTextContent_parent n text doc m e' p :
  setTextContent n text doc !! m = Some e' -> parentNode e' = Some p ->
  exists e, doc !! m = Some e /\ parentNode e = Some p.
Proof.
  unfold setTextContent, modifyNode. intros H Hp.
  destruct (decide (n = m)) as [-> | Hne].
  - rewrite list_lookup_alter_eq, removeChildren_lookup in H.
    destruct (doc !! m) as [e |]; [| done]. simpl in H. injection H as <-.
    exists e. split; [done |]. simpl in Hp. by case_bool_decide.
  - rewrite list_lookup_alter_ne, removeChildren_lookup in H by done.
    destruct (doc !! m) as [e |]; [| done]. simpl in H. injection H as <-.
    exists e. split; [done |]. by case_bool_decide.
Qed.

Lemma setTextContent_finds_nothing_new n text doc id :
  querySelector doc (ById id) = None ->
  querySelector (setTextContent n text doc) (ById id) = None.
Proof.
  unfold querySelector. intros H.
  assert (Hnil : querySelectorAll doc (ById id) = [])
    by (by destruct (querySelectorAll doc (ById id))).
  destruct (querySelectorAll (setTextContent n text doc) (ById id))
    as [| x l] eqn:E; [done |]. exfalso.
  assert (Hx : x ∈ querySelectorAll (setTextContent n text doc) (ById id))
    by (rewrite E; left).
  unfold querySelectorAll, nodes in Hx.
  apply list_elem_of_In, filter_In in Hx as [Hx Hsel].
  rewrite setTextContent_length in Hx. apply andb_prop in Hsel as [Hc Hs].
  assert (Hin : x ∈ querySelectorAll doc (ById id)).
  { unfold querySelectorAll, nodes.
    rewrite list_elem_of_In, filter_In. split; [exact Hx |].
    apply andb_true_intro. split.
    - unfold isConnected in *. rewrite setTextContent_length in Hc.
      apply (reaches_removeChildren n).
      rewrite <- Hc. apply reaches_ext. intros k.
      unfold setTextContent, modifyNode.
      destruct (decide (n = k)) as [-> | Hne].
      + rewrite list_lookup_alter_eq.
        by destruct (removeChildren k doc !! k).
      + by rewrite list_lookup_alter_ne.
    - unfold selects in *.
      pose proof (setTextContent_attributes n text doc x) as Ha.
      destruct (setTextContent n text doc !! x) as [e' |]; [| done].
      destruct (doc !! x) as [e |]; [| done]. simpl in *.
      injection Ha as Ha. by rewrite <- Ha. }
  rewrite Hnil in Hin. by apply elem_of_nil in Hin.
Qed.

Lemma NoDup_List_filter {A} (f : A -> bool) (l : list A) :
  NoDup l -> NoDup (List.filter f l).
Proof.
  induction 1 as [| x l Hx Hl IH]; simpl; [constructor |].
  destruct (f x); [| exact IH]. constructor; [| exact IH].
  rewrite list_elem_of_In, filter_In, <- list_elem_of_In. tauto.
Qed.

Lemma filter_none {A} (f : A -> bool) l :
  (forall x, x ∈ l -> f x = false) -> List.filter f l = [].
Proof.
  induction l as [| x l IH]; intros H; [reflexivity |]. simpl.
  rewrite (H x) by left. apply IH. intros y Hy. apply H. by right.
Qed.

Lemma filter_all {A} (f : A -> bool) l :
  (forall x, x ∈ l -> f x = true) -> List.filter f l = l.
Proof.
  induction l as [| x l IH]; intros H; [reflexivity |]. simpl.
  rewrite (H x) by left. f_equal. apply IH. intros y Hy. apply H. by right.
Qed.

Lemma alter_last {A} (f : A -> A) (l : list A) (x : A) :
  alter f (List.length l) (l ++ [x]) = l ++ [f x].
Proof.
  replace (List.length l) with (List.length l + 0)%nat by lia.
  by rewrite alter_app_r.
Qed.

Lemma set_document_twice d d' w :
  set_document d' (set_document d w) = set_document d' w.
Proof. reflexivity. Qed.

(** *** The headline *)

Lemma split_joins sep s acc :
  concat (map (fun word => word ++ [sep]) (split_from sep s acc))
  = rev acc ++ s ++ [sep].
Proof.
  revert acc. induction s as [| c s IH]; intros acc; simpl.
  - by rewrite app_nil_r.
  - destruct (c =? sep)%N eqn:E.
    + apply N.eqb_eq in E as ->. simpl. rewrite IH. simpl.
      by rewrite <- app_assoc.
    + rewrite IH. simpl. by rewrite <- app_assoc.
Qed.

Lemma split_nonempty sep s acc : (1 <= List.length (split_from sep s acc))%nat.
Proof.
  revert acc. induction s as [| c s IH]; intros acc; simpl; [lia |].
  destruct (c =? sep)%N; simpl; [lia | apply IH].
Qed.

(** One pass of the loop body, on a document of [L] nodes. *)
Lemma splitWord_run title word index w :
  let L := List.length (document w) in
  exists doc1,
    splitWord title word index w
    = (set_animationFrames (animationFrames w ++ [HeadlineFrame L])
         (set_document doc1 w), Ok tt)
    /\ List.length doc1 = S L
    /\ doc1 !! L = Some (headlineSpan title word index)
    /\ (forall n e, document w !! n = Some e ->
          doc1 !! n = Some (if bool_decide (parentNode e = Some L)
                            then set_parentNode None e else e)).
Proof.
  intros L. eexists. split; [| split; [| split]].
  - unfold splitWord.
    cbv [bind new_element write_text mutate modify requestAnimationFrame
         createElement]. simpl. fold L. reflexivity.
  - unfold appendChild, modifyNode.
    rewrite !length_alter, setTextContent_length, length_app. simpl.
    fold L. lia.
  - unfold appendChild, modifyNode, setTextContent, modifyNode.
    rewrite !list_lookup_alter_eq, removeChildren_lookup.
    rewrite lookup_app_r by (fold L; lia). fold L.
    rewrite Nat.sub_diag. reflexivity.
  - intros n e He. assert (Hn : (n < L)%nat) by (by apply lookup_lt_Some in He).
    unfold appendChild, modifyNode, setTextContent, modifyNode.
    rewrite !list_lookup_alter_ne by lia.
    rewrite removeChildren_lookup, lookup_app_l by (fold L; lia).
    by rewrite He.
Qed.

(** The whole loop.  Nodes whose parent exists are left as they are; any
    node keeps its text and is at most detached. *)
Lemma forEach_words title words i w :
  let L := List.length (document w) in
  (title < L)%nat ->
  exists w',
    forEach_from i words (splitWord title) w = (w', Ok tt)
    /\ List.length (document w') = (L + List.length words)%nat
    /\ animationFrames w'
       = animationFrames w
         ++ map HeadlineFrame (seq L (List.length words))
    /\ (forall j word, words !! j = Some word ->
          document w' !! (L + j)%nat
          = Some (headlineSpan title word (i + j)))
    /\ (forall n e, document w !! n = Some e ->
          exists e', document w' !! n = Some e'
                     /\ textContent e' = textContent e
                     /\ (parentNode e' = parentNode e
                         \/ parentNode e' = None))
    /\ (forall n e p, document w !! n = Some e -> parentNode e = Some p ->
          (p < L)%nat -> document w' !! n = Some e).
Proof.
  revert i w. induction words as [| word words IH]; intros i w L Htitle.
  - exists w. simpl. rewrite Nat.add_0_r, app_nil_r.
    repeat split; try done. intros n e He. exists e. auto.
  - simpl. unfold bind at 1.
    destruct (splitWord_run title word i w) as (doc1 & -> & Hl1 & Hnew & Hold).
    fold L in Hl1, Hnew, Hold.
    match goal with |- context [forEach_from _ _ _ ?w1] =>
      destruct (IH (S i) w1) as (w' & -> & Hl & Hf & Hw & Ht & Hk) end.
    { simpl. rewrite Hl1. lia. }
    cbn [document set_animationFrames set_document animationFrames] in *.
    rewrite Hl1 in *.
    exists w'. split; [reflexivity |]. split; [lia |]. split; [| split; [| split]].
    + rewrite Hf, <- app_assoc. reflexivity.
    + intros [| j] word' Hj; simpl in Hj.
      * injection Hj as <-. rewrite !Nat.add_0_r.
        apply (Hk L _ title Hnew); [reflexivity | lia].
      * replace (L + S j)%nat with (S L + j)%nat by lia.
        replace (i + S j)%nat with (S i + j)%nat by lia. by apply Hw.
    + intros n e He. specialize (Hold n e He).
      destruct (Ht n _ Hold) as (e' & He' & Htext & Hp).
      exists e'. split; [exact He' |].
      case_bool_decide; simpl in *.
      * split; [exact Htext |]. right. by destruct Hp.
      * by split.
    + intros n e p He Hp Hlt. specialize (Hold n e He).
      rewrite bool_decide_eq_false_2 in Hold
        by (rewrite Hp; intros [=]; lia).
      by apply (Hk n e p Hold Hp); lia.
Qed.

(** X9.  On a page with a headline marked [data-split='words'] that holds
    text only, [initHeadlineSplit] returns normally and replaces that text
    by one new span per word of its trimmed text, in order (at least one,
    also for an empty text).  The span of a word holds the word followed by
    a space, so the spans read together as the trimmed text and a space;
    each span starts hidden with its own delay, and one animation frame is
    requested per span. *)
Theorem headline_is_split_into_words
    (w : World) (title : NodeId) (text : jsstring) :
  querySelector (document w) (ByAttribute "data-split" (str "words"))
  = Some title ->
  children (document w) title = [] ->
  textOf w title = Some text ->
  let words := split 32 (trim text) in
  let L := List.length (document w) in
  let w' := fst (initHeadlineSplit w) in
  snd (initHeadlineSplit w) = Ok tt
  /\ (1 <= List.length words)%nat
  /\ concat (map (fun word => word ++ str " ") words) = trim text ++ str " "
  /\ textOf w' title = Some []
  /\ children (document w') title = seq L (List.length words)
  /\ (forall j word, words !! j = Some word ->
        document w' !! (L + j)%nat = Some (headlineSpan title word j))
  /\ animationFrames w'
     = animationFrames w ++ map HeadlineFrame (seq L (List.length words)).
Proof.
  intros Hq _ Htext words L w'.
  apply querySelector_spec in Hq as Hlt. destruct Hlt as [Hlt _].
  unfold textOf in Htext.
  destruct (document w !! title) as [e |] eqn:He; [| done].
  injection Htext as Htext.
  set (doc0 := setTextContent title [] (document w)).
  assert (Hl0 : List.length doc0 = L) by apply setTextContent_length.
  destruct (forEach_words title words 0 (set_document doc0 w))
    as (w2 & Hrun & Hl & Hf & Hw & Ht & _).
  { simpl. by rewrite Hl0. }
  cbn [document set_document animationFrames] in Hl, Hf, Hw, Ht.
  rewrite Hl0 in Hl, Hf, Hw.
  assert (Hinit : initHeadlineSplit w = (w2, Ok tt)).
  { unfold initHeadlineSplit.
    unfold bind at 1, document_querySelector at 1, gets at 1. rewrite Hq.
    unfold bind at 1, element at 1, bind at 1, gets at 1. rewrite He.
    unfold ret at 1. unfold bind at 1, write_text at 1, modify at 1.
    rewrite Htext. exact Hrun. }
  unfold w'. rewrite Hinit. cbn [fst snd].
  split; [reflexivity |]. split; [apply split_nonempty |].
  split; [exact (split_joins 32 (trim text) []) |].
  split; [| split; [| split; [exact Hw | exact Hf]]].
  - destruct (lookup_lt_is_Some_2 doc0 title ltac:(by rewrite Hl0))
      as [e0 He0].
    destruct (Ht title e0 He0) as (e' & He' & Hte & _).
    unfold textOf. rewrite He'. simpl. rewrite Hte.
    pose proof (setTextContent_text_eq title [] (document w) Hlt) as H.
    fold doc0 in H. rewrite He0 in H. by injection H as ->.
  - unfold children, nodes. rewrite Hl, List.seq_app, List.filter_app. simpl.
    rewrite filter_none, filter_all; [reflexivity | |].
    + intros n Hn. apply list_elem_of_In, in_seq in Hn.
      apply bool_decide_eq_true.
      destruct (lookup_lt_is_Some_2 words (n - L)%nat ltac:(lia))
        as [word Hword].
      specialize (Hw _ _ Hword).
      replace (L + (n - L))%nat with n in Hw by lia. by rewrite Hw.
    + intros n Hn. apply list_elem_of_In, in_seq in Hn.
      apply bool_decide_eq_false.
      destruct (lookup_lt_is_Some_2 doc0 n ltac:(rewrite Hl0; lia))
        as [e0 He0].
      destruct (Ht n e0 He0) as (e' & He' & _ & Hp).
      rewrite He'. simpl.
      pose proof (setTextContent_detaches _ _ _ _ _ He0) as Hd.
      destruct Hp as [-> | ->]; [exact Hd | done].
Qed.

Lemma headline_is_split_witness :
  let w := load headlinePage ∅ false (constantClock 0) in
  let w' := fst (initHeadlineSplit w) in
  children (document w') 1%nat = [2; 3; 4; 5]%nat
  /\ textOf w' 2%nat = Some (str "New ")
  /\ textOf w' 4%nat = Some (str " ")
  /\ textOf w' 5%nat = Some (str "styles ")
  /\ animationFrames w'
     = [HeadlineFrame 2; HeadlineFrame 3; HeadlineFrame 4; HeadlineFrame 5]%nat.
Proof.
  intros w w'.
  destruct (headline_is_split_into_words w 1%nat (str "  New season  styles "))
    as (_ & _ & _ & _ & Hc & Hw & Hf).
  - vm_compute. reflexivity.
  - vm_compute. reflexivity.
  - vm_compute. reflexivity.
  - split; [exact Hc |].
    split; [exact (f_equal (fmap textContent)
                     (Hw 0%nat (str "New") eq_refl)) |].
    split; [exact (f_equal (fmap textContent) (Hw 2%nat [] eq_refl)) |].
    split; [exact (f_equal (fmap textContent)
                     (Hw 3%nat (str "styles") eq_refl)) |].
    exact Hf.
Defined.

Lemma frameCallbacks_mono size size' cbs :
  (size <= size')%nat ->
  Forall (frameCallback size) cbs -> Forall (frameCallback size') cbs.
Proof.
  intros Hle H. eapply Forall_impl; [exact H |].
  intros []; simpl; try done. lia.
Qed.

Lemma script_keeps_framesInv :
  (forall cb entries, keeps framesInv (call cb entries))
  /\ keeps framesInv
       (initParallax ;; initReveal ;; initTabs ;; initCountdown ;;
        initTestimonials ;; initBackToTop ;; initArrivalSkeleton).
Proof.
  split; [intros cb entries; destruct cb |];
    keeps_all ltac:(
      intros ? ?; unfold framesInv in *; simpl;
      unfold appendChild, modifyNode, createElement; simpl;
      rewrite ?length_alter, ?setTextContent_length, ?length_app in *; simpl;
      first [ assumption
            | eapply frameCallbacks_mono; [| eassumption]; lia ]).
Qed.

Lemma before_headline_keeps_none :
  keeps (fun w => animationFrames w = []) (syncBadges ;; initTheme).
Proof. keeps_all ltac:(intros ? ?; simpl; assumption). Qed.

Lemma initHeadlineSplit_establishes :
  hoare (fun w => animationFrames w = []) initHeadlineSplit
        (fun _ => framesInv).
Proof.
  intros w H. simpl.
  assert (Hnone : framesInv w) by (unfold framesInv; rewrite H; constructor).
  unfold initHeadlineSplit.
  unfold bind at 1, document_querySelector at 1, gets at 1.
  cbn [fst snd].
  destruct (querySelector (document w) (ByAttribute "data-split" (str "words")))
    as [title |] eqn:Hq; [| exact Hnone].
  apply querySelector_spec in Hq as [Hlt _].
  destruct (lookup_lt_is_Some_2 _ _ Hlt) as [e He].
  unfold bind at 1, element at 1, bind at 1, gets at 1.
  rewrite He. unfold ret at 1.
  unfold bind at 1, write_text at 1, modify at 1.
  unfold forEach.
  match goal with |- context [forEach_from 0 ?words _ ?w0] =>
    destruct (forEach_words title words 0 w0) as (w2 & Hrun & Hl & Hf & _)
  end.
  { simpl. by rewrite setTextContent_length. }
  unfold splitWord in Hrun. rewrite Hrun. cbn [fst snd].
  unfold framesInv. rewrite Hl, Hf. simpl. rewrite H. simpl.
  apply Forall_forall. intros cb Hcb.
  apply list_elem_of_In, in_map_iff in Hcb as (span & <- & Hin).
  apply in_seq in Hin. simpl. lia.
Qed.

Lemma init_assoc_headline w :
  init w
  = ((syncBadges ;; initTheme) ;;
     initHeadlineSplit ;;
     (initParallax ;; initReveal ;; initTabs ;; initCountdown ;;
      initTestimonials ;; initBackToTop ;; initArrivalSkeleton)) w.
Proof.
  unfold init, bind. destruct (syncBadges w) as [w1 [[] | e]]; [| done].
  by destruct (initTheme w1) as [w2 [[] | e]].
Qed.

Lemma started_framesInv doc storage dark time :
  framesInv (started (load doc storage dark time)).
Proof.
  unfold started. rewrite init_assoc_headline.
  assert (Hnone : forall (e : Error) w, animationFrames w = [] -> framesInv w).
  { intros _ w H. unfold framesInv. rewrite H. constructor. }
  assert (H : hoare (fun w => animationFrames w = [])
                ((syncBadges ;; initTheme) ;;
                 initHeadlineSplit ;;
                 (initParallax ;; initReveal ;; initTabs ;; initCountdown ;;
                  initTestimonials ;; initBackToTop ;; initArrivalSkeleton))
                (fun _ => framesInv)).
  { eapply hoare_bind with (R := fun _ w => animationFrames w = []);
      [apply before_headline_keeps_none | intros [] | exact Hnone].
    eapply hoare_bind with (R := fun _ => framesInv);
      [apply initHeadlineSplit_establishes | intros [] | auto].
    apply script_keeps_framesInv. }
  by apply H.
Qed.

Lemma step_keeps_framesInv w ev : framesInv w -> framesInv (step w ev).
Proof.
  apply (step_keeps framesInv); try (intros ? H; exact H).
  - intros cb entries w' _. apply script_keeps_framesInv.
  - intros _. constructor.
Qed.

Lemma after_keeps_framesInv w events :
  framesInv w -> framesInv (after w events).
Proof.
  revert w. induction events as [| ev events IH]; intros w H; [exact H |].
  simpl. by apply IH, step_keeps_framesInv.
Qed.

(** What a pass over frame callbacks leaves on a word. *)
Lemma dispatch_frames span cbs w :
  Forall (frameCallback (List.length (document w))) cbs ->
  let w' := dispatch cbs w in
  let shown w :=
    styleOf w span "opacity" = Some (str "1")
    /\ styleOf w span "transform" = Some (str "translateY(0)") in
  animationFrames w' = animationFrames w
  /\ (HeadlineFrame span ∈ cbs -> shown w')
  /\ (shown w -> shown w').
Proof.
  revert w. induction cbs as [| cb cbs IH]; intros w Hcbs.
  { simpl. split; [reflexivity |]. split; [| tauto].
    intros Hin. by apply elem_of_nil in Hin. }
  apply Forall_cons in Hcbs as [Hcb Hcbs].
  simpl. destruct cb; try done. simpl in Hcb.
  unfold run, call, headlineFrame, bind, mutate, modify. simpl.
  match goal with |- context [dispatch cbs ?w1] =>
    destruct (IH w1) as (Hf & Hc & Hs) end.
  { simpl. unfold modifyNode. by rewrite !length_alter. }
  simpl in Hf, Hc, Hs.
  destruct (lookup_lt_is_Some_2 _ _ Hcb) as [e He].
  assert (Hhere : span0 = span ->
    styleOf
      (set_document
         (modifyNode span0 (setStyle "transform" (str "translateY(0)"))
            (modifyNode span0 (setStyle "opacity" (str "1")) (document w))) w)
      span "opacity" = Some (str "1")
    /\ styleOf
         (set_document
            (modifyNode span0 (setStyle "transform" (str "translateY(0)"))
               (modifyNode span0 (setStyle "opacity" (str "1"))
                  (document w))) w)
         span "transform" = Some (str "translateY(0)")).
  { intros <-. unfold styleOf, modifyNode. simpl.
    rewrite !list_lookup_alter_eq, He. simpl.
    rewrite lookup_insert_ne by done. by rewrite !lookup_insert_eq. }
  split; [exact Hf |]. rewrite elem_of_cons. split.
  - intros [[= Heq] | Hin]; [| by apply Hc]. by apply Hs, Hhere.
  - intros H. apply Hs.
    destruct (decide (span0 = span)) as [Heq | Hne]; [by apply Hhere |].
    unfold styleOf, modifyNode in *. simpl.
    by rewrite !list_lookup_alter_ne.
Qed.

(** X10.  On a loaded page, after its start and any events, the next
    animation frame leaves every headline word with a pending frame callback
    fully opaque and unshifted, and no frame callback is left pending. *)
Theorem headline_words_appear_at_the_next_frame
    (doc : Document) (storage : gmap string jsstring) (dark : bool)
    (time : nat -> Z) (events : list Event) (span : NodeId) :
  let w := after (started (load doc storage dark time)) events in
  HeadlineFrame span ∈ animationFrames w ->
  let w' := step w AnimationFrame in
  styleOf w' span "opacity" = Some (str "1")
  /\ styleOf w' span "transform" = Some (str "translateY(0)")
  /\ animationFrames w' = [].
Proof.
  intros w Hin w'.
  pose proof (after_keeps_framesInv _ events
                (started_framesInv doc storage dark time)) as Hinv.
  fold w in Hinv.
  destruct (dispatch_frames span (animationFrames w)
              (set_animationFrames [] w) Hinv) as (Hf & Hc & _).
  destruct (Hc Hin) as [H1 H2].
  split; [exact H1 |]. split; [exact H2 | exact Hf].
Qed.

Lemma headline_words_appear_witness :
  let w := after (started (load headlinePage ∅ false (constantClock 0)))
                 [Scroll 10%float] in
  styleOf w 3%nat "opacity" = Some (str "0")
  /\ styleOf (step w AnimationFrame) 3%nat "opacity" = Some (str "1")
  /\ animationFrames (step w AnimationFrame) = [].
Proof.
  intros w. split; [vm_compute; reflexivity |].
  destruct (headline_words_appear_at_the_next_frame headlinePage ∅ false
              (constantClock 0) [Scroll 10%float] 3%nat) as (H1 & _ & H3).
  - vm_compute. right. left.
  - split; [exact H1 | exact H3].
Defined.

(** *** Scrolling *)

Lemma scrollNodes_mono size size' cbs :
  (size <= size')%nat ->
  Forall (scrollNode size) cbs -> Forall (scrollNode size') cbs.
Proof.
  intros Hle H. eapply Forall_impl; [exact H |].
  intros []; simpl; try done. lia.
Qed.

(** Statements that add no scroll listener, or the back-to-top one, and
    remove no node. *)
Lemma script_keeps_scrollInv :
  (forall cb entries, keeps scrollInv (call cb entries))
  /\ keeps scrollInv
       (initReveal ;; initTabs ;; initCountdown ;; initTestimonials ;;
        initBackToTop ;; initArrivalSkeleton).
Proof.
  split; [intros cb entries; destruct cb |];
    keeps_all ltac:(
      intros ? ?; unfold scrollInv in *; simpl;
      unfold appendChild, modifyNode, createElement; simpl;
      rewrite ?length_alter, ?setTextContent_length, ?length_app in *; simpl;
      rewrite ?Forall_app in *; simpl;
      intuition
        (first [ assumption
               | eapply scrollNodes_mono; [| eassumption]; lia
               | repeat constructor; simpl; auto ])).
Qed.

Lemma before_parallax_keeps_none :
  keeps (fun w => scrollListeners w = [])
        (syncBadges ;; initTheme ;; initHeadlineSplit).
Proof. keeps_all ltac:(intros ? ?; simpl; assumption). Qed.

Lemma initParallax_establishes :
  hoare (fun w => scrollListeners w = []) initParallax (fun _ => scrollInv).
Proof.
  intros w H. unfold initParallax, document_querySelector, bind, gets.
  simpl.
  destruct (querySelector (document w) (ByClass (str "hero-bg")))
    as [heroBg |] eqn:E; unfold scrollInv; simpl; rewrite H; [| constructor].
  apply querySelector_spec in E as [Hlt _]. by repeat constructor.
Qed.

Lemma init_assoc_parallax w :
  init w
  = ((syncBadges ;; initTheme ;; initHeadlineSplit) ;;
     initParallax ;;
     (initReveal ;; initTabs ;; initCountdown ;; initTestimonials ;;
      initBackToTop ;; initArrivalSkeleton)) w.
Proof.
  unfold init, bind. destruct (syncBadges w) as [w1 [[] | e]]; [| done].
  destruct (initTheme w1) as [w2 [[] | e]]; [| done].
  by destruct (initHeadlineSplit w2) as [w3 [[] | e]].
Qed.

Lemma started_scrollInv doc storage dark time :
  scrollInv (started (load doc storage dark time)).
Proof.
  unfold started. rewrite init_assoc_parallax.
  assert (Hnone : forall (e : Error) w, scrollListeners w = [] -> scrollInv w).
  { intros _ w H. unfold scrollInv. rewrite H. constructor. }
  assert (H : hoare (fun w => scrollListeners w = [])
                ((syncBadges ;; initTheme ;; initHeadlineSplit) ;;
                 initParallax ;;
                 (initReveal ;; initTabs ;; initCountdown ;;
                  initTestimonials ;; initBackToTop ;; initArrivalSkeleton))
                (fun _ => scrollInv)).
  { eapply hoare_bind with (R := fun _ w => scrollListeners w = []);
      [apply before_parallax_keeps_none | intros [] | exact Hnone].
    eapply hoare_bind with (R := fun _ => scrollInv);
      [apply initParallax_establishes | intros [] | auto].
    apply script_keeps_scrollInv. }
  by apply H.
Qed.

Lemma step_keeps_scrollInv w ev : scrollInv w -> scrollInv (step w ev).
Proof.
  apply (step_keeps scrollInv); try (intros ? H; exact H);
    [| intros H; exact H].
  intros cb entries w' _. apply script_keeps_scrollInv.
Qed.

Lemma after_keeps_scrollInv w events :
  scrollInv w -> scrollInv (after w events).
Proof.
  revert w. induction events as [| ev events IH]; intros w H; [exact H |].
  simpl. by apply IH, step_keeps_scrollInv.
Qed.

(** What a pass over scroll listeners leaves on a node: every back-to-top
    listener sets the class by the same test and no style, and the parallax
    sets the transform and no class. *)
Lemma dispatch_scroll n cbs w :
  Forall (scrollNode (List.length (document w))) cbs ->
  (n < List.length (document w))%nat ->
  let w' := dispatch cbs w in
  let shown := Some (PrimFloat.ltb 400%float (scrollY w)) in
  let shifted :=
    Some (str "translate3d(0, "
          ++ Number_toString
               (PrimFloat.mul (scrollY w) 0x1.999999999999ap-3%float)
          ++ str "px, 0)") in
  (BackToTopScroll n ∈ cbs ->
   contains visible <$> document w' !! n = shown)
  /\ (contains visible <$> document w !! n = shown ->
      contains visible <$> document w' !! n = shown)
  /\ (ParallaxScroll n ∈ cbs -> styleOf w' n "transform" = shifted)
  /\ (styleOf w n "transform" = shifted -> styleOf w' n "transform" = shifted).
Proof.
  intros Hcbs. revert w Hcbs.
  induction cbs as [| cb cbs IH]; intros w Hcbs Hlt.
  { repeat split; try done; by intros H%elem_of_nil. }
  apply Forall_cons in Hcbs as [Hcb Hcbs].
  simpl. destruct cb; try done.
  - (* the parallax *)
    unfold run, call, parallaxScroll, bind, gets, mutate, modify. simpl.
    match goal with |- context [dispatch cbs ?w1] =>
      destruct (IH w1) as (Hc & Hs & Hp & Ht) end.
    { simpl. unfold modifyNode. by rewrite length_alter. }
    { simpl. unfold modifyNode. by rewrite length_alter. }
    simpl in Hc, Hs, Hp, Ht. rewrite !elem_of_cons.
    assert (Hhere : forall h, h = n ->
      styleOf
        (set_document
           (modifyNode h
              (setStyle "transform"
                 (str "translate3d(0, "
                  ++ Number_toString
                       (PrimFloat.mul (scrollY w) 0x1.999999999999ap-3%float)
                  ++ str "px, 0)")) (document w)) w) n "transform"
      = Some (str "translate3d(0, "
              ++ Number_toString
                   (PrimFloat.mul (scrollY w) 0x1.999999999999ap-3%float)
              ++ str "px, 0)")).
    { intros h ->. unfold styleOf, modifyNode. simpl.
      rewrite list_lookup_alter_eq.
      destruct (lookup_lt_is_Some_2 _ _ Hlt) as [e ->]. simpl.
      by rewrite lookup_insert_eq. }
    split; [| split; [| split]].
    + intros [[=] | Hin]. by apply Hc.
    + intros H. apply Hs. rewrite <- H. unfold modifyNode.
      destruct (decide (heroBg = n)) as [-> | Hne].
      * rewrite list_lookup_alter_eq. by destruct (document w !! n).
      * by rewrite list_lookup_alter_ne.
    + intros [[= ->] | Hin]; [| by apply Hp]. by apply Ht, Hhere.
    + intros H. apply Ht.
      destruct (decide (heroBg = n)) as [-> | Hne]; [by apply Hhere |].
      rewrite <- H. unfold styleOf, modifyNode. simpl.
      by rewrite list_lookup_alter_ne.
  - (* a back-to-top listener *)
    unfold run, call, backToTopScroll, bind, gets, mutate, modify. simpl.
    match goal with |- context [dispatch cbs ?w1] =>
      destruct (IH w1) as (Hc & Hs & Hp & Ht) end.
    { simpl. unfold modifyNode. by rewrite length_alter. }
    { simpl. unfold modifyNode. by rewrite length_alter. }
    simpl in Hc, Hs, Hp, Ht. rewrite !elem_of_cons.
    assert (Hhere : forall b, b = n ->
      contains visible <$>
        modifyNode b
          (classList_toggle (str "is-visible")
             (PrimFloat.ltb 400%float (scrollY w))) (document w) !! n
      = Some (PrimFloat.ltb 400%float (scrollY w))).
    { intros b ->. unfold modifyNode. rewrite list_lookup_alter_eq.
      destruct (lookup_lt_is_Some_2 _ _ Hlt) as [e ->]. simpl.
      f_equal. apply contains_toggle. }
    split; [| split; [| split]].
    + intros [[= ->] | Hin]; [| by apply Hc]. by apply Hs, Hhere.
    + intros H. apply Hs.
      destruct (decide (button = n)) as [-> | Hne]; [by apply Hhere |].
      rewrite <- H. unfold modifyNode. by rewrite list_lookup_alter_ne.
    + intros [[=] | Hin]. by apply Hp.
    + intros H. apply Ht. rewrite <- H. unfold styleOf, modifyNode. simpl.
      destruct (decide (button = n)) as [-> | Hne].
      * rewrite list_lookup_alter_eq. destruct (document w !! n); [| done].
        simpl. by rewrite style_toggle.
      * by rewrite list_lookup_alter_ne.
Qed.

(** X11.  On a loaded page, after its start and any events, a scroll to
    [y] leaves the transform of the parallax background at
    [translate3d(0, (y * 0.2)px, 0)]. *)
Theorem parallax_follows_scroll
    (doc : Document) (storage : gmap string jsstring) (dark : bool)
    (time : nat -> Z) (events : list Event) (heroBg : NodeId) (y : Number) :
  let w := after (started (load doc storage dark time)) events in
  ParallaxScroll heroBg ∈ scrollListeners w ->
  styleOf (step w (Scroll y)) heroBg "transform"
  = Some (str "translate3d(0, "
          ++ Number_toString (PrimFloat.mul y 0x1.999999999999ap-3%float)
          ++ str "px, 0)").
Proof.
  intros w Hin.
  pose proof (after_keeps_scrollInv _ events
                (started_scrollInv doc storage dark time)) as Hcbs.
  fold w in Hcbs.
  assert (Hlt : (heroBg < List.length (document w))%nat).
  { unfold scrollInv in Hcbs. rewrite Forall_forall in Hcbs.
    exact (Hcbs _ Hin). }
  destruct (dispatch_scroll heroBg (scrollListeners w) (set_scrollY y w)
              Hcbs Hlt) as (_ & _ & Hp & _).
  exact (Hp Hin).
Qed.

Lemma parallax_follows_scroll_witness :
  let w := started (load parallaxPage ∅ false (constantClock 0)) in
  styleOf (step w (Scroll 100%float)) 1%nat "transform"
  = Some (str "translate3d(0, 20px, 0)").
Proof.
  apply (parallax_follows_scroll parallaxPage ∅ false (constantClock 0) []
           1%nat 100%float).
  vm_compute. left.
Defined.

(** X12.  On a loaded page, after its start and any events, a scroll to
    [y] leaves the back-to-top button with the visibility class exactly
    when [y > 400], whatever it carried before. *)
Theorem back_to_top_follows_scroll
    (doc : Document) (storage : gmap string jsstring) (dark : bool)
    (time : nat -> Z) (events : list Event) (button : NodeId) (y : Number) :
  let w := after (started (load doc storage dark time)) events in
  BackToTopScroll button ∈ scrollListeners w ->
  (hasClass (step w (Scroll y)) button visible
   <-> PrimFloat.ltb 400%float y = true).
Proof.
  intros w Hin.
  pose proof (after_keeps_scrollInv _ events
                (started_scrollInv doc storage dark time)) as Hcbs.
  fold w in Hcbs.
  assert (Hlt : (button < List.length (document w))%nat).
  { pose proof (after_backToTop _ events
                  (started_backToTop doc storage dark time)) as Hinv.
    fold w in Hinv. unfold backToTopInv in Hinv.
    rewrite Forall_forall in Hinv.
    specialize (Hinv (BackToTopScroll button)). simpl in Hinv.
    unfold attributeOf in Hinv.
    destruct (document w !! button) as [e |] eqn:E.
    - by apply lookup_lt_Some in E.
    - discriminate Hinv. apply registered_elem. tauto. }
  destruct (dispatch_scroll button (scrollListeners w) (set_scrollY y w)
              Hcbs Hlt) as (Hc & _).
  rewrite hasClass_contains. simpl. rewrite (Hc Hin). simpl.
  split; [by intros [= ->] | by intros ->].
Qed.

Lemma back_to_top_witness :
  let w := started (load revealPage ∅ false (constantClock 0)) in
  hasClass (step w (Scroll 401%float)) 2%nat visible
  /\ ~ hasClass (step w (Scroll 400%float)) 2%nat visible.
Proof.
  intros w. split.
  - apply (back_to_top_follows_scroll revealPage ∅ false (constantClock 0)
             [] 2%nat 401%float); [vm_compute; left | vm_compute; reflexivity].
  - intros H.
    apply (back_to_top_follows_scroll revealPage ∅ false (constantClock 0)
             [] 2%nat 400%float) in H; [| vm_compute; left].
    vm_compute in H. discriminate H.
Defined.

(** *** The tab listeners *)

(** The listeners [initTabs] adds answer a click on a tab with that tab's
    handler only. *)
Lemma filter_own_listener {X} (f : NodeId -> X) (l : list NodeId) t :
  NoDup l -> t ∈ l ->
  List.filter (fun p => Nat.eqb (fst p) t) (map (fun x => (x, f x)) l)
  = [(t, f t)].
Proof.
  induction 1 as [| x l Hx Hnd IH]; intros Hin; [by apply elem_of_nil in Hin |].
  simpl. destruct (Nat.eqb x t) eqn:E.
  - apply Nat.eqb_eq in E as ->. f_equal. apply filter_none.
    intros [y z] Hy. simpl. apply Nat.eqb_neq. intros ->.
    apply list_elem_of_In, in_map_iff in Hy as (y & [= <- <-] & Hy).
    by apply Hx, list_elem_of_In.
  - apply IH. apply elem_of_cons in Hin as [-> | Hin]; [| done].
    by rewrite Nat.eqb_refl in E.
Qed.

(** X13.  [initTabs] returns normally, leaves the document as it is and
    adds one click listener per tab, on the tab, closing over all tabs and
    panels found; so a click on a tab that had no listener before runs that
    tab's handler and nothing else. *)
Theorem initTabs_wires_each_tab (w : World) :
  let tabs := querySelectorAll (document w) (ByClass (str "tab")) in
  let panels := querySelectorAll (document w) (ByClass (str "tab-panel")) in
  let w' := fst (initTabs w) in
  snd (initTabs w) = Ok tt
  /\ document w' = document w
  /\ clickListeners w'
     = clickListeners w ++ map (fun t => (t, TabClick tabs panels t)) tabs
  /\ forall t, t ∈ tabs ->
       Forall (fun l => fst l <> t) (clickListeners w) ->
       step w' (Click t) = run (TabClick tabs panels t) w'.
Proof.
  intros tabs panels w'.
  assert (Hrun : initTabs w
                 = (set_clickListeners
                      (clickListeners w
                       ++ map (fun t => (t, TabClick tabs panels t)) tabs) w,
                    Ok tt)).
  { unfold initTabs, document_querySelectorAll, bind, gets. simpl.
    fold tabs panels. destruct tabs as [| t ts] eqn:E.
    - simpl. rewrite app_nil_r. by destruct w.
    - unfold forEach. by rewrite forEach_addClick. }
  unfold w'. rewrite Hrun. cbn [fst snd].
  split; [reflexivity |]. split; [reflexivity |]. split; [reflexivity |].
  intros t Ht Hnone. cbn [step clickListeners set_clickListeners].
  rewrite List.filter_app, map_app.
  rewrite (filter_none _ (clickListeners w)).
  - rewrite filter_own_listener; [reflexivity | | exact Ht].
    unfold tabs, querySelectorAll. apply NoDup_List_filter, NoDup_seq.
  - intros l Hl. rewrite Forall_forall in Hnone.
    apply Nat.eqb_neq. by apply Hnone.
Qed.

(** *** The countdown display *)

Lemma Z_toString_two_digits (v : Z) :
  v < 0 \/ 10 <= v -> (2 <= List.length (Z_toString v))%nat.
Proof.
  intros Hv. unfold Z_toString, str. rewrite length_map.
  destruct v as [| p | p]; [lia | |]; simpl.
  - pose proof (DecimalPos.Unsigned.of_to p) as Hof.
    destruct (Pos.to_uint p) as [| u | u | u | u | u | u | u | u | u | u];
      try (simpl in Hof; discriminate Hof);
      destruct u; simpl in Hof; try (injection Hof as <-; lia);
      simpl; lia.
  - destruct (Pos.to_uint p); simpl; lia.
Qed.

(** X14.  [pad] puts a zero in front of the numbers 0 to 9 and prints
    every other safe integer (of absolute value at most [2^53 - 1]), the
    negative ones included, in plain decimal digits as it is. *)
Theorem pad_pads_single_digits (v : Z) :
  (0 <= v < 10 -> pad v = [48%N; (48 + Z.to_N v)%N])
  /\ (v < 0 \/ 10 <= v -> Z.abs v <= MAX_SAFE_INTEGER ->
      pad v = Z_toString v).
Proof.
  split.
  - intros Hv.
    assert (H : v = 0 \/ v = 1 \/ v = 2 \/ v = 3 \/ v = 4 \/ v = 5 \/ v = 6
                \/ v = 7 \/ v = 8 \/ v = 9) by lia.
    repeat (destruct H as [-> | H]; [reflexivity |]). by subst.
  - intros Hv _. unfold pad, padStart2.
    pose proof (Z_toString_two_digits v Hv) as Hl.
    by replace (2 - List.length (Z_toString v))%nat with 0%nat by lia.
Qed.

Lemma pad_pads_witness :
  pad 7 = str "07" /\ pad 42 = str "42" /\ pad (-5) = str "-5".
Proof.
  destruct (pad_pads_single_digits 7) as [H7 _].
  destruct (pad_pads_single_digits 42) as [_ H42].
  destruct (pad_pads_single_digits (-5)) as [_ H5].
  split; [| split].
  - rewrite H7 by lia. reflexivity.
  - rewrite H42 by (unfold MAX_SAFE_INTEGER; lia). reflexivity.
  - rewrite H5 by (unfold MAX_SAFE_INTEGER; lia). reflexivity.
Defined.

(** X15.  While time remains, the four displayed components add up to
    the remaining whole seconds, and the hours, minutes and seconds stay
    below 24, 60 and 60. *)
Theorem countdown_fields_recompose (r : Z) :
  0 <= r ->
  ((daysOf r * 24 + hoursOf r) * 60 + minutesOf r) * 60 + secondsOf r
  = r / 1000
  /\ 0 <= hoursOf r < 24 /\ 0 <= minutesOf r < 60 /\ 0 <= secondsOf r < 60.
Proof.
  intros Hr. split; [| by apply components_of_remaining_time].
  rewrite daysOf_div, hoursOf_eq, minutesOf_eq, secondsOf_eq.
  rewrite !wrapped_component by lia.
  set (q := r / 1000).
  replace (r / 60000) with (q / 60)
    by (unfold q; rewrite Z.div_div by lia; reflexivity).
  replace (r / 3600000) with (q / 60 / 60)
    by (unfold q; rewrite !Z.div_div by lia; reflexivity).
  replace (r / 86400000) with (q / 60 / 60 / 24)
    by (unfold q; rewrite !Z.div_div by lia; reflexivity).
  pose proof (Z.div_mod q 60 ltac:(lia)).
  pose proof (Z.div_mod (q / 60) 60 ltac:(lia)).
  pose proof (Z.div_mod (q / 60 / 60) 24 ltac:(lia)).
  lia.
Qed.

Lemma countdown_fields_recompose_witness :
  let r := 93784999 in
  ((daysOf r * 24 + hoursOf r) * 60 + minutesOf r) * 60 + secondsOf r = 93784
  /\ 0 <= hoursOf r < 24 /\ 0 <= minutesOf r < 60 /\ 0 <= secondsOf r < 60.
Proof.
  intros r. apply (countdown_fields_recompose r). unfold r. lia.
Defined.

Lemma write_selected_found sel text w n :
  querySelector (document w) sel = Some n ->
  write_selected sel text w
  = (set_document (setTextContent n text (document w)) w, Ok tt).
Proof.
  intros H. unfold write_selected, bind, document_querySelector, gets.
  simpl. by rewrite H.
Qed.

Lemma write_selected_missing sel text w :
  querySelector (document w) sel = None ->
  write_selected sel text w = (w, Throw TypeError).
Proof.
  intros H. unfold write_selected, bind, document_querySelector, gets.
  simpl. by rewrite H.
Qed.

Lemma found_by_other_ids doc a b n m :
  a <> b ->
  querySelector doc (ById a) = Some n -> querySelector doc (ById b) = Some m ->
  n <> m.
Proof.
  intros Hne Hn Hm ->.
  apply querySelector_spec in Hn as [_ Hn], Hm as [_ Hm].
  exact (Hne (selects_id _ _ _ _ Hn Hm)).
Qed.

(** The four writes of a tick on a page with its fields. *)
Lemma showRemaining_fields r w d h m s :
  countdownFields w d h m s ->
  exists w',
    showRemaining r w = (w', Ok tt)
    /\ state w' = state w
    /\ intervals w' = intervals w
    /\ textOf w' d = Some (pad (daysOf r))
    /\ textOf w' h = Some (pad (hoursOf r))
    /\ textOf w' m = Some (pad (minutesOf r))
    /\ textOf w' s = Some (pad (secondsOf r)).
Proof.
  intros (Hd & Hh & Hm & Hs & Hleaf).
  apply Forall_cons in Hleaf as [Ld Hleaf].
  apply Forall_cons in Hleaf as [Lh Hleaf].
  apply Forall_cons in Hleaf as [Lm _].
  pose proof (found_by_other_ids _ (str "days") (str "hours") _ _
                ltac:(by vm_compute) Hd Hh) as Ndh.
  pose proof (found_by_other_ids _ (str "days") (str "minutes") _ _
                ltac:(by vm_compute) Hd Hm) as Ndm.
  pose proof (found_by_other_ids _ (str "days") (str "seconds") _ _
                ltac:(by vm_compute) Hd Hs) as Nds.
  pose proof (found_by_other_ids _ (str "hours") (str "minutes") _ _
                ltac:(by vm_compute) Hh Hm) as Nhm.
  pose proof (found_by_other_ids _ (str "hours") (str "seconds") _ _
                ltac:(by vm_compute) Hh Hs) as Nhs.
  pose proof (found_by_other_ids _ (str "minutes") (str "seconds") _ _
                ltac:(by vm_compute) Hm Hs) as Nms.
  apply querySelector_spec in Hd as Bd. destruct Bd as [Bd _].
  apply querySelector_spec in Hh as Bh. destruct Bh as [Bh _].
  apply querySelector_spec in Hm as Bm. destruct Bm as [Bm _].
  apply querySelector_spec in Hs as Bs. destruct Bs as [Bs _].
  destruct (setTextContent_leaf d (pad (daysOf r)) (document w) Ld)
    as [Q1 C1].
  set (doc1 := setTextContent d (pad (daysOf r)) (document w)) in *.
  destruct (setTextContent_leaf h (pad (hoursOf r)) doc1
              ltac:(by rewrite C1)) as [Q2 C2].
  set (doc2 := setTextContent h (pad (hoursOf r)) doc1) in *.
  destruct (setTextContent_leaf m (pad (minutesOf r)) doc2
              ltac:(by rewrite C2, C1)) as [Q3 C3].
  set (doc3 := setTextContent m (pad (minutesOf r)) doc2) in *.
  set (doc4 := setTextContent s (pad (secondsOf r)) doc3).
  exists (set_document doc4 w). unfold showRemaining.
  unfold bind at 1. rewrite (write_selected_found _ _ w d Hd). fold doc1.
  unfold bind at 1.
  rewrite (write_selected_found _ _ (set_document doc1 w) h)
    by (simpl; by rewrite Q1).
  simpl. fold doc2. unfold bind at 1.
  rewrite (write_selected_found _ _ (set_document doc2 w) m)
    by (simpl; by rewrite Q2, Q1).
  simpl. fold doc3.
  rewrite (write_selected_found _ _ (set_document doc3 w) s)
    by (simpl; by rewrite Q3, Q2, Q1).
  simpl. fold doc4.
  assert (L1 : List.length doc1 = List.length (document w))
    by apply setTextContent_length.
  assert (L2 : List.length doc2 = List.length (document w))
    by (unfold doc2; by rewrite setTextContent_length).
  assert (L3 : List.length doc3 = List.length (document w))
    by (unfold doc3; by rewrite setTextContent_length).
  split; [reflexivity |]. split; [reflexivity |]. split; [reflexivity |].
  unfold textOf, doc4, doc3, doc2. simpl. repeat split.
  - rewrite !setTextContent_text_ne by done.
    apply setTextContent_text_eq, Bd.
  - rewrite !setTextContent_text_ne by done.
    apply setTextContent_text_eq. by rewrite L1.
  - rewrite !setTextContent_text_ne by done.
    apply setTextContent_text_eq. fold doc2. by rewrite L2.
  - apply setTextContent_text_eq. fold doc2 doc3. by rewrite L3.
Qed.

Lemma tick_keeps_intervals l : keeps (fun w => intervals w = l) tick.
Proof. keeps_all ltac:(intros ? ?; simpl; assumption). Qed.

Lemma tick_on_steady_clock w t target d h m s :
  countdownTarget (state w) = Some target ->
  steadyClock w t ->
  countdownFields w d h m s ->
  let target' := if target - t <=? 0 then t + threeDays else target in
  let r := target' - t in
  exists w',
    tick w = (w', Ok tt)
    /\ countdownTarget (state w') = Some target'
    /\ 0 < r
    /\ intervals w' = intervals w
    /\ textOf w' d = Some (pad (daysOf r))
    /\ textOf w' h = Some (pad (hoursOf r))
    /\ textOf w' m = Some (pad (minutesOf r))
    /\ textOf w' s = Some (pad (secondsOf r)).
Proof.
  intros Ht Hc Hf target' r.
  destruct (tick_decomposed w) as (w1 & Hrun & Ht1 & _ & Hdoc).
  assert (Hf1 : countdownFields w1 d h m s)
    by (unfold countdownFields; by rewrite Hdoc).
  assert (Hr : remainingAtTick w = r /\ targetAfterTick w = Some target'
               /\ 0 < r).
  { unfold remainingAtTick, targetAfterTick, rebases, r, target'.
    rewrite Ht. simpl. rewrite (Hc (reads w)) by lia.
    destruct (target - t <=? 0) eqn:E; simpl; rewrite !Hc by lia;
      unfold threeDays; repeat split; lia. }
  destruct Hr as (Hr & Ht' & Hpos).
  destruct (showRemaining_fields r w1 d h m s Hf1)
    as (w' & Hshow & Hs & _ & H1 & H2 & H3 & H4).
  exists w'. rewrite Hrun, Hr. split; [exact Hshow |].
  split; [by rewrite Hs, Ht1 |]. split; [exact Hpos |].
  split; [| by repeat split].
  pose proof (tick_keeps_intervals (intervals w) w eq_refl) as Hi.
  by rewrite Hrun, Hr, Hshow in Hi.
Qed.

(** X16.  On a page with the four fields and with a clock that stands at
    [t] during the tick, where [t], [t] plus three days and the target are
    times from 1970 on that a Date can hold, [tick] returns normally; it
    keeps a target that is ahead of [t] and replaces any other by [t] plus
    three days; and the fields show the padded days, hours, minutes and
    seconds of the time left to that target, which is positive. *)
Theorem tick_shows_the_time_left
    (w : World) (t target : Z) (d h m s : NodeId) :
  countdownTarget (state w) = Some target ->
  steadyClock w t ->
  countdownFields w d h m s ->
  0 <= t ->
  t + threeDays <= maxTime ->
  0 <= target <= maxTime ->
  let w' := fst (tick w) in
  let target' := if target - t <=? 0 then t + threeDays else target in
  let r := target' - t in
  snd (tick w) = Ok tt
  /\ countdownTarget (state w') = Some target'
  /\ 0 < r <= maxTime
  /\ textOf w' d = Some (pad (r / 86400000))
  /\ textOf w' h = Some (pad ((r / 3600000) mod 24))
  /\ textOf w' m = Some (pad ((r / 60000) mod 60))
  /\ textOf w' s = Some (pad ((r / 1000) mod 60)).
Proof.
  intros Ht Hc Hf Ht0 Ht3 Htarget w' target' r. unfold w'.
  destruct (tick_on_steady_clock w t target d h m s Ht Hc Hf)
    as (w2 & -> & H0 & Hpos & _ & H1 & H2 & H3 & H4).
  fold target' r in H0, Hpos, H1, H2, H3, H4. simpl.
  rewrite daysOf_div in H1. rewrite hoursOf_eq in H2.
  rewrite minutesOf_eq in H3. rewrite secondsOf_eq in H4.
  rewrite wrapped_component in H2, H3, H4 by lia.
  split; [reflexivity |]. split; [exact H0 |]. split; [| by repeat split].
  split; [exact Hpos |]. unfold r, target'.
  destruct (target - t <=? 0); unfold threeDays, maxTime in *; lia.
Qed.

Lemma tick_shows_the_time_left_witness :
  let w :=
    started (load countdownPage ∅ false
               (clockAfterStart (threeDays - 93784000))) in
  let v :=
    started (load countdownPage ∅ false (clockAfterStart (threeDays + 5000))) in
  (countdownTarget (state (fst (tick w))) = Some threeDays
   /\ textOf (fst (tick w)) 1%nat = Some (str "01")
   /\ textOf (fst (tick w)) 2%nat = Some (str "02")
   /\ textOf (fst (tick w)) 3%nat = Some (str "03")
   /\ textOf (fst (tick w)) 4%nat = Some (str "04"))
  /\ (countdownTarget (state v) = Some threeDays
      /\ countdownTarget (state (fst (tick v)))
         = Some (threeDays + 5000 + threeDays)
      /\ textOf (fst (tick v)) 1%nat = Some (str "03")
      /\ textOf (fst (tick v)) 2%nat = Some (str "00")
      /\ textOf (fst (tick v)) 3%nat = Some (str "00")
      /\ textOf (fst (tick v)) 4%nat = Some (str "00")).
Proof.
  intros w v. split.
  - destruct (tick_shows_the_time_left w (threeDays - 93784000) threeDays
                1 2 3 4)%nat
      as (_ & H0 & _ & H1 & H2 & H3 & H4).
    + vm_compute. reflexivity.
    + intros k Hk. change (reads w) with 3%nat in Hk.
      change (clock w) with (clockAfterStart (threeDays - 93784000)).
      unfold clockAfterStart. by destruct (Nat.ltb_spec k 3); [lia |].
    + vm_compute. repeat split; repeat constructor.
    + vm_compute. discriminate.
    + vm_compute. discriminate.
    + vm_compute. split; discriminate.
    + split; [exact H0 |]. split; [exact H1 |]. split; [exact H2 |].
      split; [exact H3 | exact H4].
  - destruct (tick_shows_the_time_left v (threeDays + 5000) threeDays
                1 2 3 4)%nat
      as (_ & H0 & _ & H1 & H2 & H3 & H4).
    + vm_compute. reflexivity.
    + intros k Hk. change (reads v) with 3%nat in Hk.
      change (clock v) with (clockAfterStart (threeDays + 5000)).
      unfold clockAfterStart. by destruct (Nat.ltb_spec k 3); [lia |].
    + vm_compute. repeat split; repeat constructor.
    + vm_compute. discriminate.
    + vm_compute. discriminate.
    + vm_compute. split; discriminate.
    + split; [vm_compute; reflexivity |].
      split; [exact H0 |]. split; [exact H1 |]. split; [exact H2 |].
      split; [exact H3 | exact H4].
Defined.

(** [initCountdown] on a page with a [#days] element: the target is set
    from the first clock reading, one tick runs, and the interval is
    registered if the tick returns. *)
Lemma initCountdown_run w d :
  querySelector (document w) (ById (str "days")) = Some d ->
  let w1 :=
    set_state
      (mkState (testimonialIndex (state w)) (testimonialTimer (state w))
               (Some (clock w (reads w) + threeDays)))
      (set_reads (S (reads w)) w) in
  initCountdown w =
    match tick w1 with
    | (w2, Ok _) => (set_intervals (intervals w2 ++ [(Tick, 1000)]) w2, Ok tt)
    | (w2, Throw e) => (w2, Throw e)
    end.
Proof.
  intros H. unfold initCountdown.
  unfold bind at 1, document_querySelector at 1, gets at 1. rewrite H.
  cbv [bind now gets modify ret setInterval]. simpl.
  by destruct (tick _) as [w2 [[] | e]].
Qed.

(** X17.  On a page with the four fields and with a clock that stands at
    [t] while the page starts, where [t] and [t] plus three days are times
    from 1970 on that a Date can hold, [initCountdown] sets the target to
    [t] plus three days, shows 03, 00, 00, 00 and registers [tick] as an
    interval of 1000 ms. *)
Theorem initCountdown_starts_at_three_days
    (w : World) (t : Z) (d h m s : NodeId) :
  steadyClock w t ->
  countdownFields w d h m s ->
  0 <= t ->
  t + threeDays <= maxTime ->
  let w' := fst (initCountdown w) in
  snd (initCountdown w) = Ok tt
  /\ countdownTarget (state w') = Some (t + threeDays)
  /\ intervals w' = intervals w ++ [(Tick, 1000)]
  /\ textOf w' d = Some (str "03")
  /\ textOf w' h = Some (str "00")
  /\ textOf w' m = Some (str "00")
  /\ textOf w' s = Some (str "00").
Proof.
  intros Hc Hf _ _ w'. unfold w'.
  pose proof Hf as (Hd & _). rewrite (initCountdown_run w d Hd). cbv zeta.
  rewrite (Hc (reads w)) by lia.
  match goal with |- context [tick ?w1] => set (w1' := w1) end.
  destruct (tick_on_steady_clock w1' t (t + threeDays) d h m s)
    as (w2 & -> & H0 & _ & Hi & H1 & H2 & H3 & H4).
  - reflexivity.
  - intros k Hk. apply Hc. simpl in Hk. lia.
  - exact Hf.
  - replace (t + threeDays - t <=? 0) with false in *
      by (unfold threeDays; lia).
    replace (t + threeDays - t) with threeDays in * by lia.
    simpl. split; [reflexivity |]. split; [exact H0 |].
    split; [by rewrite Hi |]. by repeat split.
Qed.

Lemma initCountdown_starts_witness :
  let w := load countdownPage ∅ false (constantClock 1000) in
  let w' := fst (initCountdown w) in
  countdownTarget (state w') = Some 259201000
  /\ intervals w' = [(Tick, 1000)]
  /\ textOf w' 1%nat = Some (str "03")
  /\ textOf w' 4%nat = Some (str "00").
Proof.
  intros w w'.
  destruct (initCountdown_starts_at_three_days w 1000 1 2 3 4)%nat
    as (_ & H0 & Hi & H1 & _ & _ & H4).
  - intros k _. reflexivity.
  - vm_compute. repeat split; repeat constructor.
  - lia.
  - vm_compute. discriminate.
  - split; [exact H0 |]. split; [exact Hi |]. split; [exact H1 | exact H4].
Defined.

Lemma showRemaining_missing r w :
  querySelector (document w) (ById (str "hours")) = None
  \/ querySelector (document w) (ById (str "minutes")) = None
  \/ querySelector (document w) (ById (str "seconds")) = None ->
  snd (showRemaining r w) = Throw TypeError.
Proof.
  intros H. unfold showRemaining.
  unfold bind at 1.
  destruct (querySelector (document w) (ById (str "days"))) as [d |] eqn:Hd;
    [| by rewrite write_selected_missing].
  rewrite (write_selected_found _ _ w d Hd).
  set (doc1 := setTextContent d _ (document w)).
  assert (H1 :
    querySelector doc1 (ById (str "hours")) = None
    \/ querySelector doc1 (ById (str "minutes")) = None
    \/ querySelector doc1 (ById (str "seconds")) = None).
  { destruct H as [H | [H | H]];
      eauto using setTextContent_finds_nothing_new. }
  clearbody doc1. clear H Hd. unfold bind at 1.
  destruct (querySelector doc1 (ById (str "hours"))) as [h |] eqn:Hh;
    [| by rewrite write_selected_missing].
  rewrite (write_selected_found _ _ (set_document doc1 w) h Hh). simpl.
  set (doc2 := setTextContent h _ doc1).
  assert (H2 :
    querySelector doc2 (ById (str "minutes")) = None
    \/ querySelector doc2 (ById (str "seconds")) = None).
  { destruct H1 as [H | [H | H]]; [done | |];
      eauto using setTextContent_finds_nothing_new. }
  clearbody doc2. clear H1 Hh. unfold bind at 1.
  destruct (querySelector doc2 (ById (str "minutes"))) as [m |] eqn:Hm;
    [| by rewrite write_selected_missing].
  rewrite (write_selected_found _ _ (set_document doc2 w) m Hm). simpl.
  set (doc3 := setTextContent m _ doc2).
  assert (H3 : querySelector doc3 (ById (str "seconds")) = None).
  { destruct H2 as [H | H]; [done |].
    eauto using setTextContent_finds_nothing_new. }
  by rewrite write_selected_missing.
Qed.

Lemma tick_keeps_registered r : keeps (fun w => registered w = r) tick.
Proof.
  keeps_all ltac:(intros ? ?; unfold registered in *; simpl; assumption).
Qed.

(** X18.  [initCountdown] tests for the days field only.  On a page
    that has it but lacks the hours, minutes or seconds field, its first
    tick throws a [TypeError]: no interval is registered, and the
    initializers after it (the carousel, the back-to-top button, the
    arrivals skeleton) never run. *)
Theorem initCountdown_needs_all_four_fields (w : World) (d : NodeId) :
  querySelector (document w) (ById (str "days")) = Some d ->
  querySelector (document w) (ById (str "hours")) = None
  \/ querySelector (document w) (ById (str "minutes")) = None
  \/ querySelector (document w) (ById (str "seconds")) = None ->
  let rest :=
    initCountdown ;; initTestimonials ;; initBackToTop ;;
    initArrivalSkeleton in
  snd (initCountdown w) = Throw TypeError
  /\ snd (rest w) = Throw TypeError
  /\ registered (fst (rest w)) = registered w.
Proof.
  intros Hd Hmiss rest.
  pose proof (initCountdown_run w d Hd) as Hrun. cbv zeta in Hrun.
  match type of Hrun with context [tick ?x] => set (w1 := x) in * end.
  assert (Ht : snd (tick w1) = Throw TypeError).
  { destruct (tick_decomposed w1) as (w2 & -> & _ & _ & Hdoc).
    apply showRemaining_missing. by rewrite Hdoc. }
  pose proof (tick_keeps_registered (registered w) w1 eq_refl) as Hr.
  destruct (tick w1) as [w2 [[] | e]]; simpl in Ht, Hr; [done |].
  injection Ht as ->.
  assert (Hrest : rest w = (w2, Throw TypeError)).
  { unfold rest. unfold bind at 1. by rewrite Hrun. }
  rewrite Hrun, Hrest. by repeat split.
Qed.

Lemma initCountdown_needs_witness :
  let w := load daysOnlyPage ∅ false (constantClock 0) in
  snd (initCountdown w) = Throw TypeError
  /\ snd (init w) = Throw TypeError
  /\ intervals (started w) = [].
Proof.
  intros w.
  destruct (initCountdown_needs_all_four_fields w 1%nat) as (H1 & _ & _).
  - vm_compute. reflexivity.
  - left. vm_compute. reflexivity.
  - split; [exact H1 |]. vm_compute. split; reflexivity.
Defined.

(** *** Carousel navigation *)

Lemma next_effect c w i :
  let n := Z.of_nat (List.length (slides c)) in
  1 <= n -> index w = Int i -> 0 <= i < n ->
  index (fst (next c w)) = Int ((i + 1) mod n).
Proof.
  intros n Hn Hi Hr. unfold next, bind, gets. simpl.
  destruct (goToSlide_effect c (int_add (testimonialIndex (state w)) 1) w)
    as [Hi' _].
  rewrite Hi'. fold (index w). rewrite Hi. simpl. fold n.
  destruct (n =? 0) eqn:E; [lia |]. f_equal.
  rewrite Z.rem_mod_nonneg by lia.
  rewrite <- (Z.mul_1_l n) at 1. apply Z.mod_add. lia.
Qed.

Lemma prevClick_effect c w i :
  let n := Z.of_nat (List.length (slides c)) in
  1 <= n -> index w = Int i -> 0 <= i < n ->
  index (fst (prevClick c w)) = Int ((i - 1) mod n).
Proof.
  intros n Hn Hi Hr. unfold prevClick, bind, gets. simpl.
  destruct (goToSlide_effect c (int_add (testimonialIndex (state w)) (-1)) w)
    as [Hi' _].
  rewrite Hi'. fold (index w). rewrite Hi. simpl. fold n.
  destruct (n =? 0) eqn:E; [lia |]. f_equal.
  rewrite Z.rem_mod_nonneg by lia.
  rewrite <- (Z.mul_1_l n) at 1. rewrite Z.mod_add by lia. reflexivity.
Qed.

(** X19.  On a track of [n >= 1] slides, from a slide [i], [k] calls of
    [next] lead to slide [(i + k) mod n], so [n] calls lead back to [i];
    the previous control leads to slide [(i - 1) mod n], so it undoes
    [next] and [next] undoes it. *)
Theorem carousel_navigation_is_modular
    (c : Carousel) (w : World) (i : Z) (k : nat) :
  let n := Z.of_nat (List.length (slides c)) in
  let nexts k := Nat.iter k (fun w => fst (next c w)) w in
  1 <= n -> index w = Int i -> 0 <= i < n ->
  index (nexts k) = Int ((i + Z.of_nat k) mod n)
  /\ index (nexts (List.length (slides c))) = Int i
  /\ index (fst (prevClick c w)) = Int ((i - 1) mod n)
  /\ index (fst (prevClick c (fst (next c w)))) = Int i
  /\ index (fst (next c (fst (prevClick c w)))) = Int i.
Proof.
  intros n nexts Hn Hi Hr.
  assert (Hk : forall k, index (nexts k) = Int ((i + Z.of_nat k) mod n)).
  { clear k. induction k as [| k IH].
    - simpl. rewrite Z.add_0_r, Z.mod_small by lia. exact Hi.
    - unfold nexts in *. simpl.
      rewrite (next_effect c _ _ Hn IH) by (apply Z.mod_pos_bound; lia).
      fold n. rewrite Zplus_mod_idemp_l. f_equal. f_equal. lia. }
  split; [apply Hk |]. split.
  - rewrite Hk. fold n. f_equal.
    rewrite <- (Z.mul_1_l n) at 1. rewrite Z.mod_add by lia.
    apply Z.mod_small. lia.
  - split; [exact (prevClick_effect c w i Hn Hi Hr) |]. split.
    + rewrite (prevClick_effect c _ _ Hn (next_effect c w i Hn Hi Hr))
        by (apply Z.mod_pos_bound; lia).
      fold n. rewrite Zminus_mod_idemp_l. f_equal.
      rewrite Z.add_simpl_r. apply Z.mod_small. lia.
    + rewrite (next_effect c _ _ Hn (prevClick_effect c w i Hn Hi Hr))
        by (apply Z.mod_pos_bound; lia).
      fold n. rewrite Zplus_mod_idemp_l. f_equal.
      rewrite Z.sub_add. apply Z.mod_small. lia.
Qed.

Lemma carousel_navigation_witness :
  let w := started (load carouselPage ∅ false (constantClock 0)) in
  let nexts k := Nat.iter k (fun w => fst (next threeSlides w)) w in
  index (nexts 5%nat) = Int 2
  /\ index (nexts 3%nat) = Int 0
  /\ index (fst (prevClick threeSlides w)) = Int 2
  /\ index (fst (prevClick threeSlides (fst (next threeSlides w)))) = Int 0
  /\ index (fst (next threeSlides (fst (prevClick threeSlides w)))) = Int 0.
Proof.
  intros w nexts.
  destruct (carousel_navigation_is_modular threeSlides w 0 5)
    as (H1 & H2 & H3 & H4 & H5); [simpl; lia | reflexivity | simpl; lia |].
  split; [exact H1 |]. split; [exact H2 |]. split; [exact H3 |].
  split; [exact H4 | exact H5].
Defined.

(** A carousel without slides. *)

Lemma call_keeps_NaN cb entries :
  carouselCallback 0 cb ->
  keeps (fun w => index w = NaN) (call cb entries).
Proof.
  intros Hcb.
  destruct cb;
    try solve [keeps_all ltac:(intros ? ?; unfold index in *; simpl;
                               assumption)].
  - destruct Hcb as [_ Hcb]. lia.
  - intros w _. simpl. unfold prevClick, bind, gets. simpl.
    match goal with |- context [goToSlide c ?k w] =>
      destruct (goToSlide_effect c k w) as [-> _] end.
    simpl in Hcb. rewrite Hcb.
    by destruct (int_add (testimonialIndex (state w)) (-1)).
  - intros w _. simpl. unfold next, bind, gets. simpl.
    match goal with |- context [goToSlide c ?k w] =>
      destruct (goToSlide_effect c k w) as [-> _] end.
    simpl in Hcb. rewrite Hcb.
    by destruct (int_add (testimonialIndex (state w)) 1).
Qed.

Lemma after_keeps_NaN w events :
  carouselInv 0 w -> index w = NaN -> index (after w events) = NaN.
Proof.
  revert w. induction events as [| ev events IH]; intros w Hinv Hi;
    [exact Hi |].
  simpl. apply IH; [by apply step_carousel |].
  destruct Hinv as [Hr _]. rewrite Forall_forall in Hr.
  apply (step_keeps (fun w => index w = NaN));
    try (intros ? H; exact H); [| intros H; exact H | exact Hi].
  intros cb entries w' Hcb. apply call_keeps_NaN, Hr, Hcb.
Qed.

(** X20.  On a loaded page whose carousel has no slide, the first firing
    of the autoplay timer sets the testimonial index to [NaN] (the
    remainder of a division by zero), and every later event leaves it
    [NaN]. *)
Theorem empty_carousel_index_becomes_NaN
    (doc : Document) (storage : gmap string jsstring) (dark : bool)
    (time : nat -> Z) (events later : list Event)
    (timer : nat) (c : Carousel) (delay : Z) :
  let w := after (started (load doc storage dark time)) events in
  intervals w !! timer = Some (Next c, delay) ->
  slides c = [] ->
  index (after (step w (IntervalFires timer)) later) = NaN.
Proof.
  intros w Htimer Hc.
  destruct (started_carousel doc storage dark time) as [m Hm].
  apply (after_carousel m _ events) in Hm. fold w in Hm.
  assert (Hreg : Next c ∈ registered w).
  { apply registered_elem. apply registered_lookup in Htimer. tauto. }
  assert (m = 0%nat) as ->.
  { destruct Hm as [Hr _]. rewrite Forall_forall in Hr.
    specialize (Hr _ Hreg). simpl in Hr. by rewrite Hc in Hr. }
  apply after_keeps_NaN; [by apply step_carousel |].
  simpl. rewrite Htimer. unfold run, call, next, bind, gets. simpl.
  match goal with |- context [goToSlide c ?k w] =>
    destruct (goToSlide_effect c k w) as [-> _] end.
  rewrite Hc. simpl.
  by destruct (int_add (testimonialIndex (state w)) 1).
Qed.

Lemma empty_carousel_witness :
  let w := started (load emptyCarouselPage ∅ false (constantClock 0)) in
  index w = Int 0
  /\ index (after (step w (IntervalFires 0)) [IntervalFires 0; Scroll 3%float])
     = NaN.
Proof.
  intros w. split; [vm_compute; reflexivity |].
  apply (empty_carousel_index_becomes_NaN emptyCarouselPage ∅ false
           (constantClock 0) [] [IntervalFires 0; Scroll 3%float] 0%nat
           (mkCarousel 1%nat 2%nat []) 5000);
    vm_compute; reflexivity.
Defined.

(** The loop of [update] over the dots [l], numbered from [i]: it changes
    the active class of the dots and nothing else. *)
Lemma forEach_dots l i w :
  NoDup l ->
  Forall (fun d => (d < List.length (document w))%nat) l ->
  exists doc',
    forEach_from i l (fun dot idx =>
      let* index := gets (fun w => testimonialIndex (state w)) in
      mutate dot (classList_toggle (str "is-active") (int_eqb idx index))) w
    = (set_document doc' w, Ok tt)
    /\ List.length doc' = List.length (document w)
    /\ (forall j d, l !! j = Some d ->
          contains active <$> doc' !! d = Some (int_eqb (i + j) (index w)))
    /\ (forall m, m ∉ l -> doc' !! m = document w !! m)
    /\ (forall m, exists force,
          doc' !! m = classList_toggle active force <$> document w !! m
          \/ doc' !! m = document w !! m).
Proof.
  intros Hnd. revert i w.
  induction Hnd as [| x l Hx Hnd IH]; intros i w Hlt; simpl.
  - exists (document w). rewrite set_document_same.
    repeat split; try done. intros m. exists true. by right.
  - apply Forall_cons in Hlt as [Hxlt Hlt].
    unfold bind at 1, bind at 1, gets at 1, mutate at 1, modify at 1.
    match goal with |- context [forEach_from _ _ ?f ?w1] =>
      destruct (IH (S i) w1) as (doc' & -> & Hl & Hc & Ho & Hy) end.
    { simpl. unfold modifyNode. by rewrite length_alter. }
    simpl in Hl, Hc, Ho, Hy. unfold modifyNode in Hl.
    rewrite length_alter in Hl.
    exists doc'. split; [reflexivity |].
    split; [exact Hl |]. split; [| split].
    + intros [| j] d Hd; simpl in Hd.
      * injection Hd as <-. rewrite (Ho x Hx). unfold modifyNode.
        rewrite list_lookup_alter_eq.
        destruct (lookup_lt_is_Some_2 _ _ Hxlt) as [e ->]. simpl.
        rewrite contains_toggle. by rewrite Nat.add_0_r.
      * rewrite (Hc j d Hd). unfold index. simpl.
        by rewrite Nat.add_succ_r.
    + intros m Hm. apply not_elem_of_cons in Hm as [Hne Hm].
      rewrite (Ho m Hm). unfold modifyNode. by rewrite list_lookup_alter_ne.
    + intros m. destruct (decide (m ∈ l)) as [Hin | Hnin].
      * assert (Hne : x <> m) by (by intros ->).
        destruct (Hy m) as [force Hm]. exists force.
        unfold modifyNode in Hm.
        by rewrite list_lookup_alter_ne in Hm.
      * rewrite (Ho m Hnin). unfold modifyNode.
        destruct (decide (x = m)) as [-> | Hne].
        -- eexists. left. by rewrite list_lookup_alter_eq.
        -- exists true. right. by rewrite list_lookup_alter_ne.
Qed.

(** [update()]: the track is shifted to the current slide and the dot at
    the current index is the active one; nothing but styles and the active
    class changes. *)
Lemma update_effect c w :
  let buttons :=
    querySelectorAllIn (document w) (dots c) (ByClass (str "dot")) in
  exists doc',
    update c w = (set_document doc' w, Ok tt)
    /\ List.length doc' = List.length (document w)
    /\ (forall idx d, buttons !! idx = Some d ->
          contains active <$> doc' !! d = Some (int_eqb idx (index w)))
    /\ ((track c < List.length (document w))%nat ->
        doc' !! track c ≫= (fun e => style e !! "transform"%string)
        = Some (str "translateX(-" ++ int_toString (int_mul (index w) 100)
                ++ str "%)"))
    /\ (forall m, doc' !! m ≫= parentNode = document w !! m ≫= parentNode)
    /\ (forall m, attributes <$> doc' !! m = attributes <$> document w !! m)
    /\ (forall m token, token <> active ->
          contains token <$> doc' !! m = contains token <$> document w !! m).
Proof.
  intros buttons. unfold update.
  unfold bind at 1, gets at 1, bind at 1, mutate at 1, modify at 1.
  unfold bind at 1, gets at 1. cbn [fst snd document set_document].
  set (doc1 := modifyNode (track c) _ (document w)).
  assert (Hone : forall m, exists e1,
            doc1 !! m = (fun e => set_style e1 e) <$> document w !! m).
  { intros m. unfold doc1, modifyNode.
    destruct (decide (track c = m)) as [-> | Hne].
    - rewrite list_lookup_alter_eq. destruct (document w !! m) as [e |].
      + eexists. reflexivity.
      + by exists ∅.
    - rewrite list_lookup_alter_ne by done.
      destruct (document w !! m) as [e |]; [| by exists ∅].
      exists (style e). by destruct e. }
  assert (Hl1 : List.length doc1 = List.length (document w))
    by apply length_alter.
  assert (Hb : querySelectorAllIn doc1 (dots c) (ByClass (str "dot")) = buttons).
  { apply querySelectorAllIn_ext; [exact Hl1 | |].
    - intros m. destruct (Hone m) as [e1 ->].
      by destruct (document w !! m).
    - intros m. unfold selects. destruct (Hone m) as [e1 ->].
      by destruct (document w !! m). }
  rewrite Hb.
  destruct (forEach_dots buttons 0 (set_document doc1 w))
    as (doc' & Hrun & Hl & Hc & _ & Hy).
  { unfold buttons, querySelectorAllIn. apply NoDup_List_filter, NoDup_seq. }
  { simpl. rewrite Hl1. apply Forall_forall. intros d Hd.
    unfold buttons, querySelectorAllIn, nodes in Hd.
    apply list_elem_of_In, filter_In in Hd as [Hd _].
    apply in_seq in Hd. lia. }
  cbn [document set_document] in Hl, Hy. rewrite set_document_twice in Hrun.
  exists doc'. unfold forEach. split; [exact Hrun |].
  split; [by rewrite Hl |]. split; [exact Hc |].
  assert (Hboth : forall m, exists force e1,
            doc' !! m
            = (fun e => set_style e1 (classList_toggle active force e))
                <$> document w !! m
            \/ doc' !! m = (fun e => set_style e1 e) <$> document w !! m).
  { intros m. destruct (Hy m) as [force [Hm | Hm]];
      destruct (Hone m) as [e1 He1]; exists force, e1; rewrite Hm, He1.
    - left. destruct (document w !! m) as [e |]; [| done]. simpl. f_equal.
      unfold classList_toggle, classList_add, classList_remove.
      destruct force; [destruct (contains active _) |]; reflexivity.
    - by right. }
  split; [| split; [| split]].
  - intros Hlt. destruct (Hy (track c)) as [force Hm].
    unfold doc1, modifyNode in Hm. rewrite list_lookup_alter_eq in Hm.
    destruct (lookup_lt_is_Some_2 _ _ Hlt) as [e He]. rewrite He in Hm.
    destruct Hm as [-> | ->]; simpl; rewrite ?style_toggle; simpl;
      by rewrite lookup_insert_eq.
  - intros m. destruct (Hboth m) as (force & e1 & [-> | ->]);
      destruct (document w !! m); simpl; try done.
    unfold classList_toggle, classList_add, classList_remove.
    destruct force; [destruct (contains active _) |]; reflexivity.
  - intros m. destruct (Hboth m) as (force & e1 & [-> | ->]);
      destruct (document w !! m); simpl; try done.
    by rewrite attributes_toggle.
  - intros m token Hne. destruct (Hboth m) as (force & e1 & [-> | ->]);
      destruct (document w !! m) as [e |]; simpl; try done.
    f_equal. change (contains token (classList_toggle active force e)
                     = contains token e).
    by apply classes_toggle.
Qed.

(** X21.  On a track of [n >= 1] slides ([n] at most the largest array
    length), [goToSlide(k)] for [-n <= k] with [k + n] a safe integer
    returns normally, leaves active exactly the dot whose position among
    the dots is [k mod n], and shifts the track by [(k mod n) * 100]
    percent. *)
Theorem goToSlide_shows_the_slide (c : Carousel) (k : Z) (w : World) :
  let n := Z.of_nat (List.length (slides c)) in
  let buttons :=
    querySelectorAllIn (document w) (dots c) (ByClass (str "dot")) in
  let w' := fst (goToSlide c (Int k) w) in
  1 <= n <= maxArrayLength ->
  - n <= k ->
  k + n <= MAX_SAFE_INTEGER ->
  snd (goToSlide c (Int k) w) = Ok tt
  /\ (forall idx d, buttons !! idx = Some d ->
        (hasClass w' d active <-> Z.of_nat idx = k mod n))
  /\ ((track c < List.length (document w))%nat ->
      styleOf w' (track c) "transform"
      = Some (str "translateX(-" ++ Z_toString (k mod n * 100) ++ str "%)")).
Proof.
  intros n buttons w' [Hn _] Hk _. unfold w', goToSlide, bind, modify.
  cbn [fst snd].
  match goal with |- context [update c ?w1] =>
    destruct (update_effect c w1) as (doc' & -> & _ & Hc & Ht & _) end.
  cbn [fst snd document set_state] in *. unfold index in Hc, Ht.
  cbn [state set_state testimonialIndex] in Hc, Ht.
  destruct (wrap_inRange (List.length (slides c)) k ltac:(lia) Hk)
    as [Hw _].
  rewrite Hw in Hc, Ht. fold n in Hc, Ht.
  split; [reflexivity |]. split; [| exact Ht].
  intros idx d Hd. rewrite hasClass_contains. cbn [document set_document].
  rewrite (Hc idx d Hd). simpl.
  split; [intros [= H]; lia | intros H; f_equal; lia].
Qed.

Lemma goToSlide_shows_witness :
  let w := started (load carouselPage ∅ false (constantClock 0)) in
  let w' := fst (goToSlide threeSlides (Int (-1)) w) in
  hasClass w' 10%nat active
  /\ ~ hasClass w' 8%nat active
  /\ styleOf w' 1%nat "transform" = Some (str "translateX(-200%)").
Proof.
  intros w w'.
  destruct (goToSlide_shows_the_slide threeSlides (-1) w) as (_ & Hd & Ht);
    [unfold maxArrayLength; simpl; lia | simpl; lia
    | unfold MAX_SAFE_INTEGER; simpl; lia |].
  split; [| split].
  - apply (Hd 2%nat 10%nat); vm_compute; reflexivity.
  - intros H. apply (Hd 0%nat 8%nat) in H; [| vm_compute; reflexivity].
    vm_compute in H. discriminate H.
  - apply Ht. vm_compute. lia.
Defined.

Lemma wellParented_spec doc n e p :
  wellParented doc = true ->
  doc !! n = Some e -> parentNode e = Some p -> (p < List.length doc)%nat.
Proof.
  unfold wellParented. rewrite forallb_forall. intros H He Hp.
  apply list_elem_of_lookup_2, list_elem_of_In in He.
  specialize (H e He). rewrite Hp in H. by apply Nat.ltb_lt.
Qed.

Lemma addDot_run c slide index w :
  addDot c slide index w
  = (set_clickListeners
       (clickListeners w
        ++ [(List.length (document w), DotClick c index)])
       (set_document (document w ++ [dotFor (dots c) index]) w),
     Ok tt).
Proof.
  unfold addDot.
  cbv [bind new_element mutate modify addClickListener createElement].
  simpl. unfold appendChild, modifyNode. rewrite !alter_last. reflexivity.
Qed.

Lemma forEach_slides c (l : list NodeId) i w :
  let L := List.length (document w) in
  let n := List.length l in
  forEach_from i l (addDot c) w
  = (set_clickListeners
       (clickListeners w
        ++ zip_with (fun dot idx => (dot, DotClick c idx)) (seq L n) (seq i n))
       (set_document (document w ++ map (dotFor (dots c)) (seq i n)) w),
     Ok tt).
Proof.
  revert i w. induction l as [| x l IH]; intros i w.
  - simpl. rewrite !app_nil_r. by destruct w.
  - simpl. unfold bind at 1. rewrite addDot_run, IH. simpl.
    rewrite length_app, <- !app_assoc. simpl. rewrite Nat.add_1_r.
    reflexivity.
Qed.

(** After the container is emptied and the dots are appended, the dots are
    exactly the descendants of the container that carry the class. *)
Lemma built_dots_are_the_dots doc ds i n :
  wellParented doc = true ->
  (ds < List.length doc)%nat ->
  querySelectorAllIn
    (setTextContent ds [] doc ++ map (dotFor ds) (seq i n)) ds
    (ByClass (str "dot"))
  = seq (List.length doc) n.
Proof.
  intros Hwp Hds.
  set (doc0 := setTextContent ds [] doc).
  set (doc1 := doc0 ++ map (dotFor ds) (seq i n)).
  set (L := List.length doc).
  assert (Hl0 : List.length doc0 = L) by apply setTextContent_length.
  assert (Hl1 : List.length doc1 = (L + n)%nat).
  { unfold doc1. by rewrite length_app, length_map, length_seq, Hl0. }
  assert (Hold : forall fuel m, (m < L)%nat -> m <> ds ->
                                reaches doc1 fuel m ds = false).
  { induction fuel as [| fuel IH]; intros m Hm Hne; simpl;
      rewrite (proj2 (Nat.eqb_neq m ds) Hne); [reflexivity |].
    unfold doc1. rewrite lookup_app_l by (by rewrite Hl0).
    destruct (doc0 !! m) as [e0 |] eqn:E0; [| reflexivity]. simpl.
    destruct (parentNode e0) as [p |] eqn:Ep; [| reflexivity].
    apply IH.
    - destruct (setTextContent_parent _ _ _ _ _ _ E0 Ep) as (e & He & Hp).
      exact (wellParented_spec doc m e p Hwp He Hp).
    - intros ->. exact (setTextContent_detaches _ _ _ _ _ E0 Ep). }
  assert (Hnew : forall m, (L <= m < L + n)%nat ->
                           doc1 !! m = Some (dotFor ds (i + (m - L)))).
  { intros m Hm. unfold doc1. rewrite lookup_app_r by (rewrite Hl0; lia).
    rewrite Hl0, list_lookup_fmap, lookup_seq_lt by lia. reflexivity. }
  unfold querySelectorAllIn, nodes. fold doc0 doc1. rewrite Hl1.
  rewrite List.seq_app, List.filter_app. simpl.
  rewrite filter_none, filter_all; [reflexivity | |].
  - intros m Hm. apply list_elem_of_In, in_seq in Hm.
    apply andb_true_intro. split.
    + unfold isDescendant. apply andb_true_intro. split.
      * apply negb_true_iff, Nat.eqb_neq. lia.
      * rewrite Hl1. destruct (L + n)%nat as [| fuel] eqn:E; [lia |].
        simpl. rewrite (proj2 (Nat.eqb_neq m ds)) by lia.
        rewrite (Hnew m) by lia. simpl. apply reaches_refl.
    + unfold selects. rewrite (Hnew m) by lia. reflexivity.
  - intros m Hm. apply list_elem_of_In, in_seq in Hm.
    apply andb_false_iff. left. unfold isDescendant.
    destruct (decide (m = ds)) as [-> | Hne].
    + by rewrite Nat.eqb_refl.
    + rewrite Hold by (done || lia). apply andb_false_r.
Qed.

Lemma when_found_listener x (f : NodeId -> Callback) w :
  exists extra,
    when_found x (fun b => addClickListener b (f b)) w
    = (set_clickListeners (clickListeners w ++ extra) w, Ok tt).
Proof.
  destruct x as [b |]; simpl.
  - by exists [(b, f b)].
  - exists []. rewrite app_nil_r. by destruct w.
Qed.

(** X22.  On a page with the track and the dots container,
    [initTestimonials] returns normally and leaves the container with
    exactly one new dot per slide.  The dot of slide [j] is labelled
    [Go to testimonial j+1], has a click listener that goes to slide [j],
    and is the active one exactly when [j] is the current index; autoplay
    is registered at 5000 ms, its handle is recorded, and the index is
    unchanged. *)
Theorem initTestimonials_builds_the_dots (w : World) (tr ds : NodeId) :
  querySelector (document w) (ById (str "testimonial-track")) = Some tr ->
  querySelector (document w) (ById (str "testimonial-dots")) = Some ds ->
  wellParented (document w) = true ->
  let slides := children (document w) tr in
  let c := mkCarousel tr ds slides in
  let n := List.length slides in
  let L := List.length (document w) in
  let w' := fst (initTestimonials w) in
  snd (initTestimonials w) = Ok tt
  /\ querySelectorAllIn (document w') ds (ByClass (str "dot")) = seq L n
  /\ (forall j, (j < n)%nat ->
        attributeOf w' (L + j) "aria-label"
        = Some (str "Go to testimonial " ++ Z_toString (Z.of_nat j + 1))
        /\ ((L + j)%nat, DotClick c j) ∈ clickListeners w'
        /\ (hasClass w' (L + j) active <-> index w = Int (Z.of_nat j)))
  /\ intervals w' = intervals w ++ [(Next c, 5000)]
  /\ testimonialTimer (state w') = Some (List.length (intervals w))
  /\ index w' = index w.
Proof.
  intros Htr Hds Hwp slides c n L w'.
  apply querySelector_spec in Hds as Hlt. destruct Hlt as [Hlt _].
  set (doc0 := setTextContent ds [] (document w)).
  set (doc1 := doc0 ++ map (dotFor ds) (seq 0 n)).
  set (dotListeners :=
         zip_with (fun dot idx => (dot, DotClick c idx)) (seq L n) (seq 0 n)).
  assert (Hl0 : List.length doc0 = L) by apply setTextContent_length.
  (* the run, up to the call of [update] *)
  assert (Hrun : exists extra w4,
    document w4 = doc1
    /\ clickListeners w4 = clickListeners w ++ dotListeners ++ extra
    /\ intervals w4 = intervals w ++ [(Next c, 5000)]
    /\ state w4 = mkState (testimonialIndex (state w))
                          (Some (List.length (intervals w)))
                          (countdownTarget (state w))
    /\ initTestimonials w = update c w4).
  { unfold initTestimonials.
    unfold bind at 1, document_querySelector at 1, gets at 1. rewrite Htr.
    unfold bind at 1, document_querySelector at 1, gets at 1. rewrite Hds.
    unfold bind at 1, gets at 1. fold slides c.
    unfold bind at 1, write_text at 1, modify at 1. fold doc0.
    unfold bind at 1, forEach at 1.
    change (forEach_from 0 slides _ (set_document doc0 w))
      with (forEach_from 0 slides (addDot c) (set_document doc0 w)).
    rewrite forEach_slides. cbn [document set_document clickListeners].
    rewrite Hl0. fold n dotListeners doc1.
    unfold bind at 1, document_querySelector at 1, gets at 1.
    unfold bind at 1.
    match goal with |- context [when_found ?x _ ?w1] =>
      destruct (when_found_listener x (fun _ => PrevClick c) w1)
        as [extra1 ->] end.
    unfold bind at 1, document_querySelector at 1, gets at 1.
    unfold bind at 1.
    match goal with |- context [when_found ?x _ ?w1] =>
      destruct (when_found_listener x (fun _ => Next c) w1)
        as [extra2 ->] end.
    cbv [bind setInterval gets modify ret]. cbn [fst snd].
    eexists (extra1 ++ extra2), _. split; [| split; [| split; [| split]]];
      [| | | | reflexivity]; simpl; try reflexivity.
    by rewrite <- !app_assoc. }
  destruct Hrun as (extra & w4 & Hdoc & Hcl & Hint & Hst & Hrun).
  destruct (update_effect c w4)
    as (doc' & Hup & Hl & Hc & _ & Hp & Ha & Hk).
  rewrite Hdoc in Hl, Hc, Hp, Ha, Hk.
  assert (Hbuilt : querySelectorAllIn doc1 ds (ByClass (str "dot")) = seq L n)
    by (apply built_dots_are_the_dots; done).
  change (dots c) with ds in Hc. rewrite Hbuilt in Hc.
  assert (Hnew : forall j, (j < n)%nat ->
                           doc1 !! (L + j)%nat = Some (dotFor ds j)).
  { intros j Hj. unfold doc1. rewrite lookup_app_r by (rewrite Hl0; lia).
    rewrite Hl0, list_lookup_fmap, lookup_seq_lt by lia.
    simpl. do 3 f_equal. lia. }
  unfold w'. rewrite Hrun, Hup. cbn [fst snd document set_document].
  split; [reflexivity |]. split; [| split; [| split; [| split]]].
  - rewrite <- Hbuilt. apply querySelectorAllIn_ext; [exact Hl | exact Hp |].
    intros m. unfold selects.
    pose proof (Hk m (str "dot") ltac:(by vm_compute)) as Hm.
    destruct (doc' !! m), (doc1 !! m); simplify_eq/=; congruence.
  - intros j Hj. split; [| split].
    + unfold attributeOf. cbn [document set_document].
      pose proof (Ha (L + j)%nat) as Hm. rewrite (Hnew j Hj) in Hm.
      destruct (doc' !! (L + j)%nat) as [e' |]; [| done].
      simpl in *. injection Hm as Hm. unfold getAttribute. rewrite Hm.
      by rewrite lookup_singleton_eq.
    + cbn [clickListeners set_document]. rewrite Hcl.
      rewrite !elem_of_app. right. left. unfold dotListeners.
      apply elem_of_lookup_zip_with. exists j, (L + j)%nat, j.
      by rewrite !lookup_seq_lt by lia.
    + rewrite hasClass_contains. cbn [document set_document].
      rewrite (Hc j (L + j)%nat) by (by rewrite lookup_seq_lt by lia).
      unfold index. rewrite Hst. simpl.
      destruct (testimonialIndex (state w)) as [z |]; simpl.
      * split; [intros [= H%Z.eqb_eq]; by subst |].
        intros [= <-]. by rewrite Z.eqb_refl.
      * split; [by intros [=] | by intros [=]].
  - exact Hint.
  - cbn [state set_document]. by rewrite Hst.
  - unfold index. cbn [state set_document]. by rewrite Hst.
Qed.

Lemma initTestimonials_builds_witness :
  let w := load carouselPage ∅ false (constantClock 0) in
  let w' := fst (initTestimonials w) in
  querySelectorAllIn (document w') 5%nat (ByClass (str "dot"))
  = [8; 9; 10]%nat
  /\ attributeOf w' 9%nat "aria-label" = Some (str "Go to testimonial 2")
  /\ hasClass w' 8%nat active
  /\ intervals w' = [(Next threeSlides, 5000)].
Proof.
  intros w w'.
  destruct (initTestimonials_builds_the_dots w 1%nat 5%nat)
    as (_ & Hq & Hj & Hi & _); try (vm_compute; reflexivity).
  split; [exact Hq |].
  destruct (Hj 1%nat ltac:(vm_compute; lia)) as (Ha & _ & _).
  destruct (Hj 0%nat ltac:(vm_compute; lia)) as (_ & _ & Hc).
  split; [exact Ha |]. split; [by apply Hc | exact Hi].
Defined.
